(** * Blaze: the DynamicVector buffer and the DenseSubmatrix view

    A shallow embedding of [blaze/math/DiagonalMatrix.h] (the DynamicVector
    class it carries) and of the row-major [blaze/math/views/DenseSubmatrix.h],
    followed by the properties of the specification that concern them.

    Conventions.
    - [size_t] is a 64-bit unsigned integer: a [Z] in [0, 2^64) whose
      arithmetic wraps around ([SizeT.add], [SizeT.sub], ...).
    - A heap block ([Type* v_]) is a function from indices to elements; what
      [allocate<Type>] returns is uninitialised, so every allocation takes
      the prior content of the block as an argument ([fresh]).
    - Compile-time traits of the element type ([Type()], [IsNumeric],
      [IsVectorizable], [IntrinsicTrait<Type>::size], [sizeof]) are the
      fields of the class [ElementTraits]. *)

From Stdlib Require Import ZArith Lia List Bool String.
Import ListNotations.
Local Open Scope Z_scope.

(* ================================================================= *)
(** ** Part I: definitions                                            *)
(* ================================================================= *)

(** *** size_t arithmetic *)

Module SizeT.

Definition modulus : Z := 18446744073709551616.

Definition in_range (z : Z) : Prop := 0 <= z < modulus.

Definition wrap (z : Z) : Z := z mod modulus.

Definition add (a b : Z) : Z := wrap (a + b).
Definition sub (a b : Z) : Z := wrap (a - b).
Definition mul (a b : Z) : Z := wrap (a * b).
(** [a % b] and [a / b] on unsigned operands. *)
Definition rem (a b : Z) : Z := a mod b.
Definition div (a b : Z) : Z := a / b.
(** [size_t(-k)]: the conversion of a negative [int] to [size_t]. *)
Definition neg (k : Z) : Z := wrap (- k).
(** [a & b]. *)
Definition and (a b : Z) : Z := Z.land a b.

End SizeT.

Notation "a +! b" := (SizeT.add a b) (at level 50, left associativity).
Notation "a -! b" := (SizeT.sub a b) (at level 50, left associativity).
Notation "a *! b" := (SizeT.mul a b) (at level 40, left associativity).

(** *** Traits of the element type *)

Class ElementTraits (T : Type) := {
  Type_default : T;          (* Type() *)
  isDefault : T -> bool;     (* blaze::isDefault( const Type& ) *)
  IsNumeric : bool;          (* IsNumeric<Type>::value *)
  IsVectorizable : bool;     (* IsVectorizable<Type>::value *)
  IT_size : Z;               (* IntrinsicTrait<Type>::size *)
  IT_addition : bool;        (* IntrinsicTrait<Type>::addition *)
  IT_subtraction : bool;     (* IntrinsicTrait<Type>::subtraction *)
  sizeof_Type : Z;           (* sizeof(Type) *)
  elem_add : T -> T -> T;    (* operator+= on elements *)
  elem_sub : T -> T -> T     (* operator-= on elements *)
}.

(** What the absent trait headers guarantee and the code relies on: the
    number of elements of an intrinsic vector is a power of two (four times
    it fits an [int]), and [isDefault] tests against [Type()]. *)
Class ElementLaws (T : Type) `{ElementTraits T} : Prop := {
  IT_size_pow2 : exists k, 0 <= k < 29 /\ IT_size = 2 ^ k;
  isDefault_spec : forall x, isDefault x = true <-> x = Type_default
}.

(** *** Raw storage and loops *)

Definition array (T : Type) : Type := Z -> T.

Definition upd {T : Type} (a : array T) (i : Z) (x : T) : array T :=
  fun k => if k =? i then x else a k.

(** [for( size_t i=lo; i<hi; ++i ) body]. The counter cannot wrap: inside
    the loop [i < hi <= SIZE_MAX], so [++i] is exact. *)
Definition for_range {S : Type} (lo hi : Z) (body : Z -> S -> S) (s : S) : S :=
  fold_left (fun acc k => body (lo + Z.of_nat k) acc)
            (seq 0 (Z.to_nat (hi - lo))) s.

(** [for( size_t j=j0; j<e; j+=step ) body], with a body that may itself
    fail to finish. The counter wraps like any [size_t], so the loop gets
    fuel: [None] means the fuel ran out. *)
Fixpoint for_step {S : Type} (fuel : nat) (j e step : Z)
         (body : Z -> S -> option S) (s : S) : option S :=
  if j <? e then
    match fuel with
    | O => None
    | Datatypes.S fuel' =>
        match body j s with
        | Some s' => for_step fuel' (j +! step) e step body s'
        | None => None
        end
    end
  else Some s.

(** *** DynamicVector (blaze/math/DiagonalMatrix.h, lines 837-2530) *)

Module DynamicVector.
Section Def.
Context {T : Type} `{ET : ElementTraits T}.

Record t : Type := mk {
  size_ : Z;          (* size_t size_ *)
  capacity_ : Z;      (* size_t capacity_ *)
  v_ : array T        (* Type* v_ *)
}.

(** [adjustCapacity( minCapacity )], lines 1927-1932. *)
Definition adjustCapacity (minCapacity : Z) : Z :=
  if IsNumeric
  then minCapacity +! SizeT.rem (IT_size -! SizeT.rem minCapacity IT_size) IT_size
  else minCapacity.

(** [for( size_t i=lo; i<hi; ++i ) v[i] = Type();] *)
Definition fill_default (lo hi : Z) (v : array T) : array T :=
  for_range lo hi (fun i a => upd a i Type_default) v.

(** [DynamicVector()], lines 1096-1100: no storage ([v_] is NULL). *)
Definition ctor_default (null : array T) : t :=
  {| size_ := 0; capacity_ := 0; v_ := null |}.

(** [DynamicVector( size_t n )], lines 1114-1123. *)
Definition ctor_size (fresh : array T) (n : Z) : t :=
  let capacity := adjustCapacity n in
  let v := fresh in
  {| size_ := n;
     capacity_ := capacity;
     v_ := if IsNumeric then fill_default n capacity v else v |}.

(** [DynamicVector( size_t n, const Type& init )], lines 1137-1149. *)
Definition ctor_init (fresh : array T) (n : Z) (init : T) : t :=
  let capacity := adjustCapacity n in
  let v := for_range 0 n (fun i a => upd a i init) fresh in
  {| size_ := n;
     capacity_ := capacity;
     v_ := if IsNumeric then fill_default n capacity v else v |}.

(** [operator[]( size_t index )] read, lines 1291-1296. *)
Definition get (v : t) (index : Z) : T := v_ v index.

(** A write through [operator[]( size_t index )], lines 1274-1279; the user
    assertion [index < size_] is the precondition of the call. *)
Definition set (v : t) (index : Z) (x : T) : t :=
  {| size_ := size_ v; capacity_ := capacity_ v; v_ := upd (v_ v) index x |}.

Definition size (v : t) : Z := size_ v.
Definition capacity (v : t) : Z := capacity_ v.

(** [std::copy( first, first+n, dst )]. *)
Definition std_copy (src : array T) (n : Z) (dst : array T) : array T :=
  for_range 0 n (fun i a => upd a i (src i)) dst.

(** [resize( size_t n, bool preserve )], lines 1792-1822. *)
Definition resize (fresh : array T) (n : Z) (preserve : bool) (v : t) : t :=
  if capacity_ v <? n then
    let newCapacity := adjustCapacity n in
    let tmp := fresh in
    let tmp := if preserve then std_copy (v_ v) (size_ v) tmp else tmp in
    let tmp := if IsNumeric then fill_default (size_ v) newCapacity tmp else tmp in
    {| size_ := n; capacity_ := newCapacity; v_ := tmp |}
  else if IsNumeric && (n <? size_ v) then
    {| size_ := n; capacity_ := capacity_ v; v_ := fill_default n (size_ v) (v_ v) |}
  else
    {| size_ := n; capacity_ := capacity_ v; v_ := v_ v |}.

(** [clear()], lines 1756-1759. *)
Definition clear (fresh : array T) (v : t) : t := resize fresh 0 false v.

(** [extend( size_t n, bool preserve )], lines 1840-1843. *)
Definition extend (fresh : array T) (n : Z) (preserve : bool) (v : t) : t :=
  resize fresh (size_ v +! n) preserve v.

(** [reserve( size_t n )], lines 1858-1879. *)
Definition reserve (fresh : array T) (n : Z) (v : t) : t :=
  if capacity_ v <? n then
    let newCapacity := adjustCapacity n in
    let tmp := fresh in
    let tmp := std_copy (v_ v) (size_ v) tmp in
    let tmp := if IsNumeric then fill_default (size_ v) newCapacity tmp else tmp in
    {| size_ := size_ v; capacity_ := newCapacity; v_ := tmp |}
  else v.

(** [reset()], lines 1738-1743. *)
Definition reset (v : t) : t :=
  {| size_ := size_ v; capacity_ := capacity_ v;
     v_ := fill_default 0 (size_ v) (v_ v) |}.

(** [swap( DynamicVector& v )], lines 1910-1915: both vectors after the call. *)
Definition swap (this v : t) : t * t := (v, this).

(** The invariant of the specification: [capacity >= size], and the padding
    [size, capacity) holds [Type()]. *)
Definition padded (v : t) : Prop :=
  forall i, size_ v <= i < capacity_ v -> v_ v i = Type_default.

Definition invariant (v : t) : Prop :=
  size_ v <= capacity_ v /\ padded v.

(** The width-aligned capacity for [n] fits a [size_t]. *)
Definition fits (n : Z) : Prop :=
  n + (IT_size - n mod IT_size) mod IT_size < SizeT.modulus.

(** [c] is the smallest multiple of [w] that is at least [n]. *)
Definition smallest_multiple_geq (w n c : Z) : Prop :=
  n <= c /\ c mod w = 0 /\ forall c', n <= c' -> c' mod w = 0 -> c <= c'.

(** The vectors a program can build: a constructor followed by any sequence
    of the operations, each with a [size_t] argument. With [checked := true]
    every size that makes the vector allocate has a width-aligned capacity
    that fits a [size_t]; with [checked := false] any size is accepted. *)
Definition size_ok (checked : bool) (n : Z) : Prop :=
  SizeT.in_range n /\ (checked = true -> fits n).

Inductive reachable (checked : bool) : t -> Prop :=
| reach_default null :
    reachable checked (ctor_default null)
| reach_size fresh n :
    size_ok checked n -> reachable checked (ctor_size fresh n)
| reach_init fresh n init :
    size_ok checked n -> reachable checked (ctor_init fresh n init)
| reach_resize fresh n preserve v :
    reachable checked v -> size_ok checked n ->
    reachable checked (resize fresh n preserve v)
| reach_reserve fresh n v :
    reachable checked v -> size_ok checked n ->
    reachable checked (reserve fresh n v)
| reach_extend fresh n preserve v :
    reachable checked v -> SizeT.in_range n -> size_ok checked (size_ v +! n) ->
    reachable checked (extend fresh n preserve v)
| reach_clear fresh v :
    reachable checked v -> reachable checked (clear fresh v)
| reach_reset v :
    reachable checked v -> reachable checked (reset v)
| reach_set v index x :
    reachable checked v -> 0 <= index < size_ v ->
    reachable checked (set v index x)
| reach_swap_this v w :
    reachable checked v -> reachable checked w ->
    reachable checked (fst (swap v w))
| reach_swap_other v w :
    reachable checked v -> reachable checked w ->
    reachable checked (snd (swap v w)).

(** **** Further constructors, operators and utility functions *)

(** [DynamicVector( const DynamicVector& v )], lines 1163-1172: the elements
    are copied up to the new capacity, which the internal assertion
    [capacity_ <= v.capacity_] expects to lie inside the block of [v]. *)
Definition ctor_copy (fresh : array T) (v : t) : t :=
  let capacity := adjustCapacity (size_ v) in
  {| size_ := size_ v;
     capacity_ := capacity;
     v_ := for_range 0 capacity (fun i a => upd a i (v_ v i)) fresh |}.

(** [rhs[i]] for a built-in array [const Other (&rhs)[N]], given as the
    list of its [N] elements after their conversion to [Type]. *)
Definition array_at (rhs : list T) (i : Z) : T := nth (Z.to_nat i) rhs Type_default.

(** [DynamicVector( const Other (&rhs)[N] )], lines 1222-1234. *)
Definition ctor_array (fresh : array T) (rhs : list T) : t :=
  let N := Z.of_nat (List.length rhs) in
  let capacity := adjustCapacity N in
  let v := for_range 0 N (fun i a => upd a i (array_at rhs i)) fresh in
  {| size_ := N;
     capacity_ := capacity;
     v_ := if IsNumeric then fill_default N capacity v else v |}.

(** [operator=( const Other (&rhs)[N] )], lines 1445-1453. *)
Definition assign_array (fresh : array T) (rhs : list T) (v : t) : t :=
  let N := Z.of_nat (List.length rhs) in
  let v := resize fresh N false v in
  {| size_ := size_ v; capacity_ := capacity_ v;
     v_ := for_range 0 N (fun i a => upd a i (array_at rhs i)) (v_ v) |}.

(** [operator=( const Type& rhs )], lines 1465-1470. *)
Definition assign_scalar (rhs : T) (v : t) : t :=
  {| size_ := size_ v; capacity_ := capacity_ v;
     v_ := for_range 0 (size_ v) (fun i a => upd a i rhs) (v_ v) |}.

(** [operator=( const DynamicVector& rhs )], lines 1485-1495; [same] is the
    outcome of the test [&rhs == this]. *)
Definition copy_assign (fresh : array T) (same : bool) (rhs this : t) : t :=
  if same then this
  else
    let this := resize fresh (size_ rhs) false this in
    {| size_ := size_ this; capacity_ := capacity_ this;
       v_ := for_range 0 (size_ this) (fun i a => upd a i (v_ rhs i)) (v_ this) |}.

(** [nonZeros()], lines 1717-1727. *)
Definition nonZeros (v : t) : Z :=
  for_range 0 (size_ v) (fun i nonzeros =>
    if negb (isDefault (v_ v i)) then nonzeros +! 1 else nonzeros) 0.

(** [scale( Other scalar )], lines 1892-1897; [times x] is the value of [x]
    after [x *= scalar]. *)
Definition scale (times : T -> T) (v : t) : t :=
  {| size_ := size_ v; capacity_ := capacity_ v;
     v_ := for_range 0 (size_ v) (fun i a => upd a i (times (a i))) (v_ v) |}.

(** [isDefault( const DynamicVector& v )], lines 2605-2610: the loop returns
    [false] at the first element that is not in default state. *)
Definition isDefault_vector (v : t) : bool :=
  forallb (fun k => isDefault (get v (Z.of_nat k))) (seq 0 (Z.to_nat (size v))).

End Def.
Arguments t T : clear implicits.
End DynamicVector.

(** *** Outcomes, intrinsic vectors, operands *)

Inductive outcome (A : Type) : Type :=
| Returns (a : A)          (* normal completion *)
| Throws (what : string)   (* throw std::invalid_argument( what ) *)
| OutOfFuel.               (* a loop did not finish within its fuel *)
Arguments Returns {A} a.
Arguments Throws {A} what.
Arguments OutOfFuel {A}.

(** An intrinsic vector ([IntrinsicType]): lane [k] for [0 <= k < IT_size]. *)
Definition IntrinsicType (T : Type) : Type := Z -> T.

(** The address of a matrix object ([&matrix_]). *)
Definition addr : Type := nat.

(** A dense right-hand side of the view's storage order, as the kernels use
    it: [rows()], [columns()], [operator()(i,j)], [load(i,j)], the
    [vectorizable] flag and [isAliased( alias )], at one moment: the values
    are those the operand holds then. A kernel reads its operand while it
    writes; it is given the operand as a function of what the matrix that
    the view borrows holds at the moment of the read. *)
Record DenseSource (T : Type) : Type := {
  src_rows : Z;
  src_columns : Z;
  src_get : Z -> Z -> T;
  src_load : Z -> Z -> IntrinsicType T;
  src_vectorizable : bool;
  src_isAliased : addr -> bool
}.
Arguments src_rows {T} _.
Arguments src_columns {T} _.
Arguments src_get {T} _ _ _.
Arguments src_load {T} _ _ _.
Arguments src_vectorizable {T} _.
Arguments src_isAliased {T} _ _.

(** Modelled from the spec: a sparse matrix (CompressedMatrix and the like,
    outside the excerpt), as the kernels iterate it: [begin(i)] to [end(i)]
    yields the explicit elements of row [i] (of column [i] for a
    column-major matrix), each with an [index()] and a [value()]. *)
Record SparseMatrix (T : Type) : Type := {
  sp_rows : Z;
  sp_columns : Z;
  sp_line : Z -> list (Z * T)
}.
Arguments sp_rows {T} _.
Arguments sp_columns {T} _.
Arguments sp_line {T} _ _.

(** What [blaze::assign( lhs, rhs )] can be given, seen from a row-major
    view: a dense or sparse matrix of the same or the opposite storage
    order. *)
Inductive Operand (T : Type) : Type :=
| Dense (src : DenseSource T)            (* DenseMatrix<MT2,SO> *)
| DenseOpposite (src : DenseSource T)    (* DenseMatrix<MT2,!SO> *)
| Sparse (sp : SparseMatrix T)           (* SparseMatrix<MT2,SO> *)
| SparseOpposite (sp : SparseMatrix T).  (* SparseMatrix<MT2,!SO> *)
Arguments Dense {T} src.
Arguments DenseOpposite {T} src.
Arguments Sparse {T} sp.
Arguments SparseOpposite {T} sp.

Definition operand_rows {T : Type} (op : Operand T) : Z :=
  match op with
  | Dense src | DenseOpposite src => src_rows src
  | Sparse sp | SparseOpposite sp => sp_rows sp
  end.

Definition operand_columns {T : Type} (op : Operand T) : Z :=
  match op with
  | Dense src | DenseOpposite src => src_columns src
  | Sparse sp | SparseOpposite sp => sp_columns sp
  end.

Definition operand_IsSparseMatrix {T : Type} (op : Operand T) : bool :=
  match op with
  | Dense _ | DenseOpposite _ => false
  | Sparse _ | SparseOpposite _ => true
  end.

(** *** DynamicVector: expression template evaluation functions
        (blaze/math/DiagonalMatrix.h, lines 1957-2520) *)

(** A dense right-hand side vector as the kernels use it: [size()],
    [operator[](i)], [load(i)], the [vectorizable] flag, and the answers of
    [isAliased( this )] and [canAlias( this )] for the vector on the left.
    The operand is not written while a kernel runs. *)
Record DenseVector (T : Type) : Type := {
  vec_size : Z;
  vec_get : Z -> T;
  vec_load : Z -> IntrinsicType T;
  vec_vectorizable : bool;
  vec_isAliased : bool;
  vec_canAlias : bool
}.
Arguments vec_size {T} _.
Arguments vec_get {T} _ _.
Arguments vec_load {T} _ _.
Arguments vec_vectorizable {T} _.
Arguments vec_isAliased {T} _.
Arguments vec_canAlias {T} _.

(** Modelled from the spec: a sparse vector (CompressedVector and the like,
    outside the excerpt), as the kernels iterate it: [begin()] to [end()]
    yields its explicit elements, each with an [index()] and a [value()]. *)
Record SparseVector (T : Type) : Type := {
  spv_size : Z;
  spv_elements : list (Z * T)
}.
Arguments spv_size {T} _.
Arguments spv_elements {T} _.

Module DynamicVectorExpr.
Section Def.
Context {T : Type} `{ET : ElementTraits T}.
(** [blaze::cacheSize], a constant of the system configuration. *)
Variable cacheSize : Z.

Local Abbreviation vector := (DynamicVector.t T).

(** The vector with the block [a] for its elements. *)
Definition with_v (v : vector) (a : array T) : vector :=
  DynamicVector.mk (DynamicVector.size_ v) (DynamicVector.capacity_ v) a.

(** The intrinsics on a raw pointer, [load( v_+index )] and
    [store( v_+index, value )]: [IT::size] consecutive elements. The
    aligned, the unaligned and the streaming variants move the same
    elements. *)
Definition load_at (a : array T) (index : Z) : IntrinsicType T :=
  fun k => a (index + k).
Definition store_at (a : array T) (index : Z) (value : IntrinsicType T) : array T :=
  for_range 0 IT_size (fun k b => upd b (index + k) (value k)) a.

(** Lane-wise application of a binary operator to two intrinsic vectors. *)
Definition lanewise (op : T -> T -> T) (a b : IntrinsicType T) : IntrinsicType T :=
  fun k => op (a k) (b k).

(** [load], [loadu], lines 1999-2040; [store], [storeu], [stream], lines
    2061-2130. The internal assertions ([index < size_],
    [index + IT::size <= capacity_]) are the preconditions of the calls. *)
Definition loadu (v : vector) (index : Z) : IntrinsicType T :=
  load_at (DynamicVector.v_ v) index.
Definition load (v : vector) (index : Z) : IntrinsicType T :=
  load_at (DynamicVector.v_ v) index.
Definition storeu (v : vector) (index : Z) (value : IntrinsicType T) : vector :=
  with_v v (store_at (DynamicVector.v_ v) index value).
Definition store (v : vector) (index : Z) (value : IntrinsicType T) : vector :=
  with_v v (store_at (DynamicVector.v_ v) index value).
Definition stream (v : vector) (index : Z) (value : IntrinsicType T) : vector :=
  with_v v (store_at (DynamicVector.v_ v) index value).

(** The default kernels for a dense vector share one body and differ in the
    element operator only: [assign], lines 2151-2163; [addAssign], lines
    2254-2266; [subAssign], lines 2348-2360; [multAssign], lines 2442-2454.
    [op old x] is the new element. *)
Definition update_default (op : T -> T -> T) (fuel : nat) (rhs : DenseVector T)
           (v : vector) : option vector :=
  let iend := SizeT.and (vec_size rhs) (SizeT.neg 2) in
  match
    for_step fuel 0 iend 2 (fun i a =>
      let a := upd a i (op (a i) (vec_get rhs i)) in
      Some (upd a (i +! 1) (op (a (i +! 1)) (vec_get rhs (i +! 1)))))
      (DynamicVector.v_ v)
  with
  | Some a =>
      Some (with_v v (if iend <? vec_size rhs
                      then upd a iend (op (a iend) (vec_get rhs iend))
                      else a))
  | None => None
  end.

Definition assign_default := update_default (fun _ x => x).
Definition addAssign_default := update_default elem_add.
Definition subAssign_default := update_default elem_sub.

(** [assign( const DenseVector<VT,TF>& rhs )], intrinsic, lines 2181-2212. *)
Definition assign_vectorized (fuel : nat) (rhs : DenseVector T) (v : vector)
  : option vector :=
  let size_ := DynamicVector.size_ v in
  if (SizeT.div cacheSize (sizeof_Type *! 3) <? size_) && negb (vec_isAliased rhs)
  then
    match for_step fuel 0 size_ IT_size (fun i a =>
            Some (store_at a i (vec_load rhs i))) (DynamicVector.v_ v) with
    | Some a => Some (with_v v a)
    | None => None
    end
  else
    let iend := SizeT.and size_ (SizeT.neg (IT_size * 4)) in
    match
      for_step fuel 0 iend (IT_size *! 4) (fun i a =>
        let a := store_at a i (vec_load rhs i) in
        let a := store_at a (i + IT_size) (vec_load rhs (i +! IT_size)) in
        let a := store_at a (i + IT_size *! 2) (vec_load rhs (i +! IT_size *! 2)) in
        Some (store_at a (i + IT_size *! 3) (vec_load rhs (i +! IT_size *! 3))))
        (DynamicVector.v_ v)
    with
    | Some a =>
        match for_step fuel iend size_ IT_size (fun i a =>
                Some (store_at a i (vec_load rhs i))) a with
        | Some a => Some (with_v v a)
        | None => None
        end
    | None => None
    end.

(** The intrinsic [addAssign], lines 2284-2306; [subAssign], lines
    2378-2400; [multAssign], lines 2472-2494. *)
Definition update_vectorized (op : T -> T -> T) (fuel : nat) (rhs : DenseVector T)
           (v : vector) : option vector :=
  let size_ := DynamicVector.size_ v in
  let combine a i := lanewise op (load_at a i) (vec_load rhs i) in
  let iend := SizeT.and size_ (SizeT.neg (IT_size * 4)) in
  match
    for_step fuel 0 iend (IT_size *! 4) (fun i a =>
      let a := store_at a i (combine a i) in
      let a := store_at a (i + IT_size)
                 (lanewise op (load_at a (i + IT_size))
                    (vec_load rhs (i +! IT_size))) in
      let a := store_at a (i + IT_size *! 2)
                 (lanewise op (load_at a (i + IT_size *! 2))
                    (vec_load rhs (i +! IT_size *! 2))) in
      Some (store_at a (i + IT_size *! 3)
              (lanewise op (load_at a (i + IT_size *! 3))
                 (vec_load rhs (i +! IT_size *! 3)))))
      (DynamicVector.v_ v)
  with
  | Some a =>
      match for_step fuel iend size_ IT_size (fun i a =>
              Some (store_at a i (combine a i))) a with
      | Some a => Some (with_v v a)
      | None => None
      end
  | None => None
  end.

Definition addAssign_vectorized := update_vectorized elem_add.
Definition subAssign_vectorized := update_vectorized elem_sub.

(** The kernels for a sparse vector: [assign], lines 2230-2236;
    [addAssign], lines 2324-2330; [subAssign], lines 2418-2424. *)
Definition update_sparse (op : T -> T -> T) (rhs : SparseVector T) (v : vector) : vector :=
  with_v v
    (fold_left (fun a element =>
                  upd a (fst element) (op (a (fst element)) (snd element)))
               (spv_elements rhs) (DynamicVector.v_ v)).

(** [multAssign( const SparseVector<VT,TF>& rhs )], lines 2512-2522;
    [mul x y] is [x * y]. *)
Definition multAssign_sparse (mul : T -> T -> T) (fresh : array T)
           (rhs : SparseVector T) (v : vector) : vector :=
  let tmp := DynamicVector.ctor_copy fresh v in
  let v := DynamicVector.reset v in
  with_v v
    (fold_left (fun a element =>
                  upd a (fst element)
                      (mul (DynamicVector.get tmp (fst element)) (snd element)))
               (spv_elements rhs) (DynamicVector.v_ v)).

(** What [blaze::addAssign( lhs, rhs )] and [blaze::subAssign( lhs, rhs )]
    can be given: a dense or a sparse vector. *)
Inductive Operand : Type :=
| Dense (rhs : DenseVector T)
| Sparse (rhs : SparseVector T).

Definition operand_size (rhs : Operand) : Z :=
  match rhs with Dense d => vec_size d | Sparse s => spv_size s end.

(** [(~rhs).canAlias( this )]; a sparse vector shares no storage with a
    dense one. *)
Definition operand_canAlias (rhs : Operand) : bool :=
  match rhs with Dense d => vec_canAlias d | Sparse _ => false end.

(** Modelled from the spec: [typename VT::ResultType tmp( ~rhs )], the
    evaluated copy of the operand: an independent vector with the elements
    of [rhs]. *)
Definition temporary (rhs : Operand) : Operand :=
  match rhs with
  | Dense d =>
      Dense {| vec_size := vec_size d;
               vec_get := vec_get d;
               vec_load := vec_load d;
               vec_vectorizable := vec_vectorizable d;
               vec_isAliased := false;
               vec_canAlias := false |}
  | Sparse s => Sparse s
  end.

(** [blaze::addAssign( *this, rhs )] ([VectorizedAddAssign], lines 962-966;
    every operand of the model has the element type of the vector). *)
Definition addAssign (fuel : nat) (rhs : Operand) (v : vector) : option vector :=
  match rhs with
  | Dense d =>
      if IsVectorizable && vec_vectorizable d && IT_addition
      then addAssign_vectorized fuel d v
      else addAssign_default fuel d v
  | Sparse s => Some (update_sparse elem_add s v)
  end.

(** [blaze::subAssign( *this, rhs )] ([VectorizedSubAssign], lines 974-978). *)
Definition subAssign (fuel : nat) (rhs : Operand) (v : vector) : option vector :=
  match rhs with
  | Dense d =>
      if IsVectorizable && vec_vectorizable d && IT_subtraction
      then subAssign_vectorized fuel d v
      else subAssign_default fuel d v
  | Sparse s => Some (update_sparse elem_sub s v)
  end.

(** The end of an operator: the vector after the call, and how the call
    ended. *)
Definition finish (v : vector) (r : option vector) : vector * outcome unit :=
  match r with
  | Some w => (w, Returns tt)
  | None => (v, OutOfFuel)
  end.

(** [operator+=( const Vector<VT,TF>& rhs )], lines 1543-1559. *)
Definition add_assign_op (fuel : nat) (rhs : Operand) (v : vector)
  : vector * outcome unit :=
  if negb (operand_size rhs =? DynamicVector.size_ v)
  then (v, Throws "Vector sizes do not match")
  else if operand_canAlias rhs
  then finish v (addAssign fuel (temporary rhs) v)
  else finish v (addAssign fuel rhs v).

(** [operator-=( const Vector<VT,TF>& rhs )], lines 1577-1593. *)
Definition sub_assign_op (fuel : nat) (rhs : Operand) (v : vector)
  : vector * outcome unit :=
  if negb (operand_size rhs =? DynamicVector.size_ v)
  then (v, Throws "Vector sizes do not match")
  else if operand_canAlias rhs
  then finish v (subAssign fuel (temporary rhs) v)
  else finish v (subAssign fuel rhs v).

End Def.
End DynamicVectorExpr.

(** *** The underlying dense matrix *)

(** Modelled from the spec: the row-major dense matrix type [MT] that a view
    borrows (DynamicMatrix and the like), which is outside the excerpt. Per
    sections 3 and 6 of the specification it exposes its row and column
    counts, [operator()(i,j)], the spacing between two rows, and width-aware
    [load]/[store]/[stream]; every row is padded to a multiple of the vector
    width. Element [(i,j)] lives at [v_[i*nn_+j]]. *)
Module DenseMatrix.
Section Def.
Context {T : Type} `{ET : ElementTraits T}.

Record t : Type := mk {
  m_ : Z;         (* rows *)
  n_ : Z;         (* columns *)
  nn_ : Z;        (* spacing: allocated elements per row *)
  v_ : array T
}.

Definition rows (M : t) : Z := m_ M.
Definition columns (M : t) : Z := n_ M.
Definition spacing (M : t) : Z := nn_ M.

Definition get (M : t) (i j : Z) : T := v_ M (i * nn_ M + j).

Definition set (M : t) (i j : Z) (x : T) : t :=
  mk (m_ M) (n_ M) (nn_ M) (upd (v_ M) (i * nn_ M + j) x).

Definition loadu (M : t) (i j : Z) : IntrinsicType T :=
  fun k => v_ M (i * nn_ M + j + k).
Definition load (M : t) (i j : Z) : IntrinsicType T := loadu M i j.

Definition storeu (M : t) (i j : Z) (value : IntrinsicType T) : t :=
  mk (m_ M) (n_ M) (nn_ M)
     (for_range 0 IT_size (fun k a => upd a (i * nn_ M + j + k) (value k)) (v_ M)).
Definition store (M : t) (i j : Z) (value : IntrinsicType T) : t := storeu M i j value.
Definition stream (M : t) (i j : Z) (value : IntrinsicType T) : t := storeu M i j value.

(** The dimensions are [size_t] values and the rows are padded. *)
Definition wf (M : t) : Prop :=
  SizeT.in_range (m_ M) /\ 0 <= n_ M <= nn_ M /\ SizeT.in_range (nn_ M) /\
  nn_ M mod IT_size = 0.

(** The matrix as a right-hand side; [self] is its address, if it has one
    that a view could borrow. *)
Definition as_source (self : option addr) (M : t) : DenseSource T :=
  {| src_rows := rows M;
     src_columns := columns M;
     src_get := get M;
     src_load := load M;
     src_vectorizable := IsVectorizable;
     src_isAliased := fun alias =>
       match self with Some a => Nat.eqb a alias | None => false end |}.

(** Modelled from the spec: the evaluated temporary [const ResultType
    tmp( rhs )] of a dense operand, built by a constructor outside the
    excerpt: an independent padded matrix holding the elements of [rhs],
    with [Type()] in the padding. *)
Definition temporary (rhs : DenseSource T) : t :=
  let n := src_columns rhs in
  let nn := n + (IT_size - n mod IT_size) mod IT_size in
  mk (src_rows rhs) n nn
     (fun idx => if idx mod nn <? n then src_get rhs (idx / nn) (idx mod nn)
                 else Type_default).

End Def.
Arguments t T : clear implicits.
End DenseMatrix.

Definition heap (T : Type) : Type := addr -> DenseMatrix.t T.

Definition heap_upd {T : Type} (h : heap T) (a : addr) (M : DenseMatrix.t T) : heap T :=
  fun b => if Nat.eqb b a then M else h b.

(** *** DenseSubmatrix, row-major (blaze/math/views/DenseSubmatrix.h,
        lines 294-2250) *)

Module DenseSubmatrix.
Section Def.
Context {T : Type} `{ET : ElementTraits T}.
(** [blaze::cacheSize], a constant of the system configuration. *)
Variable cacheSize : Z.

Record t : Type := mk {
  matrix_ : addr;     (* Operand matrix_ *)
  row_ : Z;
  column_ : Z;
  m_ : Z;
  n_ : Z;
  rest_ : Z;
  final_ : Z;
  aligned_ : bool
}.

(** [DenseSubmatrix( MT& matrix, size_t row, size_t column, size_t m,
    size_t n )], lines 854-867. *)
Definition ctor (h : heap T) (matrix : addr) (row column m n : Z) : outcome t :=
  let rest := SizeT.rem n IT_size in
  let final := n -! rest in
  let aligned :=
    (SizeT.rem column IT_size =? 0) &&
    ((column +! n =? DenseMatrix.columns (h matrix)) || (SizeT.rem n IT_size =? 0)) in
  if (DenseMatrix.rows (h matrix) <? row +! m) ||
     (DenseMatrix.columns (h matrix) <? column +! n)
  then Throws "Invalid submatrix specification"
  else Returns (mk matrix row column m n rest final aligned).

(** [submatrix( DenseMatrix<MT,SO>& dm, row, column, m, n )], lines 4370-4376. *)
Definition submatrix (h : heap T) (dm : addr) (row column m n : Z) : outcome t :=
  ctor h dm row column m n.

(** [submatrix( const DenseSubmatrix<MT,SO>& dm, row, column, m, n )],
    lines 4443-4449. *)
Definition submatrix_of_view (h : heap T) (dm : t) (row column m n : Z) : outcome t :=
  ctor h (matrix_ dm) (row_ dm +! row) (column_ dm +! column) m n.

Definition rows (sm : t) : Z := m_ sm.
Definition columns (sm : t) : Z := n_ sm.
Definition capacity (sm : t) : Z := rows sm *! columns sm.

(** [operator()( size_t i, size_t j )], lines 888-915. *)
Definition get (h : heap T) (sm : t) (i j : Z) : T :=
  DenseMatrix.get (h (matrix_ sm)) (row_ sm +! i) (column_ sm +! j).

(** [canAlias( const Other* alias )] and [isAliased], lines 1569-1592. *)
Definition canAlias (sm : t) (alias : addr) : bool := Nat.eqb (matrix_ sm) alias.
Definition isAliased (sm : t) (alias : addr) : bool := Nat.eqb (matrix_ sm) alias.

(** [reset()], lines 1485-1495, on the underlying matrix. *)
Definition reset (sm : t) (M : DenseMatrix.t T) : DenseMatrix.t T :=
  let iend := row_ sm +! m_ sm in
  let jend := column_ sm +! n_ sm in
  for_range (row_ sm) iend (fun i M =>
    for_range (column_ sm) jend (fun j M =>
      DenseMatrix.set M i j Type_default) M) M.

(** [nonZeros()], lines 1433-1445. *)
Definition nonZeros (sm : t) (M : DenseMatrix.t T) : Z :=
  let iend := row_ sm +! m_ sm in
  let jend := column_ sm +! n_ sm in
  for_range (row_ sm) iend (fun i nonzeros =>
    for_range (column_ sm) jend (fun j nonzeros =>
      if negb (isDefault (DenseMatrix.get M i j)) then nonzeros +! 1 else nonzeros)
      nonzeros) 0.

(** [loadu( size_t i, size_t j )], lines 1641-1658; [junk] is the
    uninitialised [IntrinsicType value]. *)
Definition loadu (junk : IntrinsicType T) (sm : t) (M : DenseMatrix.t T)
           (i j : Z) : IntrinsicType T :=
  if aligned_ sm || negb (j =? final_ sm) then
    DenseMatrix.loadu M (row_ sm +! i) (column_ sm +! j)
  else
    for_range 0 (rest_ sm) (fun k value =>
      upd value k (DenseMatrix.get M (row_ sm +! i) (column_ sm +! j +! k))) junk.

Definition load (junk : IntrinsicType T) (sm : t) (M : DenseMatrix.t T)
           (i j : Z) : IntrinsicType T := loadu junk sm M i j.

(** [storeu( size_t i, size_t j, const IntrinsicType& value )], lines 1705-1722. *)
Definition storeu (sm : t) (M : DenseMatrix.t T) (i j : Z)
           (value : IntrinsicType T) : DenseMatrix.t T :=
  if aligned_ sm || negb (j =? final_ sm) then
    DenseMatrix.storeu M (row_ sm +! i) (column_ sm +! j) value
  else
    for_range 0 (rest_ sm) (fun k M =>
      DenseMatrix.set M (row_ sm +! i) (column_ sm +! j +! k) (value k)) M.

(** The view as a right-hand side, at the moment its matrix holds [M]. *)
Definition as_source (junk : IntrinsicType T) (sm : t) (M : DenseMatrix.t T)
  : DenseSource T :=
  {| src_rows := rows sm;
     src_columns := columns sm;
     src_get := fun i j => DenseMatrix.get M (row_ sm +! i) (column_ sm +! j);
     src_load := load junk sm M;
     src_vectorizable := IsVectorizable;
     src_isAliased := isAliased sm |}.

(** **** Assignment kernels *)

(** The three default kernels for a dense operand of the same storage order
    share one body and differ in the element operator only:
    [assign], lines 1766-1784 ([=]); [addAssign], lines 1939-1957 ([+=]);
    [subAssign], lines 2103-2121 ([-=]). [op old x] is the new element.
    [rhs M] is the operand as it reads when the matrix of the view holds
    [M]: every [(~rhs)(i,j)] is read from the operand as it is at that
    moment of the loop, after the writes that precede it. *)
Definition update_default_live (op : T -> T -> T) (fuel : nat) (sm : t)
           (rhs : DenseMatrix.t T -> DenseSource T) (M : DenseMatrix.t T)
  : option (DenseMatrix.t T) :=
  let write M i j x :=
    DenseMatrix.set M i j (op (DenseMatrix.get M i j) x) in
  let jend := SizeT.and (n_ sm) (SizeT.neg 2) in
  for_step fuel 0 (m_ sm) 1 (fun i M =>
    match
      for_step fuel 0 jend 2 (fun j M =>
        let M := write M (row_ sm +! i) (column_ sm +! j) (src_get (rhs M) i j) in
        Some (write M (row_ sm +! i) (column_ sm +! j +! 1)
                    (src_get (rhs M) i (j +! 1)))) M
    with
    | Some M =>
        Some (if jend <? n_ sm
              then write M (row_ sm +! i) (column_ sm +! jend) (src_get (rhs M) i jend)
              else M)
    | None => None
    end) M.

(** The kernel on an operand that none of its writes reaches. *)
Definition update_default (op : T -> T -> T) (fuel : nat) (sm : t)
           (rhs : DenseSource T) (M : DenseMatrix.t T) : option (DenseMatrix.t T) :=
  update_default_live op fuel sm (fun _ => rhs) M.

Definition assign_default := update_default (fun _ x => x).
Definition addAssign_default := update_default elem_add.
Definition subAssign_default := update_default elem_sub.

(** [assign( const DenseMatrix<MT2,SO>& rhs )], intrinsic, lines 1802-1833;
    every [rhs.load(i,j)] reads the operand as it is at that moment. *)
Definition assign_vectorized_live (fuel : nat) (sm : t)
           (rhs : DenseMatrix.t T -> DenseSource T) (M : DenseMatrix.t T)
  : option (DenseMatrix.t T) :=
  if aligned_ sm &&
     (SizeT.div cacheSize (sizeof_Type *! 3) <? m_ sm *! n_ sm) &&
     negb (src_isAliased (rhs M) (matrix_ sm))
  then
    for_step fuel 0 (m_ sm) 1 (fun i M =>
      for_step fuel 0 (n_ sm) IT_size (fun j M =>
        Some (DenseMatrix.stream M (row_ sm +! i) (column_ sm +! j)
                (src_load (rhs M) i j)))
        M) M
  else
    let jend := SizeT.and (n_ sm) (SizeT.neg (IT_size * 4)) in
    for_step fuel 0 (m_ sm) 1 (fun i M =>
      match
        for_step fuel 0 jend (IT_size *! 4) (fun j M =>
          let M := DenseMatrix.storeu M (row_ sm +! i) (column_ sm +! j)
                     (src_load (rhs M) i j) in
          let M := DenseMatrix.storeu M (row_ sm +! i) (column_ sm +! j +! IT_size)
                     (src_load (rhs M) i (j +! IT_size)) in
          let M := DenseMatrix.storeu M (row_ sm +! i) (column_ sm +! j +! IT_size *! 2)
                     (src_load (rhs M) i (j +! IT_size *! 2)) in
          Some (DenseMatrix.storeu M (row_ sm +! i) (column_ sm +! j +! IT_size *! 3)
                     (src_load (rhs M) i (j +! IT_size *! 3)))) M
      with
      | Some M =>
          for_step fuel jend (n_ sm) IT_size (fun j M =>
            Some (storeu sm M i j (src_load (rhs M) i j))) M
      | None => None
      end) M.

(** The kernel on an operand that none of its writes reaches. *)
Definition assign_vectorized (fuel : nat) (sm : t) (rhs : DenseSource T)
           (M : DenseMatrix.t T) : option (DenseMatrix.t T) :=
  assign_vectorized_live fuel sm (fun _ => rhs) M.

(** Lane-wise [+] and [-] of intrinsic vectors. *)
Definition lanewise (op : T -> T -> T) (a b : IntrinsicType T) : IntrinsicType T :=
  fun k => op (a k) (b k).

(** The intrinsic [addAssign], lines 1975-1997, and [subAssign], lines
    2139-2161; every [rhs.load(i,j)] reads the operand as it is at that
    moment. *)
Definition update_vectorized_live (op : T -> T -> T) (junk : IntrinsicType T)
           (fuel : nat) (sm : t) (rhs : DenseMatrix.t T -> DenseSource T)
           (M : DenseMatrix.t T) : option (DenseMatrix.t T) :=
  let jend := SizeT.and (n_ sm) (SizeT.neg (IT_size * 4)) in
  for_step fuel 0 (m_ sm) 1 (fun i M =>
    match
      for_step fuel 0 jend (IT_size *! 4) (fun j M =>
        let M := DenseMatrix.storeu M (row_ sm +! i) (column_ sm +! j)
                   (lanewise op (load junk sm M i j) (src_load (rhs M) i j)) in
        let M := DenseMatrix.storeu M (row_ sm +! i) (column_ sm +! j +! IT_size)
                   (lanewise op (load junk sm M i (j +! IT_size))
                                (src_load (rhs M) i (j +! IT_size))) in
        let M := DenseMatrix.storeu M (row_ sm +! i) (column_ sm +! j +! IT_size *! 2)
                   (lanewise op (load junk sm M i (j +! IT_size *! 2))
                                (src_load (rhs M) i (j +! IT_size *! 2))) in
        Some (DenseMatrix.storeu M (row_ sm +! i) (column_ sm +! j +! IT_size *! 3)
                   (lanewise op (load junk sm M i (j +! IT_size *! 3))
                                (src_load (rhs M) i (j +! IT_size *! 3))))) M
    with
    | Some M =>
        for_step fuel jend (n_ sm) IT_size (fun j M =>
          Some (storeu sm M i j
                  (lanewise op (load junk sm M i j) (src_load (rhs M) i j)))) M
    | None => None
    end) M.

(** The kernel on an operand that none of its writes reaches. *)
Definition update_vectorized (op : T -> T -> T) (junk : IntrinsicType T)
           (fuel : nat) (sm : t) (rhs : DenseSource T) (M : DenseMatrix.t T)
  : option (DenseMatrix.t T) :=
  update_vectorized_live op junk fuel sm (fun _ => rhs) M.

Definition addAssign_vectorized := update_vectorized elem_add.
Definition subAssign_vectorized := update_vectorized elem_sub.

(** The blocked kernels for a dense operand of the opposite storage order:
    [assign], lines 1851-1869; [addAssign], lines 2015-2033; [subAssign],
    lines 2179-2197. *)
Definition update_opposite (op : T -> T -> T) (fuel : nat) (sm : t)
           (rhs : DenseSource T) (M : DenseMatrix.t T) : option (DenseMatrix.t T) :=
  let block := 16 in
  for_step fuel 0 (m_ sm) block (fun ii M =>
    let iend := if m_ sm <? ii +! block then m_ sm else ii +! block in
    for_step fuel 0 (n_ sm) block (fun jj M =>
      let jend := if n_ sm <? jj +! block then n_ sm else jj +! block in
      for_step fuel ii iend 1 (fun i M =>
        for_step fuel jj jend 1 (fun j M =>
          Some (DenseMatrix.set M (row_ sm +! i) (column_ sm +! j)
                  (op (DenseMatrix.get M (row_ sm +! i) (column_ sm +! j))
                      (src_get rhs i j)))) M) M) M) M.

(** The kernels for a sparse operand of the same storage order: [assign],
    lines 1887-1895; [addAssign], lines 2051-2059; [subAssign], lines
    2215-2223. An element is a pair of its [index()] and its [value()]. *)
Definition update_sparse (op : T -> T -> T) (fuel : nat) (sm : t)
           (rhs : SparseMatrix T) (M : DenseMatrix.t T) : option (DenseMatrix.t T) :=
  for_step fuel 0 (m_ sm) 1 (fun i M =>
    Some (fold_left (fun M element =>
            DenseMatrix.set M (row_ sm +! i) (column_ sm +! fst element)
              (op (DenseMatrix.get M (row_ sm +! i) (column_ sm +! fst element))
                  (snd element)))
          (sp_line rhs i) M)) M.

(** The kernels for a sparse operand of the opposite storage order:
    [assign], lines 1913-1921; [addAssign], lines 2077-2085; [subAssign],
    lines 2241-2249. *)
Definition update_sparse_opposite (op : T -> T -> T) (fuel : nat) (sm : t)
           (rhs : SparseMatrix T) (M : DenseMatrix.t T) : option (DenseMatrix.t T) :=
  for_step fuel 0 (n_ sm) 1 (fun j M =>
    Some (fold_left (fun M element =>
            DenseMatrix.set M (row_ sm +! fst element) (column_ sm +! j)
              (op (DenseMatrix.get M (row_ sm +! fst element) (column_ sm +! j))
                  (snd element)))
          (sp_line rhs j) M)) M.

(** What [blaze::assign( *this, rhs )] is passed by reference: a dense
    matrix or view of the heap, which the kernel reads where it lies, so
    that it shows what the kernel has written so far if it shares the matrix
    of the view ([live M] is the object as it reads when that matrix holds
    [M]); or an operand that no write of a kernel reaches. *)
Inductive Argument : Type :=
| InPlace (live : DenseMatrix.t T -> DenseSource T)
| Apart (op : Operand T).

(** The choice between the two kernels for a dense operand of the same
    storage order ([VectorizedAssign], lines 703-707; [VectorizedAddAssign],
    lines 714-719; [VectorizedSubAssign], lines 726-731; every operand of
    the model has the element type of the view, so [IsSame] holds). *)
Definition assign_dense (fuel : nat) (sm : t)
           (rhs : DenseMatrix.t T -> DenseSource T) (M : DenseMatrix.t T)
  : option (DenseMatrix.t T) :=
  if IsVectorizable && src_vectorizable (rhs M)
  then assign_vectorized_live fuel sm rhs M
  else update_default_live (fun _ x => x) fuel sm rhs M.

Definition addAssign_dense (junk : IntrinsicType T) (fuel : nat) (sm : t)
           (rhs : DenseMatrix.t T -> DenseSource T) (M : DenseMatrix.t T)
  : option (DenseMatrix.t T) :=
  if IsVectorizable && src_vectorizable (rhs M) && IT_addition
  then update_vectorized_live elem_add junk fuel sm rhs M
  else update_default_live elem_add fuel sm rhs M.

Definition subAssign_dense (junk : IntrinsicType T) (fuel : nat) (sm : t)
           (rhs : DenseMatrix.t T -> DenseSource T) (M : DenseMatrix.t T)
  : option (DenseMatrix.t T) :=
  if IsVectorizable && src_vectorizable (rhs M) && IT_subtraction
  then update_vectorized_live elem_sub junk fuel sm rhs M
  else update_default_live elem_sub fuel sm rhs M.

(** [blaze::assign( *this, rhs )]: the overload that the type of the
    operand selects. *)
Definition assign (fuel : nat) (sm : t) (rhs : Argument) (M : DenseMatrix.t T)
  : option (DenseMatrix.t T) :=
  match rhs with
  | InPlace live => assign_dense fuel sm live M
  | Apart (Dense src) => assign_dense fuel sm (fun _ => src) M
  | Apart (DenseOpposite src) => update_opposite (fun _ x => x) fuel sm src M
  | Apart (Sparse sp) => update_sparse (fun _ x => x) fuel sm sp M
  | Apart (SparseOpposite sp) => update_sparse_opposite (fun _ x => x) fuel sm sp M
  end.

(** [blaze::addAssign( *this, rhs )]. *)
Definition addAssign (junk : IntrinsicType T) (fuel : nat) (sm : t)
           (rhs : Argument) (M : DenseMatrix.t T) : option (DenseMatrix.t T) :=
  match rhs with
  | InPlace live => addAssign_dense junk fuel sm live M
  | Apart (Dense src) => addAssign_dense junk fuel sm (fun _ => src) M
  | Apart (DenseOpposite src) => update_opposite elem_add fuel sm src M
  | Apart (Sparse sp) => update_sparse elem_add fuel sm sp M
  | Apart (SparseOpposite sp) => update_sparse_opposite elem_add fuel sm sp M
  end.

(** [blaze::subAssign( *this, rhs )]. *)
Definition subAssign (junk : IntrinsicType T) (fuel : nat) (sm : t)
           (rhs : Argument) (M : DenseMatrix.t T) : option (DenseMatrix.t T) :=
  match rhs with
  | InPlace live => subAssign_dense junk fuel sm live M
  | Apart (Dense src) => subAssign_dense junk fuel sm (fun _ => src) M
  | Apart (DenseOpposite src) => update_opposite elem_sub fuel sm src M
  | Apart (Sparse sp) => update_sparse elem_sub fuel sm sp M
  | Apart (SparseOpposite sp) => update_sparse_opposite elem_sub fuel sm sp M
  end.

(** **** Assignment operators *)

(** The right-hand side of an assignment operator: a dense matrix object of
    the view's matrix type, another row-major view, or any other matrix,
    which shares no storage with a matrix that a view borrows. *)
Inductive Rhs : Type :=
| OfMatrix (a : addr)
| OfSubmatrix (v : t)
| OfOperand (op : Operand T).

Definition rhs_rows (h : heap T) (rhs : Rhs) : Z :=
  match rhs with
  | OfMatrix a => DenseMatrix.rows (h a)
  | OfSubmatrix v => rows v
  | OfOperand op => operand_rows op
  end.

Definition rhs_columns (h : heap T) (rhs : Rhs) : Z :=
  match rhs with
  | OfMatrix a => DenseMatrix.columns (h a)
  | OfSubmatrix v => columns v
  | OfOperand op => operand_columns op
  end.

Definition rhs_IsSparseMatrix (rhs : Rhs) : bool :=
  match rhs with
  | OfMatrix _ | OfSubmatrix _ => false
  | OfOperand op => operand_IsSparseMatrix op
  end.

(** [(~rhs).canAlias( alias )]; for a matrix object, modelled from the spec
    (section 4.2): an identity check against its own address. *)
Definition rhs_canAlias (rhs : Rhs) (alias : addr) : bool :=
  match rhs with
  | OfMatrix a => Nat.eqb a alias
  | OfSubmatrix v => canAlias v alias
  | OfOperand _ => false
  end.

(** [~rhs] as a kernel reads it that writes the matrix at [alias]: a matrix
    object and a view are read in the heap in which that matrix holds what
    the kernel has written so far. *)
Definition rhs_operand (junk : IntrinsicType T) (h : heap T) (alias : addr) (rhs : Rhs)
  : Argument :=
  match rhs with
  | OfMatrix a =>
      InPlace (fun M => DenseMatrix.as_source (Some a) (heap_upd h alias M a))
  | OfSubmatrix v =>
      InPlace (fun M => as_source junk v (heap_upd h alias M (matrix_ v)))
  | OfOperand op => Apart op
  end.

(** [const typename MT2::ResultType tmp( ~rhs )]: a copy of the operand as
    it is in the heap [h], in storage of its own. *)
Definition rhs_temporary (junk : IntrinsicType T) (h : heap T) (rhs : Rhs) : Argument :=
  match rhs with
  | OfMatrix a => Apart (Dense (DenseMatrix.as_source None (h a)))
  | OfSubmatrix v =>
      Apart (Dense (DenseMatrix.as_source None
                      (DenseMatrix.temporary (as_source junk v (h (matrix_ v))))))
  | OfOperand op => Apart op
  end.

(** The end of an operator: the kernel's matrix is the new content of the
    borrowed matrix. *)
Definition finish (h : heap T) (a : addr) (r : option (DenseMatrix.t T))
  : heap T * outcome unit :=
  match r with
  | Some M => (heap_upd h a M, Returns tt)
  | None => (h, OutOfFuel)
  end.

(** [operator=( const DenseSubmatrix& rhs )], lines 1124-1148. The test
    [this == &rhs] is subsumed by the comparison of the three members; the
    matrix type of a dense view is dense, so [IsSparseMatrix<MT>::value] is
    false and [reset()] is not called. *)
Definition copy_assign (junk : IntrinsicType T) (fuel : nat) (this rhs : t)
           (h : heap T) : heap T * outcome unit :=
  if Nat.eqb (matrix_ this) (matrix_ rhs) &&
     (row_ this =? row_ rhs) && (column_ this =? column_ rhs)
  then (h, Returns tt)
  else if negb (rows this =? rows rhs) || negb (columns this =? columns rhs)
  then (h, Throws "Submatrix sizes do not match")
  else if canAlias rhs (matrix_ this) then
    let tmp := rhs_temporary junk h (OfSubmatrix rhs) in
    finish h (matrix_ this) (assign fuel this tmp (h (matrix_ this)))
  else
    finish h (matrix_ this)
           (assign fuel this (rhs_operand junk h (matrix_ this) (OfSubmatrix rhs))
                   (h (matrix_ this))).

(** [operator=( const Matrix<MT2,SO2>& rhs )], lines 1166-1187. *)
Definition assign_op (junk : IntrinsicType T) (fuel : nat) (this : t) (rhs : Rhs)
           (h : heap T) : heap T * outcome unit :=
  if negb (rows this =? rhs_rows h rhs) || negb (columns this =? rhs_columns h rhs)
  then (h, Throws "Matrix sizes do not match")
  else
    let h := if rhs_IsSparseMatrix rhs
             then heap_upd h (matrix_ this) (reset this (h (matrix_ this)))
             else h in
    if rhs_canAlias rhs (matrix_ this) then
      let tmp := rhs_temporary junk h rhs in
      finish h (matrix_ this) (assign fuel this tmp (h (matrix_ this)))
    else
      finish h (matrix_ this)
             (assign fuel this (rhs_operand junk h (matrix_ this) rhs) (h (matrix_ this))).

(** [operator+=( const Matrix<MT2,SO2>& rhs )], lines 1205-1224. *)
Definition add_assign_op (junk : IntrinsicType T) (fuel : nat) (this : t) (rhs : Rhs)
           (h : heap T) : heap T * outcome unit :=
  if negb (rows this =? rhs_rows h rhs) || negb (columns this =? rhs_columns h rhs)
  then (h, Throws "Matrix sizes do not match")
  else if rhs_canAlias rhs (matrix_ this) then
    let tmp := rhs_temporary junk h rhs in
    finish h (matrix_ this) (addAssign junk fuel this tmp (h (matrix_ this)))
  else
    finish h (matrix_ this)
           (addAssign junk fuel this (rhs_operand junk h (matrix_ this) rhs)
                      (h (matrix_ this))).

(** [operator-=( const Matrix<MT2,SO2>& rhs )], lines 1242-1260. *)
Definition sub_assign_op (junk : IntrinsicType T) (fuel : nat) (this : t) (rhs : Rhs)
           (h : heap T) : heap T * outcome unit :=
  if negb (rows this =? rhs_rows h rhs) || negb (columns this =? rhs_columns h rhs)
  then (h, Throws "Matrix sizes do not match")
  else if rhs_canAlias rhs (matrix_ this) then
    let tmp := rhs_temporary junk h rhs in
    finish h (matrix_ this) (subAssign junk fuel this tmp (h (matrix_ this)))
  else
    finish h (matrix_ this)
           (subAssign junk fuel this (rhs_operand junk h (matrix_ this) rhs)
                      (h (matrix_ this))).

(** **** Further member and free functions *)

(** A write through the reference that [operator()( size_t i, size_t j )]
    returns, lines 888-895; the user assertions [i < rows()] and
    [j < columns()] are the precondition of the call. *)
Definition set (h : heap T) (sm : t) (i j : Z) (x : T) : heap T :=
  heap_upd h (matrix_ sm)
    (DenseMatrix.set (h (matrix_ sm)) (row_ sm +! i) (column_ sm +! j) x).

(** [operator=( const ElementType& rhs )], lines 1097-1107. *)
Definition assign_scalar (sm : t) (rhs : T) (M : DenseMatrix.t T) : DenseMatrix.t T :=
  let iend := row_ sm +! m_ sm in
  let jend := column_ sm +! n_ sm in
  for_range (row_ sm) iend (fun i M =>
    for_range (column_ sm) jend (fun j M =>
      DenseMatrix.set M i j rhs) M) M.

(** [spacing()], lines 1384-1387. *)
Definition spacing (sm : t) (M : DenseMatrix.t T) : Z := DenseMatrix.spacing M.

(** [capacity( size_t i )], lines 1418-1422. *)
Definition capacity_row (sm : t) (i : Z) : Z := columns sm.

(** [nonZeros( size_t i )], lines 1462-1474. *)
Definition nonZeros_row (sm : t) (M : DenseMatrix.t T) (i : Z) : Z :=
  let jend := column_ sm +! n_ sm in
  for_range (column_ sm) jend (fun j nonzeros =>
    if negb (isDefault (DenseMatrix.get M (row_ sm +! i) j))
    then nonzeros +! 1 else nonzeros) 0.

(** [reset( size_t i )], lines 1512-1521. *)
Definition reset_row (sm : t) (i : Z) (M : DenseMatrix.t T) : DenseMatrix.t T :=
  let jend := column_ sm +! n_ sm in
  for_range (column_ sm) jend (fun j M =>
    DenseMatrix.set M (row_ sm +! i) j Type_default) M.

(** [scale( Other scalar )], lines 1534-1544; [times x] is the value of [x]
    after [x *= scalar]. *)
Definition scale (times : T -> T) (sm : t) (M : DenseMatrix.t T) : DenseMatrix.t T :=
  let iend := row_ sm +! m_ sm in
  let jend := column_ sm +! n_ sm in
  for_range (row_ sm) iend (fun i M =>
    for_range (column_ sm) jend (fun j M =>
      DenseMatrix.set M i j (times (DenseMatrix.get M i j))) M) M.

(** [store( i, j, value )], lines 1680-1683, and [stream( i, j, value )],
    lines 1745-1748. *)
Definition store (sm : t) (M : DenseMatrix.t T) (i j : Z)
           (value : IntrinsicType T) : DenseMatrix.t T := storeu sm M i j value.
Definition stream (sm : t) (M : DenseMatrix.t T) (i j : Z)
           (value : IntrinsicType T) : DenseMatrix.t T := storeu sm M i j value.

(** [clear( DenseSubmatrix& dm )], lines 4285-4288. *)
Definition clear (sm : t) (M : DenseMatrix.t T) : DenseMatrix.t T := reset sm M.

(** [isDefault( const DenseSubmatrix& dm )] for a row-major view, lines
    4312-4330: the loops return [false] at the first element that is not in
    default state. *)
Definition isDefault_view (h : heap T) (sm : t) : bool :=
  forallb (fun i =>
    forallb (fun j => isDefault (get h sm (Z.of_nat i) (Z.of_nat j)))
            (seq 0 (Z.to_nat (columns sm))))
    (seq 0 (Z.to_nat (rows sm))).

End Def.
Arguments t : clear implicits.
Arguments Rhs : clear implicits.
End DenseSubmatrix.

(** *** What the properties of the view are stated with *)

Module ViewSpec.
Section Def.
Context {T : Type} `{ET : ElementTraits T}.

(** What a dense operand guarantees: lane [k] of [load(i,j)] is element
    [(i,j+k)] as long as that element exists. *)
Definition source_ok (rhs : DenseSource T) : Prop :=
  forall i j k, 0 <= i < src_rows rhs -> 0 <= j -> 0 <= k < IT_size ->
                j + k < src_columns rhs ->
                src_load rhs i j k = src_get rhs i (j + k).

(** The view lies inside the matrix it borrows, and its derived members are
    the ones its constructor computes. *)
Definition valid (M : DenseMatrix.t T) (sm : DenseSubmatrix.t) : Prop :=
  0 <= DenseSubmatrix.row_ sm /\ 0 <= DenseSubmatrix.column_ sm /\
  0 <= DenseSubmatrix.m_ sm /\ 0 <= DenseSubmatrix.n_ sm /\
  DenseSubmatrix.row_ sm + DenseSubmatrix.m_ sm <= DenseMatrix.rows M /\
  DenseSubmatrix.column_ sm + DenseSubmatrix.n_ sm <= DenseMatrix.columns M /\
  DenseSubmatrix.rest_ sm = DenseSubmatrix.n_ sm mod IT_size /\
  DenseSubmatrix.final_ sm = DenseSubmatrix.n_ sm - DenseSubmatrix.rest_ sm /\
  DenseSubmatrix.aligned_ sm =
    (DenseSubmatrix.column_ sm mod IT_size =? 0) &&
    ((DenseSubmatrix.column_ sm + DenseSubmatrix.n_ sm =? DenseMatrix.columns M) ||
     (DenseSubmatrix.n_ sm mod IT_size =? 0)).

(** Element [(r,c)] of the matrix belongs to the view. *)
Definition covers (sm : DenseSubmatrix.t) (r c : Z) : Prop :=
  DenseSubmatrix.row_ sm <= r < DenseSubmatrix.row_ sm + DenseSubmatrix.m_ sm /\
  DenseSubmatrix.column_ sm <= c < DenseSubmatrix.column_ sm + DenseSubmatrix.n_ sm.

(** [M'] is [M] with every element [(r,c)] of the view replaced by
    [f r c]; the dimensions and every other element of the matrix are
    those of [M]. *)
Definition updated (sm : DenseSubmatrix.t) (f : Z -> Z -> T)
           (M M' : DenseMatrix.t T) : Prop :=
  DenseMatrix.m_ M' = DenseMatrix.m_ M /\
  DenseMatrix.n_ M' = DenseMatrix.n_ M /\
  DenseMatrix.nn_ M' = DenseMatrix.nn_ M /\
  forall r c, 0 <= c < DenseMatrix.columns M ->
    (covers sm r c -> DenseMatrix.get M' r c = f r c) /\
    (~ covers sm r c -> DenseMatrix.get M' r c = DenseMatrix.get M r c).

(** The element of the operand that lands on [(r,c)]. *)
Definition image (sm : DenseSubmatrix.t) (g : Z -> Z -> T) (r c : Z) : T :=
  g (r - DenseSubmatrix.row_ sm) (c - DenseSubmatrix.column_ sm).

(** The loop state of a kernel that fills the view row by row: rows
    below [i] are done, and so are the first [x] elements of row [i]. *)
Definition done (sm : DenseSubmatrix.t) (i x r c : Z) : Prop :=
  (DenseSubmatrix.row_ sm <= r < DenseSubmatrix.row_ sm + i /\
   DenseSubmatrix.column_ sm <= c < DenseSubmatrix.column_ sm + DenseSubmatrix.n_ sm) \/
  (r = DenseSubmatrix.row_ sm + i /\
   DenseSubmatrix.column_ sm <= c <
     DenseSubmatrix.column_ sm + Z.min x (DenseSubmatrix.n_ sm)).

Definition progress (sm : DenseSubmatrix.t) (f : Z -> Z -> T)
           (M : DenseMatrix.t T) (i x : Z) (M' : DenseMatrix.t T) : Prop :=
  DenseMatrix.m_ M' = DenseMatrix.m_ M /\
  DenseMatrix.n_ M' = DenseMatrix.n_ M /\
  DenseMatrix.nn_ M' = DenseMatrix.nn_ M /\
  forall r c, 0 <= c < DenseMatrix.columns M ->
    (done sm i x r c -> DenseMatrix.get M' r c = f r c) /\
    (~ done sm i x r c -> DenseMatrix.get M' r c = DenseMatrix.get M r c).

(** What an update kernel that combines with [op] leaves at [(r,c)]: the
    old element combined with the element of the operand that lands there. *)
Definition combined (op : T -> T -> T) (sm : DenseSubmatrix.t)
           (rhs : DenseSource T) (M : DenseMatrix.t T) (r c : Z) : T :=
  op (DenseMatrix.get M r c) (image sm (src_get rhs) r c).

End Def.
End ViewSpec.

(** *** A concrete element type

    [int] under SSE2: four elements per intrinsic vector. Its [+] and [-]
    are those of the integers, which are the results of the operators of
    [int] as long as they lie in its range; they do in every scenario of
    this development, and a theorem that is stated for every element type
    takes the operators as they are given. *)
#[export] Instance int_traits : ElementTraits Z := {|
  Type_default := 0;
  isDefault := fun x => x =? 0;
  IsNumeric := true;
  IsVectorizable := true;
  IT_size := 4;
  IT_addition := true;
  IT_subtraction := true;
  sizeof_Type := 4;
  elem_add := Z.add;
  elem_sub := Z.sub
|}.

(** The largest [size_t]. *)
Definition SIZE_MAX : Z := 18446744073709551615.

(** *** Concrete matrices and views *)

(** The 10x10 row-major matrix of [int] with [A(i,j) = i*10+j]; its rows are
    padded to 12 elements. *)
Definition A10 : DenseMatrix.t Z :=
  DenseMatrix.mk 10 10 12
    (fun idx => if idx mod 12 <? 10 then (idx / 12) * 10 + idx mod 12 else 0).

(** A heap whose every address holds [A10]. *)
Definition heap_A10 : heap Z := fun _ => A10.

(** [blaze::cacheSize] of the default configuration: 3 MiB. *)
Definition cacheSize_default : Z := 3145728.

(** The contents of freshly allocated storage in the concrete scenarios. *)
Definition junk0 : IntrinsicType Z := fun _ => 0.

(** A 3x6 matrix of [int], rows padded to 8 elements. *)
Definition C36 : DenseMatrix.t Z :=
  DenseMatrix.mk 3 6 8 (fun idx => if idx mod 8 <? 6 then 100 + idx else 0).

(** The view of rows 1 to 3 and columns 4 to 9 of [A10]: it starts at a
    multiple of the vector width and ends at the right edge. *)
Definition view_edge : DenseSubmatrix.t := DenseSubmatrix.mk 0%nat 1 4 3 6 2 4 true.

(** Two views of [A10] with one origin and different shapes. *)
Definition view_2x2 : DenseSubmatrix.t := DenseSubmatrix.mk 0%nat 0 0 2 2 2 0 false.
Definition view_3x3 : DenseSubmatrix.t := DenseSubmatrix.mk 0%nat 0 0 3 3 3 0 false.

(** The views [submatrix(A,0,0,4,4)] and [submatrix(A,1,1,4,4)] of [A10]. *)
Definition view_dst : DenseSubmatrix.t := DenseSubmatrix.mk 0%nat 0 0 4 4 0 4 true.
Definition view_src : DenseSubmatrix.t := DenseSubmatrix.mk 0%nat 1 1 4 4 0 4 false.

(** A 4x4 sparse matrix of [int] with three explicit elements. *)
Definition S3 : SparseMatrix Z :=
  {| sp_rows := 4; sp_columns := 4;
     sp_line := fun i => if i =? 0 then [(1, 5)]
                         else if i =? 2 then [(0, 7); (3, 9)]
                         else [] |}.

(** The view [submatrix(A,2,3,4,4)] of [A10]. *)
Definition view_4x4 : DenseSubmatrix.t := DenseSubmatrix.mk 0%nat 2 3 4 4 0 4 false.

(** *** Reference semantics of the assignments *)

Module RefSpec.
Section Def.
Context {T : Type} `{ET : ElementTraits T}.

(** The reference of the specification for an assignment between two views
    of one matrix: copy the source into an independent temporary, then
    assign the temporary element by element. *)
Definition assign_via_temporary (dst src : DenseSubmatrix.t)
           (M : DenseMatrix.t T) : DenseMatrix.t T :=
  let tmp := fun i j =>
    DenseMatrix.get M (DenseSubmatrix.row_ src + i) (DenseSubmatrix.column_ src + j) in
  for_range 0 (DenseSubmatrix.m_ dst) (fun i M' =>
    for_range 0 (DenseSubmatrix.n_ dst) (fun j M' =>
      DenseMatrix.set M' (DenseSubmatrix.row_ dst + i) (DenseSubmatrix.column_ dst + j)
                      (tmp i j)) M') M.

(** An operator on the view [dst] of the matrix at [a] returned normally,
    touched no other matrix, kept the dimensions and left the elements of
    [expected]. *)
Definition completes_with (h : heap T) (a : addr) (expected : DenseMatrix.t T)
           (result : heap T * outcome unit) : Prop :=
  snd result = Returns tt /\
  (forall b, b <> a -> fst result b = h b) /\
  DenseMatrix.rows (fst result a) = DenseMatrix.rows (h a) /\
  DenseMatrix.columns (fst result a) = DenseMatrix.columns (h a) /\
  DenseMatrix.spacing (fst result a) = DenseMatrix.spacing (h a) /\
  forall r c, 0 <= r < DenseMatrix.rows (h a) -> 0 <= c < DenseMatrix.columns (h a) ->
              DenseMatrix.get (fst result a) r c = DenseMatrix.get expected r c.

End Def.
End RefSpec.

(** The shape of the operand differs from the shape of the view: the test
    [rows() != (~rhs).rows() || columns() != (~rhs).columns()]. *)
Definition shape_mismatch {T : Type} (this : DenseSubmatrix.t)
           (rhs : DenseSubmatrix.Rhs T) (h : heap T) : Prop :=
  DenseSubmatrix.rows this <> DenseSubmatrix.rhs_rows h rhs \/
  DenseSubmatrix.columns this <> DenseSubmatrix.rhs_columns h rhs.

Module SparseSpec.
Section Def.
Context {T : Type} `{ET : ElementTraits T}.

(** The explicit elements of a row-major sparse matrix, as triples of row,
    column and value. *)
Definition entries (sp : SparseMatrix T) : list (Z * Z * T) :=
  flat_map (fun i => map (fun e => (Z.of_nat i, fst e, snd e))
                         (sp_line sp (Z.of_nat i)))
           (seq 0 (Z.to_nat (sp_rows sp))).

Definition position (e : Z * Z * T) : Z * Z := fst e.

(** The last element of a line with the given index, if any: the one the
    kernel writes last. *)
Definition last_at (line : list (Z * T)) (j : Z) : option (Z * T) :=
  find (fun e => fst e =? j) (rev line).

(** What the sparse assignment kernel leaves at [(r,c)] of a matrix [M]. *)
Definition sparse_cell (sm : DenseSubmatrix.t) (sp : SparseMatrix T)
           (M : DenseMatrix.t T) (r c : Z) : T :=
  match last_at (sp_line sp (r - DenseSubmatrix.row_ sm)) (c - DenseSubmatrix.column_ sm) with
  | Some e => snd e
  | None => DenseMatrix.get M r c
  end.

(** Every index of the first [rows] lines is a column of the matrix. *)
Definition indices_ok (sp : SparseMatrix T) : Prop :=
  forall i e, 0 <= i < sp_rows sp -> In e (sp_line sp i) ->
              0 <= fst e < sp_columns sp.

End Def.
End SparseSpec.

(** *** Rewriting a region of a matrix *)

Module Rewritten.
Section Def.
Context {T : Type} `{ET : ElementTraits T}.

(** [M'] is [M] with every element [(r,c)] in [D] replaced by [f r c]; the
    dimensions and every other element are those of [M]. With
    [D := ViewSpec.covers sm] this is [ViewSpec.updated sm]. *)
Definition rewritten (D : Z -> Z -> Prop) (f : Z -> Z -> T)
           (M M' : DenseMatrix.t T) : Prop :=
  DenseMatrix.m_ M' = DenseMatrix.m_ M /\
  DenseMatrix.n_ M' = DenseMatrix.n_ M /\
  DenseMatrix.nn_ M' = DenseMatrix.nn_ M /\
  forall r c, 0 <= c < DenseMatrix.columns M ->
    (D r c -> DenseMatrix.get M' r c = f r c) /\
    (~ D r c -> DenseMatrix.get M' r c = DenseMatrix.get M r c).

(** The rows of the view below row [i] of the matrix. *)
Definition rows_below (sm : DenseSubmatrix.t) (i : Z) (r c : Z) : Prop :=
  DenseSubmatrix.row_ sm <= r < i /\
  DenseSubmatrix.column_ sm <= c < DenseSubmatrix.column_ sm + DenseSubmatrix.n_ sm.

(** The elements of the view in row [i] of the matrix, left of column [j]. *)
Definition row_left (sm : DenseSubmatrix.t) (i j : Z) (r c : Z) : Prop :=
  r = i /\ DenseSubmatrix.column_ sm <= c < j.

(** The lanes of [storeu( i, j, value )] that lie inside the view: all of
    them, unless the view is aligned and ends at the last column. *)
Definition stored (sm : DenseSubmatrix.t) (i j : Z) (r c : Z) : Prop :=
  r = DenseSubmatrix.row_ sm + i /\
  DenseSubmatrix.column_ sm + j <= c < DenseSubmatrix.column_ sm + j + IT_size /\
  c < DenseSubmatrix.column_ sm + DenseSubmatrix.n_ sm.

End Def.
End Rewritten.

(** *** The blocks of the kernels for the opposite storage order *)

Module Blocked.
(** The elements that the blocked kernel has passed when it stands at row
    [i], column [j] of the block with the rows [ii, iend) and the columns
    [jj, jend): the block rows above, the blocks to the left in this block
    row, the rows of this block above [i], and row [i] left of [j]. *)
Definition passed (sm : DenseSubmatrix.t) (ii iend jj jend i j : Z) (r c : Z) : Prop :=
  let r' := r - DenseSubmatrix.row_ sm in
  let c' := c - DenseSubmatrix.column_ sm in
  0 <= r' < DenseSubmatrix.m_ sm /\ 0 <= c' < DenseSubmatrix.n_ sm /\
  (r' < ii \/
   (r' < iend /\ c' < jj) \/
   (ii <= r' < i /\ jj <= c' < jend) \/
   (r' = i /\ jj <= c' < j)).
End Blocked.

(** *** Folding a sparse line into an element *)

Module SparseUpdate.
Section Def.
Context {T : Type}.

(** What an element with the index [j] holds after the explicit elements of
    a line were combined into it one after the other with [op]. *)
Definition folded (op : T -> T -> T) (line : list (Z * T)) (j : Z) (old : T) : T :=
  fold_left (fun acc e => if fst e =? j then op acc (snd e) else acc) line old.

(** Every index of the first [columns] lines of a sparse matrix of the
    opposite storage order is a row of the matrix. *)
Definition indices_ok_opposite (sp : SparseMatrix T) : Prop :=
  forall j e, 0 <= j < sp_columns sp -> In e (sp_line sp j) ->
              0 <= fst e < sp_rows sp.

End Def.
End SparseUpdate.

(** *** A sparse operand read by columns *)

(** [S3] read as a matrix of the opposite storage order: line [j] holds the
    explicit elements of column [j]. *)
Definition S3_opposite : SparseMatrix Z := S3.

(** *** A second matrix *)

(** A 4x4 matrix of [int] with [B(i,j) = 1000 + 4*i + j], and a heap that
    holds it at address 1 and [A10] everywhere else. *)
Definition B44 : DenseMatrix.t Z := DenseMatrix.mk 4 4 4 (fun idx => 1000 + idx).

Definition heap_A10_B44 : heap Z := fun a => if Nat.eqb a 1 then B44 else A10.

(** *** Specification of the vector kernels *)

Module VectorSpec.
Section Def.
Context {T : Type} `{ET : ElementTraits T}.

(** What a dense operand guarantees: lane [k] of [load(i)] is element
    [i+k] as long as that element exists. *)
Definition source_ok (rhs : DenseVector T) : Prop :=
  forall i k, 0 <= i -> 0 <= k < IT_size -> i + k < vec_size rhs ->
              vec_load rhs i k = vec_get rhs (i + k).

(** The block [a'] is [a] with the elements [0 .. i) combined with those of
    the operand; from [j] on it is [a]. *)
Definition combined_upto (op : T -> T -> T) (rhs : DenseVector T)
           (a : array T) (i j : Z) (a' : array T) : Prop :=
  (forall k, 0 <= k < i -> a' k = op (a k) (vec_get rhs k)) /\
  (forall k, k < 0 \/ j <= k -> a' k = a k).

(** What a vector built with checked sizes keeps besides the invariant:
    its size is a [size_t] whose aligned capacity fits, and its capacity is
    a multiple of the vector width. *)
Definition aligned (v : DynamicVector.t T) : Prop :=
  SizeT.in_range (DynamicVector.size_ v) /\ DynamicVector.fits (DynamicVector.size_ v) /\
  DynamicVector.capacity_ v mod IT_size = 0.

End Def.
End VectorSpec.

(** *** A vector that was resized *)

(** A vector of [int] built with size 5, written to and shrunk to size 3. *)
Definition v53 : DynamicVector.t Z :=
  DynamicVector.resize (fun _ => 9) 3 true
    (DynamicVector.set (DynamicVector.ctor_size (fun _ => 7) 5) 1 42).

(** *** Operands of the vector kernels *)

(** The vector [v53] as a right-hand side, and a vector of three elements
    to combine it into. *)
Definition v53_source : DenseVector Z :=
  {| vec_size := 3;
     vec_get := DynamicVector.get v53;
     vec_load := DynamicVectorExpr.load v53;
     vec_vectorizable := true;
     vec_isAliased := false;
     vec_canAlias := false |}.

Definition v3 : DynamicVector.t Z := DynamicVector.ctor_init (fun _ => 9) 3 10.

(** *** A sparse operand of a vector *)

(** A sparse vector of size 3 with two explicit elements. *)
Definition sv3 : SparseVector Z := {| spv_size := 3; spv_elements := [(2, 5); (0, 7)] |}.

(* ================================================================= *)
(** ** Part II: properties                                            *)
(* ================================================================= *)

(** *** size_t arithmetic *)

Lemma modulus_pow2 : SizeT.modulus = 2 ^ 64.
Proof. reflexivity. Qed.

Lemma wrap_small z : SizeT.in_range z -> SizeT.wrap z = z.
Proof. intros H. apply Z.mod_small. exact H. Qed.

Lemma add_small a b : 0 <= a -> 0 <= b -> a + b < SizeT.modulus -> a +! b = a + b.
Proof. intros. apply wrap_small. unfold SizeT.in_range. lia. Qed.

Lemma sub_small a b : 0 <= b <= a -> a < SizeT.modulus -> a -! b = a - b.
Proof. intros. apply wrap_small. unfold SizeT.in_range. lia. Qed.

Lemma wrap_range z : SizeT.in_range (SizeT.wrap z).
Proof. apply Z.mod_pos_bound. reflexivity. Qed.

(** *** Loops *)

Lemma for_range_empty {S : Type} lo hi (body : Z -> S -> S) s :
  hi <= lo -> for_range lo hi body s = s.
Proof.
  intros H. unfold for_range.
  replace (Z.to_nat (hi - lo)) with O by lia. reflexivity.
Qed.

Lemma for_range_snoc {S : Type} lo hi (body : Z -> S -> S) s :
  lo <= hi ->
  for_range lo (hi + 1) body s = body hi (for_range lo hi body s).
Proof.
  intros H. unfold for_range.
  replace (Z.to_nat (hi + 1 - lo)) with (Datatypes.S (Z.to_nat (hi - lo))) by lia.
  rewrite seq_S, fold_left_app. simpl.
  replace (lo + Z.of_nat (Z.to_nat (hi - lo))) with hi by lia.
  reflexivity.
Qed.

(** The invariant rule of a counting loop. *)
Lemma for_range_ind {S : Type} (P : Z -> S -> Prop) lo hi (body : Z -> S -> S) s :
  lo <= hi ->
  P lo s ->
  (forall i x, lo <= i < hi -> P i x -> P (i + 1) (body i x)) ->
  P hi (for_range lo hi body s).
Proof.
  intros Hle H0 Hstep.
  replace hi with (lo + Z.of_nat (Z.to_nat (hi - lo))) at 1 2 by lia.
  assert (Hn : (Z.of_nat (Z.to_nat (hi - lo)) <= hi - lo)) by lia.
  revert Hn. generalize (Z.to_nat (hi - lo)) as n.
  induction n as [|n IH]; intros Hn.
  - rewrite for_range_empty by lia. now rewrite Z.add_0_r.
  - replace (lo + Z.of_nat (Datatypes.S n)) with (lo + Z.of_nat n + 1) by lia.
    rewrite for_range_snoc by lia.
    apply Hstep; [lia|]. apply IH. lia.
Qed.

(** A loop that writes [g i] at index [i]. *)
Lemma for_range_upd {T : Type} lo hi (g : Z -> T) (a : array T) k :
  for_range lo hi (fun i b => upd b i (g i)) a k =
  if (lo <=? k) && (k <? hi) then g k else a k.
Proof.
  destruct (Z.le_gt_cases lo hi) as [Hle|Hgt].
  - apply (for_range_ind
             (fun i b => b k = if (lo <=? k) && (k <? i) then g k else a k)).
    + exact Hle.
    + destruct (lo <=? k) eqn:E1, (k <? lo) eqn:E2; simpl; try reflexivity; lia.
    + intros i x Hi Hx. unfold upd.
      destruct (k =? i) eqn:E.
      * apply Z.eqb_eq in E. subst k.
        replace (lo <=? i) with true by (symmetry; apply Z.leb_le; lia).
        replace (i <? i + 1) with true by (symmetry; apply Z.ltb_lt; lia).
        reflexivity.
      * rewrite Hx. apply Z.eqb_neq in E.
        destruct (lo <=? k); simpl; [|reflexivity].
        destruct (k <? i) eqn:E3, (k <? i + 1) eqn:E4; try reflexivity; lia.
  - rewrite for_range_empty by lia.
    destruct (lo <=? k) eqn:E1, (k <? hi) eqn:E2; simpl; try reflexivity; lia.
Qed.

(** *** DynamicVector *)

Section DynamicVectorFacts.
Context {T : Type} `{ET : ElementTraits T}.
Import DynamicVector.

Hypothesis width : 0 < IT_size < SizeT.modulus.

Lemma round_up_smallest n :
  smallest_multiple_geq IT_size n (n + (IT_size - n mod IT_size) mod IT_size).
Proof.
  destruct width as [Hw _].
  pose proof (Z.mod_pos_bound n IT_size Hw) as Hn.
  pose proof (Z.mod_pos_bound (IT_size - n mod IT_size) IT_size Hw) as Hr.
  assert (Hc : (n + (IT_size - n mod IT_size) mod IT_size) mod IT_size = 0).
  { rewrite Zplus_mod_idemp_r.
    replace (n + (IT_size - n mod IT_size)) with (n - n mod IT_size + 1 * IT_size) by lia.
    rewrite Z.mod_add by lia.
    rewrite Zminus_mod_idemp_r, Z.sub_diag. apply Z.mod_0_l. lia. }
  repeat split.
  - lia.
  - exact Hc.
  - intros c' Hle Hm.
    set (c := n + (IT_size - n mod IT_size) mod IT_size) in *.
    apply Z.mod_divide in Hc; [|lia]. apply Z.mod_divide in Hm; [|lia].
    destruct Hc as [q Hq]. destruct Hm as [q' Hq'].
    assert (Hlt : c - n < IT_size) by (unfold c; lia).
    destruct (Z.lt_ge_cases c' c) as [Hc'|Hc']; [exfalso|lia].
    assert (q' < q) by nia.
    assert (q' * IT_size + IT_size <= q * IT_size) by nia.
    lia.
Qed.

Lemma adjustCapacity_numeric n :
  IsNumeric = true -> SizeT.in_range n ->
  adjustCapacity n = SizeT.wrap (n + (IT_size - n mod IT_size) mod IT_size).
Proof.
  intros Hnum Hn. unfold adjustCapacity. rewrite Hnum.
  unfold SizeT.add, SizeT.rem. f_equal. f_equal. f_equal.
  pose proof (Z.mod_pos_bound n IT_size (proj1 width)).
  apply sub_small; lia.
Qed.

Lemma adjustCapacity_fits n :
  IsNumeric = true -> SizeT.in_range n -> fits n ->
  adjustCapacity n = n + (IT_size - n mod IT_size) mod IT_size.
Proof.
  intros Hnum Hn Hf. rewrite adjustCapacity_numeric by assumption.
  apply wrap_small. unfold fits in Hf. unfold SizeT.in_range in *.
  pose proof (Z.mod_pos_bound (IT_size - n mod IT_size) IT_size (proj1 width)).
  lia.
Qed.

Lemma adjustCapacity_geq n :
  IsNumeric = true -> SizeT.in_range n -> fits n -> n <= adjustCapacity n.
Proof.
  intros. rewrite adjustCapacity_fits by assumption.
  pose proof (Z.mod_pos_bound (IT_size - n mod IT_size) IT_size (proj1 width)).
  lia.
Qed.

Lemma fill_default_spec lo hi (a : array T) k :
  fill_default lo hi a k =
  if (lo <=? k) && (k <? hi) then Type_default else a k.
Proof. unfold fill_default. apply (for_range_upd lo hi (fun _ => Type_default)). Qed.

Lemma fill_default_inside lo hi (a : array T) k :
  lo <= k < hi -> fill_default lo hi a k = Type_default.
Proof.
  intros H. rewrite fill_default_spec.
  replace (lo <=? k) with true by (symmetry; apply Z.leb_le; lia).
  replace (k <? hi) with true by (symmetry; apply Z.ltb_lt; lia).
  reflexivity.
Qed.

Lemma fill_default_outside lo hi (a : array T) k :
  k < lo \/ hi <= k -> fill_default lo hi a k = a k.
Proof.
  intros H. rewrite fill_default_spec.
  destruct (lo <=? k) eqn:E1, (k <? hi) eqn:E2; simpl; try reflexivity; lia.
Qed.

Lemma std_copy_spec (src : array T) n (dst : array T) k :
  std_copy src n dst k = if (0 <=? k) && (k <? n) then src k else dst k.
Proof. unfold std_copy. apply for_range_upd. Qed.

(** Each constructor establishes the invariant. *)

Lemma ctor_default_invariant null : invariant (ctor_default null).
Proof. split; simpl; [lia|]. intros i Hi. simpl in Hi. lia. Qed.

Lemma ctor_size_invariant fresh n :
  IsNumeric = true -> SizeT.in_range n -> fits n ->
  invariant (ctor_size fresh n).
Proof.
  intros Hnum Hn Hf. split; simpl.
  - now apply adjustCapacity_geq.
  - intros i Hi. simpl in Hi |- *. rewrite Hnum. now apply fill_default_inside.
Qed.

Lemma ctor_init_invariant fresh n init :
  IsNumeric = true -> SizeT.in_range n -> fits n ->
  invariant (ctor_init fresh n init).
Proof.
  intros Hnum Hn Hf. split; simpl.
  - now apply adjustCapacity_geq.
  - intros i Hi. simpl in Hi |- *. rewrite Hnum. now apply fill_default_inside.
Qed.

(** Each operation preserves it. *)

Lemma resize_invariant fresh n preserve v :
  IsNumeric = true -> SizeT.in_range n -> (capacity_ v < n -> fits n) ->
  invariant v -> invariant (resize fresh n preserve v).
Proof.
  intros Hnum Hn Hf [Hcap Hpad]. unfold resize. rewrite Hnum.
  destruct (capacity_ v <? n) eqn:Egrow.
  - apply Z.ltb_lt in Egrow. specialize (Hf Egrow).
    pose proof (adjustCapacity_geq n Hnum Hn Hf) as Hge.
    split; simpl; [exact Hge|].
    intros i Hi. simpl in Hi |- *. apply fill_default_inside. lia.
  - apply Z.ltb_ge in Egrow. simpl.
    destruct (n <? size_ v) eqn:Eshrink.
    + apply Z.ltb_lt in Eshrink. split; simpl; [lia|].
      intros i Hi. simpl in Hi |- *.
      destruct (Z.lt_ge_cases i (size_ v)).
      * apply fill_default_inside. lia.
      * rewrite fill_default_outside by lia. apply Hpad. lia.
    + apply Z.ltb_ge in Eshrink. split; simpl; [lia|].
      intros i Hi. simpl in Hi |- *. apply Hpad. lia.
Qed.

Lemma reserve_invariant fresh n v :
  IsNumeric = true -> SizeT.in_range n -> (capacity_ v < n -> fits n) ->
  invariant v -> invariant (reserve fresh n v).
Proof.
  intros Hnum Hn Hf [Hcap Hpad]. unfold reserve. rewrite Hnum.
  destruct (capacity_ v <? n) eqn:Egrow; [|now split].
  apply Z.ltb_lt in Egrow. specialize (Hf Egrow).
  pose proof (adjustCapacity_geq n Hnum Hn Hf) as Hge.
  split; simpl; [lia|].
  intros i Hi. simpl in Hi |- *. apply fill_default_inside. lia.
Qed.

Lemma set_invariant v index x :
  0 <= index < size_ v -> invariant v -> invariant (set v index x).
Proof.
  intros Hi [Hcap Hpad]. split; simpl; [exact Hcap|].
  intros i Hi'. simpl in Hi' |- *. unfold upd.
  destruct (i =? index) eqn:E; [apply Z.eqb_eq in E; lia|]. now apply Hpad.
Qed.

Lemma reset_invariant v : invariant v -> invariant (reset v).
Proof.
  intros [Hcap Hpad]. split; simpl; [exact Hcap|].
  intros i Hi. simpl in Hi |- *. rewrite fill_default_outside by lia. now apply Hpad.
Qed.

End DynamicVectorFacts.

Lemma fits_zero {T : Type} `{ET : ElementTraits T} :
  0 < IT_size -> DynamicVector.fits 0.
Proof.
  intros Hw. unfold DynamicVector.fits.
  rewrite Z.mod_0_l, Z.sub_0_r, Z_mod_same_full by lia. reflexivity.
Qed.

(** C6 (amended): for a numeric element type, every vector built by a
    constructor and any sequence of resize (with or without preserve),
    reserve, extend, clear, reset, swap and element writes below the size
    has capacity >= size and a padding [size, capacity) of [Type()],
    provided each requested size has a width-aligned capacity that fits a
    [size_t]. *)
Theorem reachable_invariant {T : Type} `{ET : ElementTraits T}
        (v : DynamicVector.t T) :
  0 < IT_size < SizeT.modulus ->
  IsNumeric = true ->
  DynamicVector.reachable true v ->
  DynamicVector.invariant v.
Proof.
  intros Hw Hnum Hreach.
  induction Hreach as
    [ null | fresh n [Hn Hf] | fresh n init [Hn Hf]
    | fresh n preserve v Hv IH [Hn Hf] | fresh n v Hv IH [Hn Hf]
    | fresh n preserve v Hv IH Hn [Hn' Hf] | fresh v Hv IH | v Hv IH
    | v index x Hv IH Hi | v w Hv IHv Hw' IHw | v w Hv IHv Hw' IHw ].
  - apply ctor_default_invariant.
  - apply ctor_size_invariant; auto.
  - apply ctor_init_invariant; auto.
  - apply resize_invariant; auto.
  - apply reserve_invariant; auto.
  - apply resize_invariant; auto.
  - apply resize_invariant; auto.
    + unfold SizeT.in_range, SizeT.modulus. lia.
    + intros _. apply fits_zero. lia.
  - apply reset_invariant; auto.
  - apply set_invariant; auto.
  - exact IHw.
  - exact IHv.
Qed.

(** A vector of [int] that is resized down and written to. *)
Lemma reachable_invariant_witness :
  DynamicVector.invariant
    (DynamicVector.set
       (DynamicVector.resize (fun _ => 9) 3 true
          (DynamicVector.ctor_size (T := Z) (fun _ => 7) 5)) 1 42).
Proof.
  apply reachable_invariant.
  - unfold SizeT.modulus. simpl. lia.
  - reflexivity.
  - apply DynamicVector.reach_set.
    + apply DynamicVector.reach_resize.
      * apply DynamicVector.reach_size. split.
        -- unfold SizeT.in_range, SizeT.modulus. lia.
        -- intros _. vm_compute. reflexivity.
      * split.
        -- unfold SizeT.in_range, SizeT.modulus. lia.
        -- intros _. vm_compute. reflexivity.
    + simpl. lia.
Defined.

(** C6 (as stated) fails: a size whose width-aligned capacity wraps around.
    [DynamicVector<int>( SIZE_MAX )] has capacity 0 and size [SIZE_MAX]. *)
Lemma invariant_fails_on_wrap :
  DynamicVector.reachable false (DynamicVector.ctor_size (T := Z) (fun _ => 7) SIZE_MAX) /\
  DynamicVector.capacity (DynamicVector.ctor_size (T := Z) (fun _ => 7) SIZE_MAX) = 0 /\
  ~ DynamicVector.invariant (DynamicVector.ctor_size (T := Z) (fun _ => 7) SIZE_MAX).
Proof.
  split; [|split].
  - apply DynamicVector.reach_size. split.
    + unfold SizeT.in_range, SizeT.modulus, SIZE_MAX. lia.
    + discriminate.
  - reflexivity.
  - intros [Hcap _]. vm_compute in Hcap. apply Hcap. reflexivity.
Qed.

(** C7 (amended): for a numeric element type (or a vector width of one) and
    a size [n] whose width-aligned capacity fits a [size_t], the vector
    constructed with size [n] has the smallest multiple of the vector width
    that is at least [n] as its capacity, and for a numeric element type its
    padding [n, capacity) holds [Type()]. *)
Theorem ctor_size_capacity {T : Type} `{ET : ElementTraits T}
        (fresh : array T) (n : Z) :
  0 < IT_size < SizeT.modulus ->
  IsNumeric = true \/ IT_size = 1 ->
  SizeT.in_range n ->
  DynamicVector.fits n ->
  DynamicVector.size (DynamicVector.ctor_size fresh n) = n /\
  DynamicVector.smallest_multiple_geq IT_size n
    (DynamicVector.capacity (DynamicVector.ctor_size fresh n)) /\
  (IsNumeric = true ->
   forall i, n <= i < DynamicVector.capacity (DynamicVector.ctor_size fresh n) ->
             DynamicVector.get (DynamicVector.ctor_size fresh n) i = Type_default).
Proof.
  intros Hw Hkind Hn Hf. split; [reflexivity|]. split.
  - unfold DynamicVector.capacity. simpl.
    destruct IsNumeric eqn:Hnum.
    + rewrite (adjustCapacity_fits Hw n Hnum Hn Hf).
      apply round_up_smallest. exact Hw.
    + destruct Hkind as [Hk|Hk]; [discriminate|].
      unfold DynamicVector.adjustCapacity. rewrite Hnum, Hk.
      repeat split; [lia|apply Z.mod_1_r|intros; lia].
  - intros Hnum i Hi. unfold DynamicVector.capacity, DynamicVector.get in *.
    simpl in *. rewrite Hnum. now apply fill_default_inside.
Qed.

Lemma ctor_size_capacity_witness :
  DynamicVector.size (DynamicVector.ctor_size (T := Z) (fun _ => 7) 5) = 5 /\
  DynamicVector.smallest_multiple_geq IT_size 5
    (DynamicVector.capacity (DynamicVector.ctor_size (T := Z) (fun _ => 7) 5)) /\
  (IsNumeric = true ->
   forall i, 5 <= i < DynamicVector.capacity (DynamicVector.ctor_size (T := Z) (fun _ => 7) 5) ->
             DynamicVector.get (DynamicVector.ctor_size (T := Z) (fun _ => 7) 5) i = Type_default).
Proof.
  apply (ctor_size_capacity (fun _ => 7) 5).
  - unfold SizeT.modulus. simpl. lia.
  - left. reflexivity.
  - unfold SizeT.in_range, SizeT.modulus. lia.
  - vm_compute. reflexivity.
Defined.

(** C7 (as stated) fails for a size whose round-up wraps around:
    [DynamicVector<int>( SIZE_MAX )] gets capacity 0. *)
Lemma ctor_size_capacity_wraps :
  DynamicVector.capacity (DynamicVector.ctor_size (T := Z) (fun _ => 7) SIZE_MAX) = 0 /\
  ~ DynamicVector.smallest_multiple_geq IT_size SIZE_MAX
      (DynamicVector.capacity (DynamicVector.ctor_size (T := Z) (fun _ => 7) SIZE_MAX)).
Proof.
  split; [reflexivity|].
  intros [Hge _]. vm_compute in Hge. apply Hge. reflexivity.
Qed.

Lemma writes_keep_shape {T : Type} `{ET : ElementTraits T}
      (writes : list (Z * T)) (v : DynamicVector.t T) :
  let v' := fold_left (fun u p => DynamicVector.set u (fst p) (snd p)) writes v in
  DynamicVector.size_ v' = DynamicVector.size_ v /\
  DynamicVector.capacity_ v' = DynamicVector.capacity_ v.
Proof.
  revert v. induction writes as [|p ws IH]; intros v; simpl; [now split|].
  destruct (IH (DynamicVector.set v (fst p) (snd p))) as [H1 H2].
  simpl in H1, H2. now split.
Qed.

Lemma resize_shrink {T : Type} `{ET : ElementTraits T}
      (fresh : array T) n preserve (v : DynamicVector.t T) :
  IsNumeric = true -> n <= DynamicVector.capacity_ v -> n < DynamicVector.size_ v ->
  DynamicVector.resize fresh n preserve v =
  DynamicVector.mk n (DynamicVector.capacity_ v)
    (DynamicVector.fill_default n (DynamicVector.size_ v) (DynamicVector.v_ v)).
Proof.
  intros Hnum Hcap Hlt. unfold DynamicVector.resize. rewrite Hnum.
  replace (DynamicVector.capacity_ v <? n) with false
    by (symmetry; apply Z.ltb_ge; lia).
  replace (n <? DynamicVector.size_ v) with true
    by (symmetry; apply Z.ltb_lt; lia).
  reflexivity.
Qed.

Lemma resize_within {T : Type} `{ET : ElementTraits T}
      (fresh : array T) n preserve (v : DynamicVector.t T) :
  n <= DynamicVector.capacity_ v -> DynamicVector.size_ v <= n ->
  DynamicVector.resize fresh n preserve v =
  DynamicVector.mk n (DynamicVector.capacity_ v) (DynamicVector.v_ v).
Proof.
  intros Hcap Hge. unfold DynamicVector.resize.
  replace (DynamicVector.capacity_ v <? n) with false
    by (symmetry; apply Z.ltb_ge; lia).
  replace (n <? DynamicVector.size_ v) with false
    by (symmetry; apply Z.ltb_ge; lia).
  rewrite andb_false_r. reflexivity.
Qed.

(** C8: a numeric vector created with size 5, whatever was written to its
    elements, after [resize(3,true)] and [resize(5,true)] has its first
    three elements unchanged and [Type()] at indices 3 and 4. *)
Theorem resize_shrink_then_grow {T : Type} `{ET : ElementTraits T}
        (fresh f1 f2 : array T) (writes : list (Z * T)) :
  0 < IT_size < SizeT.modulus ->
  IsNumeric = true ->
  let v0 := fold_left (fun u p => DynamicVector.set u (fst p) (snd p)) writes
                      (DynamicVector.ctor_size fresh 5) in
  let v := DynamicVector.resize f2 5 true (DynamicVector.resize f1 3 true v0) in
  DynamicVector.size v = 5 /\
  (forall i, 0 <= i < 3 -> DynamicVector.get v i = DynamicVector.get v0 i) /\
  (forall i, 3 <= i < 5 -> DynamicVector.get v i = Type_default).
Proof.
  intros Hw Hnum v0 v.
  destruct (writes_keep_shape writes (DynamicVector.ctor_size fresh 5)) as [Hsz Hcp].
  fold v0 in Hsz, Hcp. simpl in Hsz, Hcp.
  assert (Hin : SizeT.in_range 5) by (unfold SizeT.in_range, SizeT.modulus; lia).
  assert (Hfit : DynamicVector.fits 5).
  { unfold DynamicVector.fits.
    pose proof (Z.mod_pos_bound 5 IT_size (proj1 Hw)).
    pose proof (Z.mod_pos_bound (IT_size - 5 mod IT_size) IT_size (proj1 Hw)).
    destruct (Z.lt_ge_cases 5 IT_size) as [Hbig|Hsmall].
    - rewrite (Z.mod_small 5) by lia. rewrite Z.mod_small by lia. lia.
    - unfold SizeT.modulus in *. lia. }
  pose proof (adjustCapacity_geq Hw 5 Hnum Hin Hfit) as Hcap.
  rewrite <- Hcp in Hcap.
  subst v.
  rewrite (resize_shrink f1 3 true v0) by (assumption || lia).
  rewrite resize_within by (simpl; lia).
  unfold DynamicVector.size, DynamicVector.get. simpl. rewrite Hsz.
  split; [reflexivity|]. split.
  - intros i Hi. apply fill_default_outside. lia.
  - intros i Hi. apply fill_default_inside. lia.
Qed.

Lemma resize_shrink_then_grow_witness :
  let v0 := fold_left (fun u p => DynamicVector.set u (fst p) (snd p))
                      [(0, 10); (1, 11); (2, 12); (3, 13); (4, 14)]
                      (DynamicVector.ctor_size (T := Z) (fun _ => 7) 5) in
  let v := DynamicVector.resize (fun _ => 8) 5 true
             (DynamicVector.resize (fun _ => 9) 3 true v0) in
  DynamicVector.size v = 5 /\
  (forall i, 0 <= i < 3 -> DynamicVector.get v i = DynamicVector.get v0 i) /\
  (forall i, 3 <= i < 5 -> DynamicVector.get v i = Type_default).
Proof.
  apply (resize_shrink_then_grow (fun _ => 7) (fun _ => 9) (fun _ => 8)
           [(0, 10); (1, 11); (2, 12); (3, 13); (4, 14)]).
  - unfold SizeT.modulus. simpl. lia.
  - reflexivity.
Defined.

(** *** The borrowed matrix: loads and stores *)


Lemma for_step_rule {S : Type} (P : Z -> S -> Prop) (e step : Z)
      (body : Z -> S -> option S) :
  0 < step ->
  (forall x s, P x s -> x < e ->
               x +! step = x + step /\
               exists s', body x s = Some s' /\ P (x + step) s') ->
  forall fuel j s,
    P j s -> (Z.to_nat (e - j) <= fuel)%nat ->
    exists x' s', for_step fuel j e step body s = Some s' /\ P x' s' /\ e <= x'.
Proof.
  intros Hstep Hbody. induction fuel as [|fuel IH]; intros j s HP Hfuel; simpl.
  - destruct (j <? e) eqn:E.
    + apply Z.ltb_lt in E. lia.
    + apply Z.ltb_ge in E. now exists j, s.
  - destruct (j <? e) eqn:E.
    + apply Z.ltb_lt in E.
      destruct (Hbody j s HP E) as [Hadd [s' [Hs' HP']]].
      rewrite Hs', Hadd. apply IH; [exact HP'|lia].
    + apply Z.ltb_ge in E. now exists j, s.
Qed.

Lemma for_range_upd_at {T : Type} base lo hi (g : Z -> T) (a : array T) k :
  for_range lo hi (fun i b => upd b (base + i) (g i)) a k =
  if (lo <=? k - base) && (k - base <? hi) then g (k - base) else a k.
Proof.
  destruct (Z.le_gt_cases lo hi) as [Hle|Hgt].
  - apply (for_range_ind
             (fun i b => b k = if (lo <=? k - base) && (k - base <? i)
                               then g (k - base) else a k)).
    + exact Hle.
    + destruct (lo <=? k - base) eqn:E1, (k - base <? lo) eqn:E2; simpl; try reflexivity; lia.
    + intros i x Hi Hx. unfold upd.
      destruct (k =? base + i) eqn:E.
      * apply Z.eqb_eq in E. subst k.
        replace (base + i - base) with i by lia.
        replace (lo <=? i) with true by (symmetry; apply Z.leb_le; lia).
        replace (i <? i + 1) with true by (symmetry; apply Z.ltb_lt; lia).
        reflexivity.
      * rewrite Hx. apply Z.eqb_neq in E.
        destruct (lo <=? k - base); simpl; [|reflexivity].
        destruct (k - base <? i) eqn:E3, (k - base <? i + 1) eqn:E4; try reflexivity; lia.
  - rewrite for_range_empty by lia.
    destruct (lo <=? k - base) eqn:E1, (k - base <? hi) eqn:E2; simpl; try reflexivity; lia.
Qed.

Lemma multiple_step w x y :
  0 < w -> x mod w = 0 -> y mod w = 0 -> x < y -> x + w <= y.
Proof.
  intros Hw Hx Hy Hlt.
  apply Z.mod_divide in Hx; [|lia]. apply Z.mod_divide in Hy; [|lia].
  destruct Hx as [p ->]. destruct Hy as [q ->].
  assert (p < q) by nia. nia.
Qed.

Lemma multiple_add w x : 0 < w -> x mod w = 0 -> (x + w) mod w = 0.
Proof.
  intros Hw Hx. rewrite <- (Z.mul_1_l w) at 1. rewrite Z.mod_add by lia. exact Hx.
Qed.

Lemma land_neg_pow2 n p :
  SizeT.in_range n -> 0 <= p < 64 ->
  SizeT.and n (SizeT.neg (2 ^ p)) = n - n mod 2 ^ p.
Proof.
  intros Hn Hp. unfold SizeT.and, SizeT.neg, SizeT.wrap, SizeT.in_range in *.
  assert (H2p : 0 < 2 ^ p) by (apply Z.pow_pos_nonneg; lia).
  assert (Hlt : 2 ^ p < SizeT.modulus).
  { rewrite modulus_pow2. apply Z.pow_lt_mono_r; lia. }
  replace ((- 2 ^ p) mod SizeT.modulus) with (SizeT.modulus - 2 ^ p).
  2:{ apply Z.mod_unique with (q := -1); lia. }
  replace (n - n mod 2 ^ p) with (Z.shiftl (Z.shiftr n p) p).
  2:{ rewrite Z.shiftl_mul_pow2, Z.shiftr_div_pow2 by lia.
      pose proof (Z.div_mod n (2 ^ p)). lia. }
  replace (SizeT.modulus - 2 ^ p) with (Z.shiftl (Z.ones (64 - p)) p).
  2:{ rewrite Z.shiftl_mul_pow2, Z.ones_equiv by lia.
      rewrite modulus_pow2.
      replace 64 with ((64 - p) + p) at 2 by lia.
      rewrite Z.pow_add_r by lia. lia. }
  apply Z.bits_inj'. intros i Hi.
  rewrite Z.land_spec.
  destruct (Z.lt_ge_cases i p) as [Hip|Hip].
  - rewrite !Z.shiftl_spec_low by lia. apply andb_false_r.
  - rewrite !Z.shiftl_spec by lia. rewrite Z.shiftr_spec by lia.
    replace (i - p + p) with i by lia.
    destruct (Z.lt_ge_cases i 64) as [Hi64|Hi64].
    + rewrite Z.ones_spec_low by lia. apply andb_true_r.
    + rewrite Z.ones_spec_high by lia. rewrite andb_false_r.
      symmetry. apply Z.bits_above_log2; [lia|].
      destruct (Z.eq_dec n 0) as [->|Hn0]; [simpl; lia|].
      apply Z.log2_lt_pow2; [lia|].
      rewrite modulus_pow2 in Hn.
      eapply Z.lt_le_trans; [apply Hn|]. apply Z.pow_le_mono_r; lia.
Qed.

Section MatrixFacts.
Context {T : Type} `{ET : ElementTraits T}.

Lemma flat_index_inj nn i j r c :
  0 <= j < nn -> 0 <= c < nn -> i * nn + j = r * nn + c -> i = r /\ j = c.
Proof.
  intros Hj Hc H. assert (i = r) by nia. subst. lia.
Qed.

Lemma get_set_same (M : DenseMatrix.t T) i j x :
  DenseMatrix.get (DenseMatrix.set M i j x) i j = x.
Proof. unfold DenseMatrix.get, DenseMatrix.set, upd. simpl. now rewrite Z.eqb_refl. Qed.

Lemma get_set_other (M : DenseMatrix.t T) i j x r c :
  0 <= j < DenseMatrix.nn_ M -> 0 <= c < DenseMatrix.nn_ M ->
  r <> i \/ c <> j ->
  DenseMatrix.get (DenseMatrix.set M i j x) r c = DenseMatrix.get M r c.
Proof.
  intros Hj Hc Hne. unfold DenseMatrix.get, DenseMatrix.set, upd. simpl.
  destruct (r * DenseMatrix.nn_ M + c =? i * DenseMatrix.nn_ M + j) eqn:E; [|reflexivity].
  apply Z.eqb_eq in E. symmetry in E.
  destruct (flat_index_inj _ _ _ _ _ Hj Hc E). lia.
Qed.

Lemma get_storeu_lane (M : DenseMatrix.t T) i j value k :
  0 <= k < IT_size ->
  DenseMatrix.get (DenseMatrix.storeu M i j value) i (j + k) = value k.
Proof.
  intros Hk. unfold DenseMatrix.get, DenseMatrix.storeu. simpl.
  rewrite (for_range_upd_at (i * DenseMatrix.nn_ M + j)).
  replace (i * DenseMatrix.nn_ M + (j + k) - (i * DenseMatrix.nn_ M + j)) with k by lia.
  replace (0 <=? k) with true by (symmetry; apply Z.leb_le; lia).
  replace (k <? IT_size) with true by (symmetry; apply Z.ltb_lt; lia).
  reflexivity.
Qed.

Lemma get_storeu_other (M : DenseMatrix.t T) i j value r c :
  0 <= j -> j + IT_size <= DenseMatrix.nn_ M -> 0 <= c < DenseMatrix.nn_ M ->
  r <> i \/ c < j \/ j + IT_size <= c ->
  DenseMatrix.get (DenseMatrix.storeu M i j value) r c = DenseMatrix.get M r c.
Proof.
  intros Hj Hfit Hc Hne. unfold DenseMatrix.get, DenseMatrix.storeu. simpl.
  rewrite (for_range_upd_at (i * DenseMatrix.nn_ M + j)).
  set (d := r * DenseMatrix.nn_ M + c - (i * DenseMatrix.nn_ M + j)).
  destruct (0 <=? d) eqn:E1; simpl; [|reflexivity].
  destruct (d <? IT_size) eqn:E2; [|reflexivity].
  apply Z.leb_le in E1. apply Z.ltb_lt in E2. exfalso.
  assert (Hidx : i * DenseMatrix.nn_ M + (j + d) = r * DenseMatrix.nn_ M + c) by (unfold d; lia).
  assert (Hjd : 0 <= j + d < DenseMatrix.nn_ M) by lia.
  destruct (flat_index_inj _ _ _ _ _ Hjd Hc Hidx). lia.
Qed.

End MatrixFacts.

Section KernelFacts.
Context {T : Type} `{ET : ElementTraits T}.
Import ViewSpec.

Variable M : DenseMatrix.t T.
Variable sm : DenseSubmatrix.t.
Hypothesis Hwf : DenseMatrix.wf M.
Hypothesis Hvalid : valid M sm.
Hypothesis Hwidth : 0 < IT_size.
Variable f : Z -> Z -> T.

Local Abbreviation row := (DenseSubmatrix.row_ sm).
Local Abbreviation column := (DenseSubmatrix.column_ sm).
Local Abbreviation m := (DenseSubmatrix.m_ sm).
Local Abbreviation n := (DenseSubmatrix.n_ sm).

Ltac solve_done :=
  cbv beta delta [done covers] in *;
  first [ lia
        | let H := fresh in
          intro H; match goal with Hd : ~ _ |- _ => apply Hd; lia end ].

Ltac progress_intro H :=
  let Hm := fresh "Hm" in let Hn := fresh "Hn" in let Hnn := fresh "Hnn" in
  intros (Hm & Hn & Hnn & H);
  split; [exact Hm|split; [exact Hn|split; [exact Hnn|]]].

Lemma progress_start : progress sm f M 0 0 M.
Proof.
  split; [reflexivity|split; [reflexivity|split; [reflexivity|]]].
  intros r c Hc. split; [|reflexivity].
  intros [Hd|Hd]; lia.
Qed.

Lemma progress_next_row i x M' :
  0 <= i -> n <= x -> progress sm f M i x M' -> progress sm f M (i + 1) 0 M'.
Proof.
  destruct Hvalid as (Hv1 & Hv2 & Hv3 & Hv4 & _).
  intros Hi Hx. progress_intro H.
  intros r c Hc. split; intros Hd; apply (H r c Hc); solve_done.
Qed.

Lemma progress_finish M' : progress sm f M m 0 M' -> updated sm f M M'.
Proof.
  destruct Hvalid as (Hv1 & Hv2 & Hv3 & Hv4 & _).
  progress_intro H.
  intros r c Hc. split; intros Hd; apply (H r c Hc); solve_done.
Qed.

Lemma progress_widen i x x' M' :
  n <= x -> n <= x' -> progress sm f M i x M' -> progress sm f M i x' M'.
Proof.
  intros Hx Hx'. progress_intro H.
  intros r c Hc. split; intros Hd; apply (H r c Hc); solve_done.
Qed.

Lemma progress_set i x M' v :
  progress sm f M i x M' -> 0 <= x < n ->
  v = f (row + i) (column + x) ->
  progress sm f M i (x + 1) (DenseMatrix.set M' (row + i) (column + x) v).
Proof.
  destruct Hwf as (_ & Hn_nn & _ & _).
  destruct Hvalid as (Hv1 & Hv2 & Hv3 & Hv4 & Hv5 & Hcol & _).
  unfold DenseMatrix.columns in *.
  intros (Hm & Hn & Hnn & H) Hx Hv.
  split; [exact Hm|split; [exact Hn|split; [exact Hnn|]]].
  intros r c Hc. unfold DenseMatrix.columns in Hc. split; intros Hd.
  - destruct (Z.eq_dec r (row + i)) as [Hr|Hr];
      [destruct (Z.eq_dec c (column + x)) as [Hc'|Hc']|].
    + subst r c. rewrite get_set_same. exact Hv.
    + rewrite get_set_other by (rewrite ?Hnn; lia).
      apply (H r c Hc). solve_done.
    + rewrite get_set_other by (rewrite ?Hnn; lia).
      apply (H r c Hc). solve_done.
  - assert (Hne : r <> row + i \/ c <> column + x) by (unfold done in Hd; lia).
    rewrite get_set_other by (rewrite ?Hnn; lia).
    apply (H r c Hc). solve_done.
Qed.

Lemma progress_storeu i x M' value :
  progress sm f M i x M' -> 0 <= x < n ->
  column + x + IT_size <= DenseMatrix.nn_ M ->
  x + IT_size <= n \/ column + n = DenseMatrix.columns M ->
  (forall k, 0 <= k < IT_size -> x + k < n ->
             value k = f (row + i) (column + x + k)) ->
  progress sm f M i (x + IT_size)
           (DenseMatrix.storeu M' (row + i) (column + x) value).
Proof.
  destruct Hwf as (_ & Hn_nn & _ & _).
  destruct Hvalid as (Hv1 & Hv2 & Hv3 & Hv4 & Hv5 & Hcol & _).
  unfold DenseMatrix.columns in *.
  intros (Hm & Hn & Hnn & H) Hx Hfit Hedge Hval.
  split; [exact Hm|split; [exact Hn|split; [exact Hnn|]]].
  intros r c Hc. unfold DenseMatrix.columns in Hc. split; intros Hd.
  - destruct (Z.eq_dec r (row + i)) as [Hr|Hr].
    + destruct (Z_lt_ge_dec c (column + x)) as [Hc'|Hc'].
      * rewrite get_storeu_other by (rewrite ?Hnn; lia).
        apply (H r c Hc). solve_done.
      * destruct (Z_lt_ge_dec c (column + x + IT_size)) as [Hc''|Hc''].
        -- subst r. replace c with (column + x + (c - (column + x))) at 1 by lia.
           rewrite get_storeu_lane by lia.
           rewrite Hval by (unfold done in Hd; lia). f_equal. lia.
        -- unfold done in Hd. lia.
    + rewrite get_storeu_other by (rewrite ?Hnn; lia).
      apply (H r c Hc). solve_done.
  - rewrite get_storeu_other; [| rewrite ?Hnn; lia.. |].
    + apply (H r c Hc). solve_done.
    + unfold done in Hd. lia.
Qed.

End KernelFacts.

(** *** The default kernels *)

Section DefaultKernel.
Context {T : Type} `{ET : ElementTraits T}.
Import ViewSpec.

Variable op : T -> T -> T.
Variable M : DenseMatrix.t T.
Variable sm : DenseSubmatrix.t.
Variable rhs : DenseSource T.
Hypothesis Hwf : DenseMatrix.wf M.
Hypothesis Hvalid : valid M sm.
Hypothesis Hwidth : 0 < IT_size.

Local Abbreviation row := (DenseSubmatrix.row_ sm).
Local Abbreviation column := (DenseSubmatrix.column_ sm).
Local Abbreviation m := (DenseSubmatrix.m_ sm).
Local Abbreviation n := (DenseSubmatrix.n_ sm).

Lemma view_bounds :
  0 <= row /\ 0 <= column /\ 0 <= m /\ 0 <= n /\
  row + m < SizeT.modulus /\ column + n <= DenseMatrix.nn_ M /\
  DenseMatrix.nn_ M < SizeT.modulus /\
  column + n <= DenseMatrix.n_ M.
Proof.
  destruct Hwf as ((_ & Hm) & (_ & Hn) & (_ & Hnn) & _).
  destruct Hvalid as (Hv1 & Hv2 & Hv3 & Hv4 & Hv5 & Hv6 & _).
  unfold DenseMatrix.rows, DenseMatrix.columns in *. lia.
Qed.

Lemma progress_untouched f i x M' x' :
  progress sm f M i x M' -> 0 <= i -> 0 <= x <= x' -> x' < n ->
  DenseMatrix.get M' (row + i) (column + x') = DenseMatrix.get M (row + i) (column + x').
Proof.
  destruct view_bounds as (B1 & B2 & B3 & B4 & B5 & B6 & B7 & B8).
  intros (_ & _ & _ & H) Hi Hx Hx'.
  apply (H (row + i) (column + x')).
  - unfold DenseMatrix.columns. lia.
  - unfold done. intros [Hd|Hd]; lia.
Qed.


Variable fuel : nat.
Hypothesis Hfuel : (Z.to_nat (Z.max m n) <= fuel)%nat.

Lemma jend_default :
  SizeT.and n (SizeT.neg 2) = n - n mod 2.
Proof.
  destruct view_bounds as (B1 & B2 & B3 & B4 & B5 & B6 & B7 & B8).
  change 2 with (2 ^ 1) at 1. apply land_neg_pow2; [|lia].
  unfold SizeT.in_range. lia.
Qed.

Lemma update_default_row i M' :
  0 <= i < m -> progress sm (combined op sm rhs M) M i 0 M' ->
  exists M'',
    match
      for_step fuel 0 (n - n mod 2) 2 (fun j M0 =>
        Some (DenseMatrix.set
                (DenseMatrix.set M0 (row +! i) (column +! j)
                   (op (DenseMatrix.get M0 (row +! i) (column +! j)) (src_get rhs i j)))
                (row +! i) (column +! j +! 1)
                (op (DenseMatrix.get
                       (DenseMatrix.set M0 (row +! i) (column +! j)
                          (op (DenseMatrix.get M0 (row +! i) (column +! j)) (src_get rhs i j)))
                       (row +! i) (column +! j +! 1))
                    (src_get rhs i (j +! 1))))) M'
    with
    | Some M0 =>
        Some (if n - n mod 2 <? n
              then DenseMatrix.set M0 (row +! i) (column +! (n - n mod 2))
                     (op (DenseMatrix.get M0 (row +! i) (column +! (n - n mod 2)))
                         (src_get rhs i (n - n mod 2)))
              else M0)
    | None => None
    end = Some M'' /\ progress sm (combined op sm rhs M) M (i + 1) 0 M''.
Proof.
  destruct view_bounds as (B1 & B2 & B3 & B4 & B5 & B6 & B7 & B8).
  intros Hi Hp.
  pose proof (Z.mod_pos_bound n 2 ltac:(lia)) as Hmod.
  pose proof (Z.mod_le n 2 B4 ltac:(lia)) as Hmodle.
  assert (Hjm : (n - n mod 2) mod 2 = 0).
  { rewrite Zminus_mod_idemp_r. rewrite Z.sub_diag. reflexivity. }
  assert (Hrow : row +! i = row + i) by (apply add_small; lia).
  rewrite Hrow.
  destruct (for_step_rule
              (fun x M0 => 0 <= x <= n - n mod 2 /\ x mod 2 = 0 /\
                           progress sm (combined op sm rhs M) M i x M0)
              (n - n mod 2) 2
              (fun j M0 =>
        Some (DenseMatrix.set
                (DenseMatrix.set M0 (row + i) (column +! j)
                   (op (DenseMatrix.get M0 (row + i) (column +! j)) (src_get rhs i j)))
                (row + i) (column +! j +! 1)
                (op (DenseMatrix.get
                       (DenseMatrix.set M0 (row + i) (column +! j)
                          (op (DenseMatrix.get M0 (row + i) (column +! j)) (src_get rhs i j)))
                       (row + i) (column +! j +! 1))
                    (src_get rhs i (j +! 1))))))
    with (fuel := fuel) (j := 0) (s := M') as (x' & M0 & Hrun & (Hx' & _ & Hp0) & Hge).
  - lia.
  - intros x M0 (Hx & Hx2 & Hpx) Hlt.
    assert (Hstep : x + 2 <= n - n mod 2) by (apply multiple_step; lia).
    split; [apply add_small; lia|].
    eexists. split; [reflexivity|].
    split; [lia|]. split; [now apply multiple_add|].
    assert (E1 : column +! x = column + x) by (apply add_small; lia).
    assert (E2 : column + x +! 1 = column + x + 1) by (apply add_small; lia).
    assert (E3 : x +! 1 = x + 1) by (apply add_small; lia).
    rewrite E1, E2, E3.
    replace (x + 2) with (x + 1 + 1) by lia.
    replace (column + x + 1) with (column + (x + 1)) by lia.
    match goal with |- progress _ _ _ _ _ (DenseMatrix.set ?M1 _ _ _) =>
      assert (Hp1 : progress sm (combined op sm rhs M) M i (x + 1) M1)
    end.
    { apply progress_set; try assumption; [lia|].
      unfold combined, image. f_equal.
      - eapply progress_untouched; eauto; lia.
      - f_equal; lia. }
    apply progress_set; try assumption; [lia|].
    unfold combined, image. f_equal.
    + eapply progress_untouched; [exact Hp1|lia|lia|lia].
    + f_equal; lia.
  - split; [lia|]. split; [reflexivity|exact Hp].
  - lia.
  - rewrite Hrun.
    assert (x' = n - n mod 2) by lia. subst x'.
    destruct (n - n mod 2 <? n) eqn:E.
    + apply Z.ltb_lt in E. eexists. split; [reflexivity|].
      assert (E1 : column +! (n - n mod 2) = column + (n - n mod 2)) by (apply add_small; lia).
      rewrite E1.
      apply progress_next_row with (x := n - n mod 2 + 1); try assumption; try lia.
      apply progress_set; try assumption; [lia|].
      unfold combined, image. f_equal.
      * eapply progress_untouched; eauto; lia.
      * f_equal; lia.
    + apply Z.ltb_ge in E. eexists. split; [reflexivity|].
      apply progress_next_row with (x := n - n mod 2); try assumption; lia.
Qed.

Lemma update_default_spec :
  exists M', DenseSubmatrix.update_default op fuel sm rhs M = Some M' /\
             updated sm (combined op sm rhs M) M M'.
Proof.
  destruct view_bounds as (B1 & B2 & B3 & B4 & B5 & B6 & B7 & B8).
  unfold DenseSubmatrix.update_default, DenseSubmatrix.update_default_live. cbv zeta. rewrite jend_default.
  match goal with |- context [for_step fuel 0 m 1 ?body M] =>
    destruct (for_step_rule
                (fun i M0 => 0 <= i <= m /\ progress sm (combined op sm rhs M) M i 0 M0)
                m 1 body) with (fuel := fuel) (j := 0) (s := M)
      as (x' & M' & Hrun & (Hx' & Hp) & Hge)
  end.
  - lia.
  - intros i M0 (Hi & Hp) Hlt. split; [apply add_small; lia|].
    destruct (update_default_row i M0) as (M'' & Hrun & Hp''); [lia|exact Hp|].
    exists M''. split; [exact Hrun|]. split; [lia|exact Hp''].
  - split; [lia|]. apply progress_start.
  - lia.
  - exists M'. split; [exact Hrun|].
    assert (x' = m) by lia. subst x'. now apply progress_finish.
Qed.

End DefaultKernel.

(** *** The intrinsic assignment kernel *)

Section VectorizedKernel.
Context {T : Type} `{ET : ElementTraits T} `{EL : !ElementLaws T}.
Import ViewSpec.

Variable cacheSize : Z.
Variable M : DenseMatrix.t T.
Variable sm : DenseSubmatrix.t.
Variable rhs : DenseSource T.
Hypothesis Hwf : DenseMatrix.wf M.
Hypothesis Hvalid : valid M sm.
Hypothesis Hrows : src_rows rhs = DenseSubmatrix.m_ sm.
Hypothesis Hcols : src_columns rhs = DenseSubmatrix.n_ sm.
Hypothesis Hsrc : source_ok rhs.
Variable fuel : nat.
Hypothesis Hfuel : (Z.to_nat (Z.max (DenseSubmatrix.m_ sm) (DenseSubmatrix.n_ sm)) <= fuel)%nat.

Local Abbreviation row := (DenseSubmatrix.row_ sm).
Local Abbreviation column := (DenseSubmatrix.column_ sm).
Local Abbreviation m := (DenseSubmatrix.m_ sm).
Local Abbreviation n := (DenseSubmatrix.n_ sm).
Local Abbreviation W := (IT_size).

Lemma width_bounds : 0 < W /\ W * 4 < 2147483648 /\ exists k, 0 <= k < 29 /\ W = 2 ^ k.
Proof.
  destruct IT_size_pow2 as (k & Hk & HW).
  split; [rewrite HW; apply Z.pow_pos_nonneg; lia|]. split; [|now exists k].
  rewrite HW. change 2147483648 with (2 ^ 29 * 4).
  apply Z.mul_lt_mono_pos_r; [lia|]. apply Z.pow_lt_mono_r; lia.
Qed.

Lemma jend_vectorized :
  SizeT.and n (SizeT.neg (W * 4)) = n - n mod (W * 4).
Proof.
  destruct (view_bounds M sm Hwf Hvalid) as (B1 & B2 & B3 & B4 & B5 & B6 & B7 & B8).
  destruct width_bounds as (_ & _ & k & Hk & HW).
  rewrite HW. replace (2 ^ k * 4) with (2 ^ (k + 2)).
  2:{ rewrite Z.pow_add_r by lia. reflexivity. }
  apply land_neg_pow2; [|lia]. unfold SizeT.in_range. lia.
Qed.

Lemma lanes_ok i x k :
  0 <= i < m -> 0 <= x -> 0 <= k < W -> x + k < n ->
  src_load rhs i x k = image sm (src_get rhs) (row + i) (column + x + k).
Proof.
  intros Hi Hx Hk Hlt. unfold image.
  rewrite Hsrc by lia. f_equal; lia.
Qed.

Lemma aligned_facts :
  DenseSubmatrix.aligned_ sm = true ->
  column mod W = 0 /\ (column + n = DenseMatrix.columns M \/ n mod W = 0).
Proof.
  destruct Hvalid as (_ & _ & _ & _ & _ & _ & _ & _ & Ha).
  rewrite Ha. intros H. apply andb_true_iff in H. destruct H as [H1 H2].
  apply Z.eqb_eq in H1. apply orb_true_iff in H2.
  split; [exact H1|]. destruct H2 as [H2|H2]; apply Z.eqb_eq in H2; auto.
Qed.

(** A full-width store at a multiple [x] of the width stays in its row and
    writes nothing beyond the view but padding, when the view is aligned. *)
Lemma aligned_store_fits x :
  DenseSubmatrix.aligned_ sm = true -> 0 <= x < n -> x mod W = 0 ->
  column + x + W <= DenseMatrix.nn_ M /\
  (x + W <= n \/ column + n = DenseMatrix.columns M).
Proof.
  destruct (view_bounds M sm Hwf Hvalid) as (B1 & B2 & B3 & B4 & B5 & B6 & B7 & B8).
  destruct width_bounds as (HW & _).
  destruct Hwf as (_ & _ & _ & Hpad).
  intros Ha Hx Hxm. destruct (aligned_facts Ha) as [Hc [He|He]].
  - split; [|now right].
    assert (Hcx : (column + x) mod W = 0).
    { rewrite Z.add_mod, Hc, Hxm by lia. reflexivity. }
    unfold DenseMatrix.columns in He.
    pose proof (multiple_step W (column + x) (DenseMatrix.nn_ M) HW Hcx Hpad). lia.
  - assert (x + W <= n) by (apply multiple_step; lia). split; [lia|now left].
Qed.

Lemma stream_row i M0 :
  DenseSubmatrix.aligned_ sm = true ->
  0 <= i < m -> progress sm (image sm (src_get rhs)) M i 0 M0 ->
  exists M'',
    for_step fuel 0 n W (fun j M1 =>
      Some (DenseMatrix.stream M1 (row +! i) (column +! j) (src_load rhs i j))) M0
    = Some M'' /\
    progress sm (image sm (src_get rhs)) M (i + 1) 0 M''.
Proof.
  destruct (view_bounds M sm Hwf Hvalid) as (B1 & B2 & B3 & B4 & B5 & B6 & B7 & B8).
  destruct width_bounds as (HW & _).
  intros Ha Hi Hp.
  assert (Hrow : row +! i = row + i) by (apply add_small; lia).
  rewrite Hrow.
  match goal with |- context [for_step fuel 0 n W ?body M0] =>
    destruct (for_step_rule
                (fun x M1 => 0 <= x /\ x mod W = 0 /\
                             progress sm (image sm (src_get rhs)) M i x M1)
                n W body) with (fuel := fuel) (j := 0) (s := M0)
      as (x' & M'' & Hrun & (Hx' & _ & Hp'') & Hge)
  end.
  - exact HW.
  - intros x M1 (Hx & Hxm & Hpx) Hlt.
    destruct (aligned_store_fits x Ha ltac:(lia) Hxm) as [Hfit Hedge].
    split; [apply add_small; lia|].
    eexists. split; [reflexivity|].
    split; [lia|]. split; [now apply multiple_add|].
    rewrite (add_small column x) by lia.
    apply progress_storeu; try assumption; try lia.
    intros k Hk Hlt'. apply lanes_ok; lia.
  - split; [lia|]. split; [apply Z.mod_0_l; lia|exact Hp].
  - lia.
  - exists M''. split; [exact Hrun|].
    apply progress_next_row with (x := x'); try assumption; lia.
Qed.


Lemma blocks_row i M0 :
  0 <= i < m -> progress sm (image sm (src_get rhs)) M i 0 M0 ->
  exists M'',
    for_step fuel 0 (n - n mod (W * 4)) (W *! 4) (fun j M1 =>
      let M1 := DenseMatrix.storeu M1 (row +! i) (column +! j) (src_load rhs i j) in
      let M1 := DenseMatrix.storeu M1 (row +! i) (column +! j +! W)
                  (src_load rhs i (j +! W)) in
      let M1 := DenseMatrix.storeu M1 (row +! i) (column +! j +! W *! 2)
                  (src_load rhs i (j +! W *! 2)) in
      Some (DenseMatrix.storeu M1 (row +! i) (column +! j +! W *! 3)
                  (src_load rhs i (j +! W *! 3)))) M0
    = Some M'' /\
    progress sm (image sm (src_get rhs)) M i (n - n mod (W * 4)) M''.
Proof.
  destruct (view_bounds M sm Hwf Hvalid) as (B1 & B2 & B3 & B4 & B5 & B6 & B7 & B8).
  destruct width_bounds as (HW & HW4 & _).
  intros Hi Hp.
  assert (HW40 : 0 < W * 4) by lia.
  pose proof (Z.mod_pos_bound n (W * 4) HW40) as Hmod.
  pose proof (Z.mod_le n (W * 4) B4 HW40) as Hmodle.
  assert (Hjm : (n - n mod (W * 4)) mod (W * 4) = 0).
  { rewrite Zminus_mod_idemp_r. rewrite Z.sub_diag. apply Z.mod_0_l. lia. }
  assert (Hrow : row +! i = row + i) by (apply add_small; lia).
  assert (HW2 : W *! 2 = W * 2).
  { apply wrap_small. unfold SizeT.in_range, SizeT.modulus. lia. }
  assert (HW3 : W *! 3 = W * 3).
  { apply wrap_small. unfold SizeT.in_range, SizeT.modulus. lia. }
  assert (HW4' : W *! 4 = W * 4).
  { apply wrap_small. unfold SizeT.in_range, SizeT.modulus. lia. }
  rewrite Hrow, HW2, HW3, HW4'. cbv zeta.
  match goal with |- context [for_step fuel 0 ?e ?st ?body M0] =>
    destruct (for_step_rule
                (fun x M1 => 0 <= x <= n - n mod (W * 4) /\ x mod (W * 4) = 0 /\
                             progress sm (image sm (src_get rhs)) M i x M1)
                e st body) with (fuel := fuel) (j := 0) (s := M0)
      as (x' & M'' & Hrun & (Hx' & _ & Hp'') & Hge)
  end.
  - lia.
  - intros x M1 (Hx & Hxm & Hpx) Hlt.
    assert (Hstep : x + W * 4 <= n - n mod (W * 4)) by (apply multiple_step; lia).
    split; [apply add_small; lia|].
    eexists. split; [reflexivity|].
    split; [lia|]. split; [apply multiple_add; lia|].
    rewrite (add_small column x) by lia.
    rewrite (add_small (column + x) W) by lia.
    rewrite (add_small (column + x) (W * 2)) by lia.
    rewrite (add_small (column + x) (W * 3)) by lia.
    rewrite (add_small x W) by lia.
    rewrite (add_small x (W * 2)) by lia.
    rewrite (add_small x (W * 3)) by lia.
    replace (x + W * 4) with (x + W * 3 + W) by lia.
    replace (column + x + W * 3) with (column + (x + W * 3)) by lia.
    apply progress_storeu; try assumption; try lia;
      [|intros k Hk Hlt'; apply lanes_ok; lia].
    replace (x + W * 3) with (x + W * 2 + W) by lia.
    replace (column + x + W * 2) with (column + (x + W * 2)) by lia.
    apply progress_storeu; try assumption; try lia;
      [|intros k Hk Hlt'; apply lanes_ok; lia].
    replace (x + W * 2) with (x + W + W) by lia.
    replace (column + x + W) with (column + (x + W)) by lia.
    apply progress_storeu; try assumption; try lia;
      [|intros k Hk Hlt'; apply lanes_ok; lia].
    apply progress_storeu; try assumption; try lia.
    intros k Hk Hlt'. apply lanes_ok; lia.
  - split; [lia|]. split; [apply Z.mod_0_l; lia|exact Hp].
  - lia.
  - exists M''. split; [exact Hrun|].
    assert (x' = n - n mod (W * 4)) by lia. now subst x'.
Qed.


Lemma tail_row i M0 :
  0 <= i < m ->
  progress sm (image sm (src_get rhs)) M i (n - n mod (W * 4)) M0 ->
  exists M'',
    for_step fuel (n - n mod (W * 4)) n W (fun j M1 =>
      Some (DenseSubmatrix.storeu sm M1 i j (src_load rhs i j))) M0
    = Some M'' /\
    progress sm (image sm (src_get rhs)) M (i + 1) 0 M''.
Proof.
  destruct (view_bounds M sm Hwf Hvalid) as (B1 & B2 & B3 & B4 & B5 & B6 & B7 & B8).
  destruct width_bounds as (HW & HW4 & _).
  pose proof Hwf as (_ & _ & _ & Hpad).
  pose proof Hvalid as (_ & _ & _ & _ & _ & _ & Hrest & Hfinal & _).
  intros Hi Hp.
  assert (HW40 : 0 < W * 4) by lia.
  pose proof (Z.mod_pos_bound n (W * 4) HW40) as Hmod.
  pose proof (Z.mod_le n (W * 4) B4 HW40) as Hmodle.
  pose proof (Z.mod_pos_bound n W HW) as HmodW.
  pose proof (Z.mod_le n W B4 HW) as HmodleW.
  assert (Hjm : (n - n mod (W * 4)) mod W = 0).
  { assert (H4 : (n - n mod (W * 4)) mod (W * 4) = 0).
    { rewrite Zminus_mod_idemp_r. rewrite Z.sub_diag. apply Z.mod_0_l. lia. }
    apply Z.mod_divide in H4; [|lia]. destruct H4 as [q Hq]. rewrite Hq.
    replace (q * (W * 4)) with (q * 4 * W) by lia. apply Z.mod_mul. lia. }
  assert (Hfm : (n - n mod W) mod W = 0).
  { rewrite Zminus_mod_idemp_r. rewrite Z.sub_diag. apply Z.mod_0_l. lia. }
  match goal with |- context [for_step fuel ?j0 n W ?body M0] =>
    destruct (for_step_rule
                (fun x M1 => n - n mod (W * 4) <= x /\ x mod W = 0 /\
                             progress sm (image sm (src_get rhs)) M i x M1)
                n W body) with (fuel := fuel) (j := j0) (s := M0)
      as (x' & M'' & Hrun & (Hx' & _ & Hp'') & Hge)
  end.
  - exact HW.
  - intros x M1 (Hx & Hxm & Hpx) Hlt.
    assert (Hnn : x + W <= DenseMatrix.nn_ M) by (apply multiple_step; lia).
    assert (Hxf : x <= n - n mod W).
    { destruct (Z_le_gt_dec x (n - n mod W)) as [Hle|Hgt]; [exact Hle|].
      pose proof (multiple_step W (n - n mod W) x HW Hfm Hxm). lia. }
    split; [apply add_small; lia|].
    eexists. split; [reflexivity|].
    split; [lia|]. split; [now apply multiple_add|].
    unfold DenseSubmatrix.storeu.
    rewrite (add_small row i) by lia.
    rewrite (add_small column x) by lia.
    destruct (DenseSubmatrix.aligned_ sm) eqn:Ha; simpl.
    + destruct (aligned_store_fits x Ha ltac:(lia) Hxm) as [Hfit Hedge].
      apply progress_storeu; try assumption; try lia.
      intros k Hk Hlt'. apply lanes_ok; lia.
    + destruct (x =? DenseSubmatrix.final_ sm) eqn:Ef; simpl.
      * apply Z.eqb_eq in Ef. rewrite Hfinal, Hrest in Ef. rewrite Hrest.
        apply progress_widen with (x := x + n mod W); try assumption; try lia.
        apply (for_range_ind
                 (fun k M2 => progress sm (image sm (src_get rhs)) M i (x + k) M2)).
        -- lia.
        -- now rewrite Z.add_0_r.
        -- intros k M2 Hk Hp2.
           rewrite (add_small (column + x) k) by lia.
           rewrite Z.add_assoc.
           replace (column + x + k) with (column + (x + k)) by lia.
           apply progress_set; try assumption; try lia.
           replace (column + (x + k)) with (column + x + k) by lia.
           apply lanes_ok; lia.
      * apply Z.eqb_neq in Ef. rewrite Hfinal, Hrest in Ef.
        assert (x + W <= n - n mod W) by (apply multiple_step; lia).
        apply progress_storeu; try assumption; try lia.
        intros k Hk Hlt'. apply lanes_ok; lia.
  - split; [lia|]. split; [exact Hjm|exact Hp].
  - lia.
  - exists M''. split; [exact Hrun|].
    apply progress_next_row with (x := x'); try assumption; lia.
Qed.

Theorem assign_vectorized_spec :
  exists M', DenseSubmatrix.assign_vectorized cacheSize fuel sm rhs M = Some M' /\
             updated sm (image sm (src_get rhs)) M M'.
Proof.
  destruct (view_bounds M sm Hwf Hvalid) as (B1 & B2 & B3 & B4 & B5 & B6 & B7 & B8).
  unfold DenseSubmatrix.assign_vectorized, DenseSubmatrix.assign_vectorized_live.
  match goal with |- context [if ?b then _ else _] => destruct b eqn:Ebranch end.
  - apply andb_true_iff in Ebranch. destruct Ebranch as [Ebranch _].
    apply andb_true_iff in Ebranch. destruct Ebranch as [Ha _].
    match goal with |- context [for_step fuel 0 m 1 ?body M] =>
      destruct (for_step_rule
                  (fun i M0 => 0 <= i <= m /\
                               progress sm (image sm (src_get rhs)) M i 0 M0)
                  m 1 body) with (fuel := fuel) (j := 0) (s := M)
        as (x' & M' & Hrun & (Hx' & Hp) & Hge)
    end.
    + lia.
    + intros i M0 (Hi & Hp) Hlt. split; [apply add_small; lia|].
      destruct (stream_row i M0 Ha) as (M'' & Hrun & Hp''); [lia|exact Hp|].
      exists M''. split; [exact Hrun|]. split; [lia|exact Hp''].
    + split; [lia|]. apply progress_start; assumption.
    + lia.
    + exists M'. split; [exact Hrun|].
      assert (x' = m) by lia. subst x'. now apply progress_finish.
  - cbv zeta. rewrite jend_vectorized.
    match goal with |- context [for_step fuel 0 m 1 ?body M] =>
      destruct (for_step_rule
                  (fun i M0 => 0 <= i <= m /\
                               progress sm (image sm (src_get rhs)) M i 0 M0)
                  m 1 body) with (fuel := fuel) (j := 0) (s := M)
        as (x' & M' & Hrun & (Hx' & Hp) & Hge)
    end.
    + lia.
    + intros i M0 (Hi & Hp) Hlt. split; [apply add_small; lia|].
      destruct (blocks_row i M0) as (M1 & Hrun1 & Hp1); [lia|exact Hp|].
      cbv zeta in Hrun1. rewrite Hrun1.
      destruct (tail_row i M1) as (M'' & Hrun & Hp''); [lia|exact Hp1|].
      exists M''. split; [exact Hrun|]. split; [lia|exact Hp''].
    + split; [lia|]. apply progress_start; assumption.
    + lia.
    + exists M'. split; [exact Hrun|].
      assert (x' = m) by lia. subst x'. now apply progress_finish.
Qed.

End VectorizedKernel.

(** *** Construction of views and element access *)

Section ViewConstruction.
Context {T : Type} `{ET : ElementTraits T}.

(** In-bounds parameters are accepted. *)
Lemma ctor_in_bounds (h : heap T) a row column m n :
  SizeT.in_range (DenseMatrix.rows (h a)) ->
  SizeT.in_range (DenseMatrix.columns (h a)) ->
  0 <= row -> 0 <= column -> 0 <= m -> 0 <= n ->
  row + m <= DenseMatrix.rows (h a) ->
  column + n <= DenseMatrix.columns (h a) ->
  exists sm,
    DenseSubmatrix.ctor h a row column m n = Returns sm /\
    DenseSubmatrix.matrix_ sm = a /\
    DenseSubmatrix.row_ sm = row /\ DenseSubmatrix.column_ sm = column /\
    DenseSubmatrix.m_ sm = m /\ DenseSubmatrix.n_ sm = n /\
    (0 < IT_size -> ViewSpec.valid (h a) sm).
Proof.
  intros [_ Hr] [_ Hc] H1 H2 H3 H4 H5 H6. unfold DenseSubmatrix.ctor.
  rewrite (add_small row m), (add_small column n) by lia.
  replace (DenseMatrix.rows (h a) <? row + m) with false
    by (symmetry; apply Z.ltb_ge; lia).
  replace (DenseMatrix.columns (h a) <? column + n) with false
    by (symmetry; apply Z.ltb_ge; lia).
  simpl. eexists. split; [reflexivity|]. simpl.
  repeat (split; [reflexivity|]).
  intros HW. unfold ViewSpec.valid. simpl.
  repeat (split; [assumption|]).
  split; [reflexivity|]. split; [|reflexivity].
  unfold SizeT.rem.
  pose proof (Z.mod_pos_bound n IT_size HW).
  pose proof (Z.mod_le n IT_size H4 HW).
  apply sub_small; lia.
Qed.

(** Out-of-bounds parameters are rejected when the sums do not wrap. *)
Lemma ctor_out_of_bounds (h : heap T) a row column m n :
  0 <= row -> 0 <= column -> 0 <= m -> 0 <= n ->
  row + m < SizeT.modulus -> column + n < SizeT.modulus ->
  DenseMatrix.rows (h a) < row + m \/ DenseMatrix.columns (h a) < column + n ->
  DenseSubmatrix.ctor h a row column m n = Throws "Invalid submatrix specification".
Proof.
  intros H1 H2 H3 H4 H5 H6 Hout. unfold DenseSubmatrix.ctor.
  rewrite (add_small row m), (add_small column n) by lia.
  destruct Hout as [Hout|Hout].
  - replace (DenseMatrix.rows (h a) <? row + m) with true
      by (symmetry; apply Z.ltb_lt; lia). reflexivity.
  - replace (DenseMatrix.columns (h a) <? column + n) with true
      by (symmetry; apply Z.ltb_lt; lia). now rewrite orb_true_r.
Qed.

End ViewConstruction.

(** C1: a view built with in-bounds parameters reports the requested shape,
    and its element [(i,j)] is element [(row+i, column+j)] of the matrix; on
    the 10x10 matrix with [A(i,j) = i*10+j], [submatrix(A,2,3,4,4)] has 4
    rows, 4 columns, 23 at (0,0) and 56 at (3,3). *)
Theorem submatrix_element_access :
  (forall (T : Type) (ET : ElementTraits T) (h : heap T) a row column m n,
      SizeT.in_range (DenseMatrix.rows (h a)) ->
      SizeT.in_range (DenseMatrix.columns (h a)) ->
      0 <= row -> 0 <= column -> 0 <= m -> 0 <= n ->
      row + m <= DenseMatrix.rows (h a) ->
      column + n <= DenseMatrix.columns (h a) ->
      exists sm,
        DenseSubmatrix.submatrix h a row column m n = Returns sm /\
        DenseSubmatrix.rows sm = m /\ DenseSubmatrix.columns sm = n /\
        forall i j, 0 <= i < m -> 0 <= j < n ->
          DenseSubmatrix.get h sm i j = DenseMatrix.get (h a) (row + i) (column + j)) /\
  (exists sm,
      DenseSubmatrix.submatrix heap_A10 0%nat 2 3 4 4 = Returns sm /\
      DenseSubmatrix.rows sm = 4 /\ DenseSubmatrix.columns sm = 4 /\
      DenseSubmatrix.get heap_A10 sm 0 0 = 23 /\
      DenseSubmatrix.get heap_A10 sm 3 3 = 56).
Proof.
  split.
  - intros T ET h a row column m n Hr Hc H1 H2 H3 H4 H5 H6.
    destruct (ctor_in_bounds h a row column m n Hr Hc H1 H2 H3 H4 H5 H6)
      as (sm & Hsm & Ha & Hrow & Hcol & Hm & Hn & _).
    exists sm. split; [exact Hsm|]. split; [exact Hm|]. split; [exact Hn|].
    intros i j Hi Hj. unfold DenseSubmatrix.get. rewrite Ha, Hrow, Hcol.
    destruct Hr as [_ Hr]. destruct Hc as [_ Hc].
    rewrite (add_small row i), (add_small column j) by lia. reflexivity.
  - eexists. split; [reflexivity|]. repeat split.
Qed.

(** The general part of C1 at a 3x6 view that touches the right edge. *)
Lemma submatrix_element_access_witness :
  exists sm,
    DenseSubmatrix.submatrix heap_A10 0%nat 1 4 3 6 = Returns sm /\
    DenseSubmatrix.rows sm = 3 /\ DenseSubmatrix.columns sm = 6 /\
    forall i j, 0 <= i < 3 -> 0 <= j < 6 ->
      DenseSubmatrix.get heap_A10 sm i j = DenseMatrix.get (heap_A10 0%nat) (1 + i) (4 + j).
Proof.
  apply (proj1 submatrix_element_access Z int_traits heap_A10 0%nat 1 4 3 6);
    unfold SizeT.in_range, SizeT.modulus; simpl; lia.
Defined.

(** C4, evaluated where it fails: the first row is [SIZE_MAX] and two rows
    are requested of a matrix with ten rows; [row + m] wraps around to 1, no
    exception is thrown and the view starts at row [SIZE_MAX]. *)
Theorem ctor_accepts_wrapped_bounds :
  SIZE_MAX + 2 > DenseMatrix.rows (heap_A10 0%nat) /\
  DenseSubmatrix.submatrix heap_A10 0%nat SIZE_MAX 0 2 4 =
  Returns (DenseSubmatrix.mk 0%nat SIZE_MAX 0 2 4 0 4 true).
Proof. split; reflexivity. Qed.



(** *** The two dense assignment kernels *)

#[export] Instance int_laws : ElementLaws Z.
Proof.
  split.
  - exists 2. split; [lia|reflexivity].
  - intros x. simpl. apply Z.eqb_eq.
Qed.

Lemma as_source_ok {T : Type} `{ET : ElementTraits T} self (M : DenseMatrix.t T) :
  ViewSpec.source_ok (DenseMatrix.as_source self M).
Proof.
  intros i j k _ _ _ _. simpl.
  unfold DenseMatrix.load, DenseMatrix.loadu, DenseMatrix.get.
  f_equal. lia.
Qed.

Lemma updated_agree {T : Type} `{ET : ElementTraits T}
      (sm : DenseSubmatrix.t) (f g : Z -> Z -> T) (M M1 M2 : DenseMatrix.t T) :
  ViewSpec.updated sm f M M1 -> ViewSpec.updated sm g M M2 ->
  (forall r c, ViewSpec.covers sm r c -> f r c = g r c) ->
  forall r c, 0 <= c < DenseMatrix.columns M ->
              DenseMatrix.get M1 r c = DenseMatrix.get M2 r c.
Proof.
  intros (_ & _ & _ & H1) (_ & _ & _ & H2) Hfg r c Hc.
  destruct (H1 r c Hc) as [H1a H1b]. destruct (H2 r c Hc) as [H2a H2b].
  assert (Hdec : ViewSpec.covers sm r c \/ ~ ViewSpec.covers sm r c).
  { unfold ViewSpec.covers. lia. }
  destruct Hdec as [Hin|Hout].
  - rewrite H1a, H2a by assumption. now apply Hfg.
  - rewrite H1b, H2b by assumption. reflexivity.
Qed.

(** C3: on a shape-matched dense operand of the same storage order the
    intrinsic assignment kernel (whichever of its two branches runs) and
    the default kernel both finish, and leave the same matrix elements:
    element [(i,j)] of the view is element [(i,j)] of the operand and all
    other elements are unchanged. *)
Theorem assign_kernels_agree {T : Type} `{ET : ElementTraits T} `{EL : !ElementLaws T}
        (cacheSize : Z) (M : DenseMatrix.t T) (sm : DenseSubmatrix.t)
        (rhs : DenseSource T) (fuel : nat) :
  DenseMatrix.wf M ->
  ViewSpec.valid M sm ->
  src_rows rhs = DenseSubmatrix.rows sm ->
  src_columns rhs = DenseSubmatrix.columns sm ->
  ViewSpec.source_ok rhs ->
  (Z.to_nat (Z.max (DenseSubmatrix.rows sm) (DenseSubmatrix.columns sm)) <= fuel)%nat ->
  exists Mv Md,
    DenseSubmatrix.assign_vectorized cacheSize fuel sm rhs M = Some Mv /\
    DenseSubmatrix.assign_default fuel sm rhs M = Some Md /\
    ViewSpec.updated sm (ViewSpec.image sm (src_get rhs)) M Mv /\
    ViewSpec.updated sm (ViewSpec.image sm (src_get rhs)) M Md /\
    forall r c, 0 <= r < DenseMatrix.rows M -> 0 <= c < DenseMatrix.columns M ->
                DenseMatrix.get Mv r c = DenseMatrix.get Md r c.
Proof.
  intros Hwf Hvalid Hrows Hcols Hsrc Hfuel.
  destruct (assign_vectorized_spec cacheSize M sm rhs Hwf Hvalid Hrows Hcols Hsrc fuel Hfuel)
    as (Mv & Hv & Huv).
  assert (HW : 0 < IT_size).
  { destruct IT_size_pow2 as (k & Hk & ->). apply Z.pow_pos_nonneg; lia. }
  destruct (update_default_spec (fun _ x => x) M sm rhs Hwf Hvalid fuel Hfuel)
    as (Md & Hd & Hud).
  exists Mv, Md. split; [exact Hv|]. split; [exact Hd|]. split; [exact Huv|].
  split; [exact Hud|].
  intros r c _ Hc. eapply updated_agree; eauto. 
Qed.

Lemma A10_wf : DenseMatrix.wf A10.
Proof.
  unfold DenseMatrix.wf, SizeT.in_range, SizeT.modulus. simpl.
  repeat split; try lia.
Qed.

Lemma view_edge_valid : ViewSpec.valid A10 view_edge.
Proof. unfold ViewSpec.valid. simpl. repeat split; lia. Qed.

(** The two kernels on the 3x6 view of [A10] that touches the right edge,
    with the 3x6 matrix [C36] as operand. *)
Lemma assign_kernels_agree_witness :
  exists Mv Md,
    DenseSubmatrix.assign_vectorized cacheSize_default 6 view_edge
      (DenseMatrix.as_source None C36) A10 = Some Mv /\
    DenseSubmatrix.assign_default 6 view_edge (DenseMatrix.as_source None C36) A10 = Some Md /\
    ViewSpec.updated view_edge
      (ViewSpec.image view_edge (src_get (DenseMatrix.as_source None C36))) A10 Mv /\
    ViewSpec.updated view_edge
      (ViewSpec.image view_edge (src_get (DenseMatrix.as_source None C36))) A10 Md /\
    forall r c, 0 <= r < DenseMatrix.rows A10 -> 0 <= c < DenseMatrix.columns A10 ->
                DenseMatrix.get Mv r c = DenseMatrix.get Md r c.
Proof.
  apply (assign_kernels_agree cacheSize_default A10 view_edge
           (DenseMatrix.as_source None C36) 6).
  - exact A10_wf.
  - exact view_edge_valid.
  - reflexivity.
  - reflexivity.
  - apply as_source_ok.
  - simpl. lia.
Defined.

(** *** The shape test of the assignment operators *)

Lemma finish_never_throws {T : Type} `{ET : ElementTraits T}
      (h : heap T) a r what :
  snd (DenseSubmatrix.finish h a r) <> Throws what.
Proof. destruct r; simpl; discriminate. Qed.

Section ShapeCheck.
Context {T : Type} `{ET : ElementTraits T}.
Variable cacheSize : Z.
Variable junk : IntrinsicType T.
Variable fuel : nat.
Variable this : DenseSubmatrix.t.
Variable rhs : DenseSubmatrix.Rhs T.
Variable h : heap T.

Lemma shape_test :
  negb (DenseSubmatrix.rows this =? DenseSubmatrix.rhs_rows h rhs) ||
  negb (DenseSubmatrix.columns this =? DenseSubmatrix.rhs_columns h rhs) = true
  <-> shape_mismatch this rhs h.
Proof.
  unfold shape_mismatch. rewrite orb_true_iff, !negb_true_iff, !Z.eqb_neq. tauto.
Qed.

(** [operator=( const Matrix& )], [operator+=] and [operator-=] test the
    shape before anything else: on a mismatch they throw and the heap is
    the one they were given; on a match they do not throw. *)
Lemma shape_checked_first :
  (shape_mismatch this rhs h ->
   DenseSubmatrix.assign_op cacheSize junk fuel this rhs h =
     (h, Throws "Matrix sizes do not match") /\
   DenseSubmatrix.add_assign_op junk fuel this rhs h =
     (h, Throws "Matrix sizes do not match") /\
   DenseSubmatrix.sub_assign_op junk fuel this rhs h =
     (h, Throws "Matrix sizes do not match")) /\
  (~ shape_mismatch this rhs h ->
   forall what,
     snd (DenseSubmatrix.assign_op cacheSize junk fuel this rhs h) <> Throws what /\
     snd (DenseSubmatrix.add_assign_op junk fuel this rhs h) <> Throws what /\
     snd (DenseSubmatrix.sub_assign_op junk fuel this rhs h) <> Throws what).
Proof.
  unfold DenseSubmatrix.assign_op, DenseSubmatrix.add_assign_op,
    DenseSubmatrix.sub_assign_op.
  destruct (negb (DenseSubmatrix.rows this =? DenseSubmatrix.rhs_rows h rhs) ||
            negb (DenseSubmatrix.columns this =? DenseSubmatrix.rhs_columns h rhs))
    eqn:E.
  - split; [intros _; repeat split|].
    intros Hno. exfalso. apply Hno. now apply shape_test.
  - split.
    + intros Hmis. apply shape_test in Hmis. congruence.
    + intros _ what.
      repeat split;
        repeat match goal with |- context [if ?b then _ else _] => destruct b end;
        apply finish_never_throws.
Qed.

End ShapeCheck.

(** C5, evaluated where it fails: the copy assignment between two views
    that start at the same element of the same matrix and differ in shape
    returns before the shape test; nothing is thrown. *)
Theorem copy_assign_skips_shape_check :
  DenseSubmatrix.rows view_2x2 <> DenseSubmatrix.rows view_3x3 /\
  DenseSubmatrix.columns view_2x2 <> DenseSubmatrix.columns view_3x3 /\
  DenseSubmatrix.copy_assign cacheSize_default junk0 3 view_2x2 view_3x3 heap_A10
    = (heap_A10, Returns tt).
Proof. split; [discriminate|]. split; [discriminate|]. reflexivity. Qed.

(** *** Assignment between views of one matrix *)

Section ViewToView.
Context {T : Type} `{ET : ElementTraits T} `{EL : !ElementLaws T}.
Import ViewSpec RefSpec.

Lemma width_pos : 0 < IT_size.
Proof. destruct IT_size_pow2 as (k & Hk & ->). apply Z.pow_pos_nonneg; lia. Qed.

(** The dense dispatch of [blaze::assign]: whichever kernel the traits pick
    finishes and assigns the operand. *)
Lemma assign_dense_spec cacheSize fuel (M : DenseMatrix.t T) sm rhs :
  DenseMatrix.wf M -> valid M sm ->
  src_rows rhs = DenseSubmatrix.rows sm ->
  src_columns rhs = DenseSubmatrix.columns sm ->
  source_ok rhs ->
  (Z.to_nat (Z.max (DenseSubmatrix.rows sm) (DenseSubmatrix.columns sm)) <= fuel)%nat ->
  exists M', DenseSubmatrix.assign cacheSize fuel sm (DenseSubmatrix.Apart (Dense rhs)) M
               = Some M' /\
             updated sm (image sm (src_get rhs)) M M'.
Proof.
  intros Hwf Hvalid Hrows Hcols Hsrc Hfuel.
  unfold DenseSubmatrix.assign, DenseSubmatrix.assign_dense.
  destruct (IsVectorizable && src_vectorizable rhs).
  - exact (assign_vectorized_spec cacheSize M sm rhs Hwf Hvalid Hrows Hcols Hsrc fuel Hfuel).
  - exact (update_default_spec (fun _ x => x) M sm rhs Hwf Hvalid fuel Hfuel).
Qed.

Lemma reference_updated (M : DenseMatrix.t T) dst src :
  DenseMatrix.wf M -> valid M dst ->
  updated dst
    (image dst (fun i j => DenseMatrix.get M (DenseSubmatrix.row_ src + i)
                                             (DenseSubmatrix.column_ src + j)))
    M (assign_via_temporary dst src M).
Proof.
  intros Hwf Hvalid.
  pose proof Hvalid as (Hv1 & Hv2 & Hv3 & Hv4 & _).
  unfold assign_via_temporary. cbv zeta.
  apply progress_finish; [assumption|].
  match goal with |- progress _ ?f _ _ _ _ =>
    apply (for_range_ind (fun i M' => progress dst f M i 0 M'))
  end.
  - lia.
  - now apply progress_start.
  - intros i M' Hi Hp.
    apply progress_next_row with (x := DenseSubmatrix.n_ dst); try assumption; try lia.
    match goal with |- progress _ ?f _ _ _ _ =>
      apply (for_range_ind (fun j M'' => progress dst f M i j M''))
    end.
    + lia.
    + exact Hp.
    + intros j M'' Hj Hp'. apply progress_set; try assumption.
      unfold image. f_equal; lia.
Qed.

Lemma temporary_get (rhs : DenseSource T) i j :
  0 <= j < src_columns rhs ->
  DenseMatrix.get (DenseMatrix.temporary rhs) i j = src_get rhs i j.
Proof.
  intros Hj. pose proof width_pos as HW.
  unfold DenseMatrix.get, DenseMatrix.temporary. simpl.
  set (n := src_columns rhs) in *.
  set (nn := n + (IT_size - n mod IT_size) mod IT_size).
  pose proof (Z.mod_pos_bound (IT_size - n mod IT_size) IT_size HW).
  assert (Hnn : 0 <= j < nn) by (unfold nn; lia).
  assert (Hmod : (i * nn + j) mod nn = j).
  { rewrite Z.add_comm, Z.mod_add by lia. apply Z.mod_small. lia. }
  assert (Hdiv : (i * nn + j) / nn = i).
  { rewrite Z.add_comm, Z.div_add by lia. rewrite Z.div_small by lia. lia. }
  rewrite Hmod, Hdiv.
  replace (j <? n) with true by (symmetry; apply Z.ltb_lt; lia).
  reflexivity.
Qed.

Variable cacheSize : Z.
Variable junk : IntrinsicType T.
Variable fuel : nat.
Variable h : heap T.
Variables dst src : DenseSubmatrix.t.

Hypothesis Hsame : DenseSubmatrix.matrix_ src = DenseSubmatrix.matrix_ dst.
Hypothesis Hwf : DenseMatrix.wf (h (DenseSubmatrix.matrix_ dst)).
Hypothesis Hdst : valid (h (DenseSubmatrix.matrix_ dst)) dst.
Hypothesis Hsrc : valid (h (DenseSubmatrix.matrix_ dst)) src.
Hypothesis Hrows : DenseSubmatrix.rows dst = DenseSubmatrix.rows src.
Hypothesis Hcols : DenseSubmatrix.columns dst = DenseSubmatrix.columns src.
Hypothesis Hfuel :
  (Z.to_nat (Z.max (DenseSubmatrix.rows dst) (DenseSubmatrix.columns dst)) <= fuel)%nat.

Local Abbreviation a := (DenseSubmatrix.matrix_ dst).
Local Abbreviation M := (h (DenseSubmatrix.matrix_ dst)).

(** The temporary of the source view holds, where the destination reads
    it, the elements of the reference's temporary. *)
Lemma temporary_image r c :
  covers dst r c ->
  image dst (src_get (DenseMatrix.as_source None
                        (DenseMatrix.temporary (DenseSubmatrix.as_source junk src M)))) r c =
  image dst (fun i j => DenseMatrix.get M (DenseSubmatrix.row_ src + i)
                                          (DenseSubmatrix.column_ src + j)) r c.
Proof.
  intros [Hr Hc]. unfold image.
  unfold DenseSubmatrix.rows, DenseSubmatrix.columns in *.
  change (src_get (DenseMatrix.as_source None ?X)) with (DenseMatrix.get X).
  rewrite temporary_get
    by (change (src_columns (DenseSubmatrix.as_source junk src M))
          with (DenseSubmatrix.n_ src); lia).
  change (src_get (DenseSubmatrix.as_source junk src M) ?i ?j)
    with (DenseMatrix.get M (DenseSubmatrix.row_ src +! i) (DenseSubmatrix.column_ src +! j)).
  destruct (view_bounds M src Hwf Hsrc) as (B1 & B2 & B3 & B4 & B5 & B6 & B7 & B8).
  rewrite !add_small by lia. reflexivity.
Qed.

Lemma via_temporary_completes :
  completes_with h a (assign_via_temporary dst src M)
    (DenseSubmatrix.finish h a
       (DenseSubmatrix.assign cacheSize fuel dst
          (DenseSubmatrix.rhs_temporary junk h (DenseSubmatrix.OfSubmatrix src)) M)).
Proof.
  unfold DenseSubmatrix.rhs_temporary. rewrite Hsame.
  destruct (assign_dense_spec cacheSize fuel M dst
              (DenseMatrix.as_source None
                 (DenseMatrix.temporary (DenseSubmatrix.as_source junk src M))))
    as (M' & Hrun & Hup); try assumption.
  - simpl. symmetry. exact Hrows.
  - simpl. symmetry. exact Hcols.
  - apply as_source_ok.
  - rewrite Hrun. simpl.
    pose proof Hup as (Hm & Hn & Hnn & _).
    unfold completes_with, heap_upd. simpl. rewrite Nat.eqb_refl.
    split; [reflexivity|]. split.
    { intros b Hb. apply Nat.eqb_neq in Hb. now rewrite Hb. }
    split; [exact Hm|]. split; [exact Hn|]. split; [exact Hnn|].
    intros r c _ Hc.
    eapply updated_agree; [exact Hup|apply reference_updated; assumption| |exact Hc].
    intros r' c' Hcov. now apply temporary_image.
Qed.

Lemma copy_assign_same_origin :
  DenseSubmatrix.row_ dst = DenseSubmatrix.row_ src ->
  DenseSubmatrix.column_ dst = DenseSubmatrix.column_ src ->
  completes_with h a (assign_via_temporary dst src M) (h, Returns tt).
Proof.
  intros Hr Hc. unfold completes_with. simpl.
  split; [reflexivity|]. split; [reflexivity|].
  split; [reflexivity|]. split; [reflexivity|]. split; [reflexivity|].
  intros r c _ Hcol.
  destruct (reference_updated M dst src Hwf Hdst) as (_ & _ & _ & Href).
  destruct (Href r c Hcol) as [Hin Hout].
  assert (Hdec : covers dst r c \/ ~ covers dst r c) by (unfold covers; lia).
  destruct Hdec as [Hcov|Hcov].
  - rewrite Hin by assumption. unfold image. rewrite <- Hr, <- Hc. f_equal; lia.
  - now rewrite Hout.
Qed.

(** The temporary holds the elements that the source view has before the
    kernel starts. *)
Lemma temporary_elements i j :
  0 <= i < DenseSubmatrix.rows src -> 0 <= j < DenseSubmatrix.columns src ->
  src_get (DenseMatrix.as_source None
             (DenseMatrix.temporary (DenseSubmatrix.as_source junk src M))) i j
  = DenseSubmatrix.get h src i j.
Proof.
  clear Hwf Hdst Hsrc Hrows Hcols Hfuel.
  intros Hi Hj. unfold DenseSubmatrix.rows, DenseSubmatrix.columns in *.
  change (src_get (DenseMatrix.as_source None ?X)) with (DenseMatrix.get X).
  rewrite temporary_get
    by (change (src_columns (DenseSubmatrix.as_source junk src M))
          with (DenseSubmatrix.n_ src); lia).
  unfold DenseSubmatrix.get. rewrite Hsame. reflexivity.
Qed.

End ViewToView.

(** C2: an assignment between two shape-matched views of one matrix, by the
    copy assignment or by the assignment from a matrix, returns normally and
    leaves the elements that copying the source into an independent
    temporary and assigning the temporary element by element leaves, however
    the two views overlap; the source can alias, and whenever the operator
    writes, its kernel starts on the untouched matrix and reads an operand
    in storage of its own that holds the elements the source had before. *)
Theorem aliased_assignment_via_temporary
        {T : Type} `{ET : ElementTraits T} `{EL : !ElementLaws T}
        (cacheSize : Z) (junk : IntrinsicType T) (fuel : nat) (h : heap T)
        (dst src : DenseSubmatrix.t) :
  DenseSubmatrix.matrix_ src = DenseSubmatrix.matrix_ dst ->
  DenseMatrix.wf (h (DenseSubmatrix.matrix_ dst)) ->
  ViewSpec.valid (h (DenseSubmatrix.matrix_ dst)) dst ->
  ViewSpec.valid (h (DenseSubmatrix.matrix_ dst)) src ->
  DenseSubmatrix.rows dst = DenseSubmatrix.rows src ->
  DenseSubmatrix.columns dst = DenseSubmatrix.columns src ->
  (Z.to_nat (Z.max (DenseSubmatrix.rows dst) (DenseSubmatrix.columns dst)) <= fuel)%nat ->
  let a := DenseSubmatrix.matrix_ dst in
  let reference := RefSpec.assign_via_temporary dst src (h a) in
  RefSpec.completes_with h a reference
    (DenseSubmatrix.copy_assign cacheSize junk fuel dst src h) /\
  RefSpec.completes_with h a reference
    (DenseSubmatrix.assign_op cacheSize junk fuel dst (DenseSubmatrix.OfSubmatrix src) h) /\
  DenseSubmatrix.canAlias src a = true /\
  exists tmp : DenseSource T,
    (forall i j, 0 <= i < DenseSubmatrix.rows src -> 0 <= j < DenseSubmatrix.columns src ->
                 src_get tmp i j = DenseSubmatrix.get h src i j) /\
    src_isAliased tmp a = false /\
    DenseSubmatrix.assign_op cacheSize junk fuel dst (DenseSubmatrix.OfSubmatrix src) h
      = DenseSubmatrix.finish h a
          (DenseSubmatrix.assign cacheSize fuel dst
             (DenseSubmatrix.Apart (Dense tmp)) (h a)) /\
    (DenseSubmatrix.copy_assign cacheSize junk fuel dst src h
       = DenseSubmatrix.finish h a
           (DenseSubmatrix.assign cacheSize fuel dst
              (DenseSubmatrix.Apart (Dense tmp)) (h a)) \/
     DenseSubmatrix.copy_assign cacheSize junk fuel dst src h = (h, Returns tt)).
Proof.
  intros Hsame Hwf Hdst Hsrc Hrows Hcols Hfuel a reference.
  set (tmp := DenseMatrix.as_source None
                (DenseMatrix.temporary (DenseSubmatrix.as_source junk src (h a)))).
  set (on_temporary :=
         DenseSubmatrix.finish h a
           (DenseSubmatrix.assign cacheSize fuel dst
              (DenseSubmatrix.Apart (Dense tmp)) (h a))).
  assert (Htemp : DenseSubmatrix.rhs_temporary junk h (DenseSubmatrix.OfSubmatrix src)
                  = DenseSubmatrix.Apart (Dense tmp)).
  { unfold DenseSubmatrix.rhs_temporary, tmp, a. rewrite Hsame. reflexivity. }
  assert (Halias : DenseSubmatrix.canAlias src a = true).
  { unfold DenseSubmatrix.canAlias. rewrite Hsame. apply Nat.eqb_refl. }
  assert (Heq : Nat.eqb (DenseSubmatrix.matrix_ dst) (DenseSubmatrix.matrix_ src) = true).
  { rewrite Hsame. apply Nat.eqb_refl. }
  assert (Hshape :
    negb (DenseSubmatrix.rows dst =? DenseSubmatrix.rows src) ||
    negb (DenseSubmatrix.columns dst =? DenseSubmatrix.columns src) = false).
  { rewrite Hrows, Hcols, !Z.eqb_refl. reflexivity. }
  assert (Hop : DenseSubmatrix.assign_op cacheSize junk fuel dst
                  (DenseSubmatrix.OfSubmatrix src) h = on_temporary).
  { unfold DenseSubmatrix.assign_op.
    cbn [DenseSubmatrix.rhs_rows DenseSubmatrix.rhs_columns
         DenseSubmatrix.rhs_IsSparseMatrix DenseSubmatrix.rhs_canAlias].
    rewrite Hshape. fold a. rewrite Halias. cbv zeta. rewrite Htemp. reflexivity. }
  assert (Htmp : RefSpec.completes_with h a reference on_temporary).
  { unfold on_temporary. rewrite <- Htemp. apply via_temporary_completes; assumption. }
  assert (Hcopy :
    (DenseSubmatrix.copy_assign cacheSize junk fuel dst src h = on_temporary) \/
    (DenseSubmatrix.copy_assign cacheSize junk fuel dst src h = (h, Returns tt) /\
     DenseSubmatrix.row_ dst = DenseSubmatrix.row_ src /\
     DenseSubmatrix.column_ dst = DenseSubmatrix.column_ src)).
  { unfold DenseSubmatrix.copy_assign. rewrite Heq, Hshape. fold a. rewrite Halias.
    cbv zeta. rewrite Htemp. fold on_temporary.
    destruct (DenseSubmatrix.row_ dst =? DenseSubmatrix.row_ src) eqn:Er;
      [destruct (DenseSubmatrix.column_ dst =? DenseSubmatrix.column_ src) eqn:Ec|].
    - right. apply Z.eqb_eq in Er, Ec. auto.
    - left. reflexivity.
    - left. reflexivity. }
  split; [|split; [|split]].
  - destruct Hcopy as [Hc|(Hc & Hr & Hcl)]; rewrite Hc.
    + exact Htmp.
    + eapply copy_assign_same_origin; eassumption.
  - rewrite Hop. exact Htmp.
  - exact Halias.
  - exists tmp. split; [|split; [reflexivity|split]].
    + intros i j Hi Hj. apply temporary_elements; assumption.
    + exact Hop.
    + destruct Hcopy as [Hc|(Hc & _)]; auto.
Qed.

Lemma view_dst_valid : ViewSpec.valid A10 view_dst.
Proof. unfold ViewSpec.valid. simpl. repeat split; lia. Qed.

Lemma view_src_valid : ViewSpec.valid A10 view_src.
Proof. unfold ViewSpec.valid. simpl. repeat split; lia. Qed.

Lemma view_dst_fuel :
  (Z.to_nat (Z.max (DenseSubmatrix.rows view_dst) (DenseSubmatrix.columns view_dst)) <= 4)%nat.
Proof. simpl. lia. Qed.

(** [submatrix(A,0,0,4,4) = submatrix(A,1,1,4,4)] on the 10x10 matrix. *)
Lemma aliased_assignment_via_temporary_witness :
  RefSpec.completes_with heap_A10 0%nat
    (RefSpec.assign_via_temporary view_dst view_src A10)
    (DenseSubmatrix.copy_assign cacheSize_default junk0 4 view_dst view_src heap_A10) /\
  RefSpec.completes_with heap_A10 0%nat
    (RefSpec.assign_via_temporary view_dst view_src A10)
    (DenseSubmatrix.assign_op cacheSize_default junk0 4 view_dst
       (DenseSubmatrix.OfSubmatrix view_src) heap_A10) /\
  DenseSubmatrix.canAlias view_src 0%nat = true /\
  exists tmp : DenseSource Z,
    (forall i j, 0 <= i < DenseSubmatrix.rows view_src ->
                 0 <= j < DenseSubmatrix.columns view_src ->
                 src_get tmp i j = DenseSubmatrix.get heap_A10 view_src i j) /\
    src_isAliased tmp 0%nat = false /\
    DenseSubmatrix.assign_op cacheSize_default junk0 4 view_dst
      (DenseSubmatrix.OfSubmatrix view_src) heap_A10
      = DenseSubmatrix.finish heap_A10 0%nat
          (DenseSubmatrix.assign cacheSize_default 4 view_dst
             (DenseSubmatrix.Apart (Dense tmp)) A10) /\
    (DenseSubmatrix.copy_assign cacheSize_default junk0 4 view_dst view_src heap_A10
       = DenseSubmatrix.finish heap_A10 0%nat
           (DenseSubmatrix.assign cacheSize_default 4 view_dst
              (DenseSubmatrix.Apart (Dense tmp)) A10) \/
     DenseSubmatrix.copy_assign cacheSize_default junk0 4 view_dst view_src heap_A10
       = (heap_A10, Returns tt)).
Proof.
  exact (aliased_assignment_via_temporary cacheSize_default junk0 4 heap_A10
           view_dst view_src eq_refl A10_wf view_dst_valid view_src_valid
           eq_refl eq_refl view_dst_fuel).
Defined.

(** Why the temporary is needed: the kernel reads its operand while it
    writes. Run on the source view itself, [submatrix(A,1,1,4,4) =
    submatrix(A,0,0,4,4)] copies row 0 of the source into row 1 of the
    matrix and then reads row 1 of the source from there: element [(2,2)]
    of the matrix receives the old [(0,0)] and not the old [(1,1)] that the
    reference, and the operator, leave there. *)
Lemma assign_in_place_differs :
  exists M',
    DenseSubmatrix.assign cacheSize_default 4 view_src
      (DenseSubmatrix.rhs_operand junk0 heap_A10 0%nat (DenseSubmatrix.OfSubmatrix view_dst))
      A10 = Some M' /\
    DenseMatrix.get M' 2 2 = DenseMatrix.get A10 0 0 /\
    DenseMatrix.get (RefSpec.assign_via_temporary view_src view_dst A10) 2 2
      = DenseMatrix.get A10 1 1 /\
    DenseMatrix.get A10 0 0 <> DenseMatrix.get A10 1 1.
Proof.
  eexists. split; [reflexivity|].
  split; [vm_compute; reflexivity|]. split; [vm_compute; reflexivity|].
  vm_compute. discriminate.
Qed.

(** *** Assignment of a sparse matrix *)

Lemma find_snoc {A : Type} (p : A -> bool) (l : list A) (x : A) :
  find p (l ++ [x]) =
  match find p l with
  | Some y => Some y
  | None => if p x then Some x else None
  end.
Proof.
  induction l as [|y l IH]; simpl; [reflexivity|].
  destruct (p y); [reflexivity|exact IH].
Qed.

Section SparseKernel.
Context {T : Type} `{ET : ElementTraits T}.
Import ViewSpec SparseSpec.

Variable M : DenseMatrix.t T.
Variable sm : DenseSubmatrix.t.
Hypothesis Hwf : DenseMatrix.wf M.
Hypothesis Hvalid : valid M sm.

Local Abbreviation row := (DenseSubmatrix.row_ sm).
Local Abbreviation column := (DenseSubmatrix.column_ sm).
Local Abbreviation m := (DenseSubmatrix.m_ sm).
Local Abbreviation n := (DenseSubmatrix.n_ sm).

(** One line of the operand written into row [row+i]. *)
Lemma sparse_line_written i (line : list (Z * T)) :
  0 <= i < m ->
  (forall e, In e line -> 0 <= fst e < n) ->
  forall M0 : DenseMatrix.t T,
    DenseMatrix.nn_ M0 = DenseMatrix.nn_ M ->
    let M1 := fold_left (fun M' element =>
                DenseMatrix.set M' (row + i) (column +! fst element) (snd element))
              line M0 in
    DenseMatrix.m_ M1 = DenseMatrix.m_ M0 /\
    DenseMatrix.n_ M1 = DenseMatrix.n_ M0 /\
    DenseMatrix.nn_ M1 = DenseMatrix.nn_ M0 /\
    forall r c, 0 <= c < DenseMatrix.columns M ->
      DenseMatrix.get M1 r c =
      if r =? row + i then
        match last_at line (c - column) with
        | Some e => snd e
        | None => DenseMatrix.get M0 r c
        end
      else DenseMatrix.get M0 r c.
Proof.
  destruct (view_bounds M sm Hwf Hvalid) as (B1 & B2 & B3 & B4 & B5 & B6 & B7 & B8).
  pose proof Hwf as (_ & (_ & Hn_nn) & _).
  intros Hi. induction line as [|e line IH]; intros Hidx M0 Hnn; simpl.
  - repeat split; try reflexivity. intros r c Hc. now destruct (r =? row + i).
  - assert (He : 0 <= fst e < n) by (apply Hidx; now left).
    rewrite (add_small column (fst e)) by lia.
    destruct (IH (fun e' H => Hidx e' (or_intror H))
                 (DenseMatrix.set M0 (row + i) (column + fst e) (snd e)) Hnn)
      as (Hm1 & Hn1 & Hnn1 & Hget).
    split; [exact Hm1|]. split; [exact Hn1|]. split; [exact Hnn1|].
    intros r c Hc. unfold DenseMatrix.columns in Hc.
    rewrite (Hget r c Hc). unfold last_at. simpl. rewrite find_snoc.
    fold (last_at line (c - column)).
    destruct (r =? row + i) eqn:Er.
    + apply Z.eqb_eq in Er. subst r.
      destruct (last_at line (c - column)); [reflexivity|].
      destruct (fst e =? c - column) eqn:Ec.
      * apply Z.eqb_eq in Ec. replace c with (column + fst e) by lia.
        apply get_set_same.
      * apply Z.eqb_neq in Ec. apply get_set_other; lia.
    + apply Z.eqb_neq in Er. apply get_set_other; lia.
Qed.


(** [reset()] sets every element of the view to [Type()]. *)
Lemma reset_updated :
  updated sm (fun _ _ => Type_default) M (DenseSubmatrix.reset sm M).
Proof.
  destruct (view_bounds M sm Hwf Hvalid) as (B1 & B2 & B3 & B4 & B5 & B6 & B7 & B8).
  pose proof Hwf as (_ & (_ & Hn_nn) & _).
  unfold DenseSubmatrix.reset. cbv zeta.
  rewrite (add_small row m), (add_small column n) by lia.
  apply progress_finish; [assumption|].
  replace m with (row + m - row) at 1 by lia.
  apply (for_range_ind
           (fun i M' => progress sm (fun _ _ => Type_default) M (i - row) 0 M')).
  - lia.
  - rewrite Z.sub_diag. now apply progress_start.
  - intros i M' Hi Hp.
    replace (i + 1 - row) with (i - row + 1) by lia.
    apply progress_next_row with (x := n); try assumption; try lia.
    replace n with (column + n - column) at 1 by lia.
    apply (for_range_ind
             (fun j M'' => progress sm (fun _ _ => Type_default) M (i - row) (j - column) M'')).
    + lia.
    + now rewrite Z.sub_diag.
    + intros j M'' Hj Hp'.
      replace (j + 1 - column) with (j - column + 1) by lia.
      replace i with (row + (i - row)) at 2 by lia.
      replace j with (column + (j - column)) at 2 by lia.
      apply progress_set; try assumption; [lia|reflexivity].
Qed.

Variable sp : SparseMatrix T.
Hypothesis Hrows : sp_rows sp = m.
Hypothesis Hcols : sp_columns sp = n.
Hypothesis Hidx : indices_ok sp.
Variable fuel : nat.
Hypothesis Hfuel : (Z.to_nat m <= fuel)%nat.

(** [assign( const SparseMatrix<MT2,SO>& )]: the kernel finishes; in the
    rows of the view it leaves [sparse_cell], elsewhere it leaves [M]. *)
Lemma assign_sparse_spec :
  exists M',
    DenseSubmatrix.update_sparse (fun _ x => x) fuel sm sp M = Some M' /\
    DenseMatrix.m_ M' = DenseMatrix.m_ M /\
    DenseMatrix.n_ M' = DenseMatrix.n_ M /\
    DenseMatrix.nn_ M' = DenseMatrix.nn_ M /\
    forall r c, 0 <= c < DenseMatrix.columns M ->
      (row <= r < row + m -> DenseMatrix.get M' r c = sparse_cell sm sp M r c) /\
      (~ row <= r < row + m -> DenseMatrix.get M' r c = DenseMatrix.get M r c).
Proof.
  destruct (view_bounds M sm Hwf Hvalid) as (B1 & B2 & B3 & B4 & B5 & B6 & B7 & B8).
  unfold DenseSubmatrix.update_sparse.
  match goal with |- context [for_step fuel 0 m 1 ?body M] =>
    destruct (for_step_rule
      (fun i M0 =>
         0 <= i <= m /\
         DenseMatrix.m_ M0 = DenseMatrix.m_ M /\
         DenseMatrix.n_ M0 = DenseMatrix.n_ M /\
         DenseMatrix.nn_ M0 = DenseMatrix.nn_ M /\
         forall r c, 0 <= c < DenseMatrix.columns M ->
           (row <= r < row + i -> DenseMatrix.get M0 r c = sparse_cell sm sp M r c) /\
           (~ row <= r < row + i -> DenseMatrix.get M0 r c = DenseMatrix.get M r c))
      m 1 body) with (fuel := fuel) (j := 0) (s := M)
      as (x' & M' & Hrun & (Hx' & Hm' & Hn' & Hnn' & Hget) & Hge)
  end.
  - lia.
  - intros i M0 (Hi & Hm0 & Hn0 & Hnn0 & Hget0) Hlt.
    split; [apply add_small; lia|].
    eexists. split; [reflexivity|].
    rewrite (add_small row i) by lia. cbv beta.
    destruct (sparse_line_written i (sp_line sp i)) with (M0 := M0)
      as (Hm1 & Hn1 & Hnn1 & Hget1); try assumption; try lia.
    { intros e He. rewrite <- Hcols. apply (Hidx i); [lia|exact He]. }
    split; [lia|]. split; [congruence|]. split; [congruence|]. split; [congruence|].
    intros r c Hc. rewrite (Hget1 r c Hc).
    destruct (Hget0 r c Hc) as [Hin Hout].
    destruct (r =? row + i) eqn:Er.
    + apply Z.eqb_eq in Er. subst r. split; [|intros H; lia].
      intros _. unfold sparse_cell.
      replace (row + i - row) with i by lia.
      destruct (last_at (sp_line sp i) (c - column)); [reflexivity|].
      apply Hout. lia.
    + apply Z.eqb_neq in Er. split; intros Hr.
      * apply Hin. lia.
      * apply Hout. lia.
  - split; [lia|]. repeat (split; [reflexivity|]).
    intros r c Hc. split; [intros; lia|reflexivity].
  - lia.
  - assert (x' = m) by lia. subst x'.
    exists M'. repeat (split; [assumption|]). exact Hget.
Qed.

End SparseKernel.

Lemma NoDup_map_injective {A B : Type} (f : A -> B) (l : list A) x y :
  NoDup (map f l) -> In x l -> In y l -> f x = f y -> x = y.
Proof.
  induction l as [|a l IH]; simpl; intros Hnd Hx Hy Hf; [contradiction|].
  inversion Hnd as [|b l' Hnotin Hnd']; subst.
  destruct Hx as [Hx|Hx], Hy as [Hy|Hy]; subst.
  - reflexivity.
  - exfalso. apply Hnotin. rewrite Hf. now apply in_map.
  - exfalso. apply Hnotin. rewrite <- Hf. now apply in_map.
  - now apply IH.
Qed.

Lemma in_entries {T : Type} (sp : SparseMatrix T) i j v :
  In (i, j, v) (SparseSpec.entries sp) <->
  0 <= i < sp_rows sp /\ In (j, v) (sp_line sp i).
Proof.
  unfold SparseSpec.entries. rewrite in_flat_map. split.
  - intros (k & Hk & Hin). apply in_seq in Hk. apply in_map_iff in Hin.
    destruct Hin as (e & He & Hin). inversion He; subst.
    split; [lia|]. now destruct e.
  - intros (Hi & Hin). exists (Z.to_nat i). split.
    + apply in_seq. lia.
    + apply in_map_iff. exists (j, v). rewrite Z2Nat.id by lia. now split.
Qed.

(** C9: assigning a 4x4 sparse matrix with three explicit elements, at
    distinct positions and with values other than [Type()], to a 4x4 view
    returns normally; afterwards the view holds the value of each explicit
    element at its position and [Type()] at every other position, whatever
    the view held before. *)
Theorem sparse_assignment_4x4 {T : Type} `{ET : ElementTraits T}
        (cacheSize : Z) (junk : IntrinsicType T) (fuel : nat) (h : heap T)
        (sm : DenseSubmatrix.t) (sp : SparseMatrix T) :
  DenseMatrix.wf (h (DenseSubmatrix.matrix_ sm)) ->
  ViewSpec.valid (h (DenseSubmatrix.matrix_ sm)) sm ->
  DenseSubmatrix.rows sm = 4 -> DenseSubmatrix.columns sm = 4 ->
  sp_rows sp = 4 -> sp_columns sp = 4 ->
  List.length (SparseSpec.entries sp) = 3%nat ->
  NoDup (map SparseSpec.position (SparseSpec.entries sp)) ->
  (forall i j v, In (i, j, v) (SparseSpec.entries sp) ->
                 0 <= j < 4 /\ v <> Type_default) ->
  (4 <= fuel)%nat ->
  let result :=
    DenseSubmatrix.assign_op cacheSize junk fuel sm
      (DenseSubmatrix.OfOperand (Sparse sp)) h in
  snd result = Returns tt /\
  forall i j, 0 <= i < 4 -> 0 <= j < 4 ->
    (forall v, In (i, j, v) (SparseSpec.entries sp) ->
               DenseSubmatrix.get (fst result) sm i j = v /\
               DenseSubmatrix.get (fst result) sm i j <> Type_default) /\
    ((forall v, ~ In (i, j, v) (SparseSpec.entries sp)) ->
     DenseSubmatrix.get (fst result) sm i j = Type_default).
Proof.
  intros Hwf Hvalid Hm Hn Hsr Hsc Hlen Hnd Hent Hfuel result.
  unfold DenseSubmatrix.rows, DenseSubmatrix.columns in *.
  set (a := DenseSubmatrix.matrix_ sm) in *.
  set (M := h a) in *.
  set (R := DenseSubmatrix.reset sm M).
  pose proof (reset_updated M sm Hwf Hvalid) as HR. fold R in HR.
  pose proof HR as (HRm & HRn & HRnn & HRget).
  assert (HwfR : DenseMatrix.wf R).
  { unfold DenseMatrix.wf in *. rewrite HRm, HRn, HRnn. exact Hwf. }
  assert (HvalidR : ViewSpec.valid R sm).
  { unfold ViewSpec.valid, DenseMatrix.rows, DenseMatrix.columns in *.
    rewrite HRm, HRn. exact Hvalid. }
  assert (Hidx : SparseSpec.indices_ok sp).
  { intros i e Hi He. rewrite Hsc.
    apply (Hent i (fst e) (snd e)). apply in_entries. split; [exact Hi|].
    now destruct e. }
  assert (Hfuel' : (Z.to_nat (DenseSubmatrix.m_ sm) <= fuel)%nat) by lia.
  destruct (assign_sparse_spec R sm HwfR HvalidR sp
              (eq_trans Hsr (eq_sym Hm)) (eq_trans Hsc (eq_sym Hn)) Hidx fuel Hfuel')
    as (M' & Hrun & HM'm & HM'n & HM'nn & HM'get).
  assert (Hresult : result = (heap_upd (heap_upd h a R) a M', Returns tt)).
  { subst result. unfold DenseSubmatrix.assign_op.
    cbn [DenseSubmatrix.rhs_rows DenseSubmatrix.rhs_columns
         DenseSubmatrix.rhs_IsSparseMatrix DenseSubmatrix.rhs_canAlias
         DenseSubmatrix.rhs_operand operand_rows operand_columns
         operand_IsSparseMatrix].
    unfold DenseSubmatrix.rows, DenseSubmatrix.columns.
    rewrite Hm, Hn, Hsr, Hsc. cbn [Z.eqb Pos.eqb negb orb].
    fold a. fold M. fold R.
    unfold heap_upd at 2 3. rewrite Nat.eqb_refl.
    cbn [DenseSubmatrix.assign]. rewrite Hrun. reflexivity. }
  rewrite Hresult. cbn [fst snd]. split; [reflexivity|].
  intros i j Hi Hj.
  destruct (view_bounds M sm Hwf Hvalid) as (B1 & B2 & B3 & B4 & B5 & B6 & B7 & B8).
  unfold DenseSubmatrix.get. fold a. unfold heap_upd. rewrite Nat.eqb_refl.
  rewrite (add_small (DenseSubmatrix.row_ sm) i) by lia.
  rewrite (add_small (DenseSubmatrix.column_ sm) j) by lia.
  assert (Hc : 0 <= DenseSubmatrix.column_ sm + j < DenseMatrix.columns R).
  { unfold DenseMatrix.columns. rewrite HRn. lia. }
  destruct (HM'get (DenseSubmatrix.row_ sm + i) (DenseSubmatrix.column_ sm + j) Hc)
    as [Hcell _].
  rewrite Hcell by lia. unfold SparseSpec.sparse_cell, SparseSpec.last_at.
  replace (DenseSubmatrix.row_ sm + i - DenseSubmatrix.row_ sm) with i by lia.
  replace (DenseSubmatrix.column_ sm + j - DenseSubmatrix.column_ sm) with j by lia.
  destruct (find (fun e => fst e =? j) (rev (sp_line sp i))) as [e|] eqn:Efind.
  - apply find_some in Efind. destruct Efind as [Hin Hfst].
    apply in_rev in Hin. apply Z.eqb_eq in Hfst.
    assert (Hine : In (i, j, snd e) (SparseSpec.entries sp)).
    { apply in_entries. split; [lia|]. destruct e; simpl in *. now subst. }
    split.
    + intros v Hv.
      assert (Heq : (i, j, snd e) = (i, j, v)).
      { eapply NoDup_map_injective; [exact Hnd|exact Hine|exact Hv|reflexivity]. }
      injection Heq as Hv'. split; [exact Hv'|].
      rewrite Hv'. apply (Hent i j v Hv).
    + intros Hnone. exfalso. apply (Hnone (snd e)). exact Hine.
  - split.
    + intros v Hv. exfalso.
      apply in_entries in Hv. destruct Hv as [_ Hv].
      apply in_rev in Hv.
      pose proof (find_none _ _ Efind (j, v) Hv) as Hf.
      simpl in Hf. rewrite Z.eqb_refl in Hf. discriminate.
    + intros _.
      assert (Hc' : 0 <= DenseSubmatrix.column_ sm + j < DenseMatrix.columns M).
      { unfold DenseMatrix.columns. lia. }
      destruct (HRget (DenseSubmatrix.row_ sm + i) (DenseSubmatrix.column_ sm + j) Hc')
        as [Hcov _].
      apply Hcov. unfold ViewSpec.covers. lia.
Qed.

(** The sparse matrix [S3] assigned to [submatrix(A,2,3,4,4)]. *)
Lemma sparse_assignment_4x4_witness :
  snd (DenseSubmatrix.assign_op cacheSize_default junk0 4 view_4x4
         (DenseSubmatrix.OfOperand (Sparse S3)) heap_A10) = Returns tt /\
  forall i j, 0 <= i < 4 -> 0 <= j < 4 ->
    (forall v, In (i, j, v) (SparseSpec.entries S3) ->
       DenseSubmatrix.get
         (fst (DenseSubmatrix.assign_op cacheSize_default junk0 4 view_4x4
                 (DenseSubmatrix.OfOperand (Sparse S3)) heap_A10)) view_4x4 i j = v /\
       DenseSubmatrix.get
         (fst (DenseSubmatrix.assign_op cacheSize_default junk0 4 view_4x4
                 (DenseSubmatrix.OfOperand (Sparse S3)) heap_A10)) view_4x4 i j
       <> Type_default) /\
    ((forall v, ~ In (i, j, v) (SparseSpec.entries S3)) ->
     DenseSubmatrix.get
       (fst (DenseSubmatrix.assign_op cacheSize_default junk0 4 view_4x4
               (DenseSubmatrix.OfOperand (Sparse S3)) heap_A10)) view_4x4 i j
     = Type_default).
Proof.
  apply (sparse_assignment_4x4 cacheSize_default junk0 4 heap_A10 view_4x4 S3).
  - exact A10_wf.
  - unfold ViewSpec.valid. simpl. repeat split; lia.
  - reflexivity.
  - reflexivity.
  - reflexivity.
  - reflexivity.
  - reflexivity.
  - vm_compute.
    repeat (apply NoDup_cons; [simpl; intuition congruence|]). apply NoDup_nil.
  - intros i j v H. vm_compute in H.
    repeat (destruct H as [H|H];
            [injection H as Hi Hj Hv; subst i j v; split; [lia|discriminate]|]).
    destruct H.
  - lia.
Defined.

(** *** Rewriting a region of a matrix *)

Section RewrittenFacts.
Context {T : Type} `{ET : ElementTraits T}.
Import Rewritten.

Variable M : DenseMatrix.t T.
Hypothesis Hwf : DenseMatrix.wf M.
Variable f : Z -> Z -> T.

Lemma rewritten_start (D : Z -> Z -> Prop) :
  (forall r c, ~ D r c) -> rewritten D f M M.
Proof.
  intros HD. repeat (split; [reflexivity|]).
  intros r c _. split; [|reflexivity]. intros H. now apply HD in H.
Qed.

Lemma rewritten_weaken (D D' : Z -> Z -> Prop) M' :
  (forall r c, 0 <= c < DenseMatrix.columns M -> (D r c <-> D' r c)) ->
  rewritten D f M M' -> rewritten D' f M M'.
Proof.
  intros HD (Hm & Hn & Hnn & H). repeat (split; [assumption|]).
  intros r c Hc. destruct (H r c Hc) as [H1 H2]. specialize (HD r c Hc).
  split; intros Hd; [apply H1|apply H2]; tauto.
Qed.

Lemma rewritten_set (D D' : Z -> Z -> Prop) M' r0 c0 v :
  rewritten D f M M' ->
  0 <= c0 < DenseMatrix.columns M ->
  (forall r c, D' r c <-> D r c \/ (r = r0 /\ c = c0)) ->
  v = f r0 c0 ->
  rewritten D' f M (DenseMatrix.set M' r0 c0 v).
Proof.
  destruct Hwf as (_ & Hn_nn & _ & _).
  intros (Hm & Hn & Hnn & H) Hc0 HD Hv. unfold DenseMatrix.columns in *.
  repeat (split; [assumption|]).
  intros r c Hc. destruct (H r c Hc) as [H1 H2]. unfold DenseMatrix.columns in Hc. specialize (HD r c).
  destruct (Z.eq_dec r r0) as [Hr|Hr]; [destruct (Z.eq_dec c c0) as [Hc'|Hc']|].
  - subst r c. rewrite get_set_same. split; [intros _; exact Hv|]. intros Hd. tauto.
  - rewrite get_set_other by (rewrite ?Hnn; lia).
    split; intros Hd.
    + apply H1. apply HD in Hd. destruct Hd as [Hd|Hd]; [exact Hd|lia].
    + apply H2. intros Hd'. apply Hd. apply HD. now left.
  - rewrite get_set_other by (rewrite ?Hnn; lia).
    split; intros Hd.
    + apply H1. apply HD in Hd. destruct Hd as [Hd|Hd]; [exact Hd|lia].
    + apply H2. intros Hd'. apply Hd. apply HD. now left.
Qed.

Lemma rewritten_untouched (D : Z -> Z -> Prop) M' r c :
  rewritten D f M M' -> 0 <= c < DenseMatrix.columns M -> ~ D r c ->
  DenseMatrix.get M' r c = DenseMatrix.get M r c.
Proof. intros (_ & _ & _ & H) Hc Hd. now apply (H r c Hc). Qed.

End RewrittenFacts.

Section ElementLoops.
Context {T : Type} `{ET : ElementTraits T}.
Import ViewSpec Rewritten.

Variable M : DenseMatrix.t T.
Variable sm : DenseSubmatrix.t.
Hypothesis Hwf : DenseMatrix.wf M.
Hypothesis Hvalid : valid M sm.

Local Abbreviation row := (DenseSubmatrix.row_ sm).
Local Abbreviation column := (DenseSubmatrix.column_ sm).
Local Abbreviation m := (DenseSubmatrix.m_ sm).
Local Abbreviation n := (DenseSubmatrix.n_ sm).

(** One row of an element-wise loop over the view: every element of row [i]
    inside the view becomes [g] of what the matrix held. *)
Lemma map_row (g : T -> T) (D : Z -> Z -> Prop) i M0 :
  rewritten D (fun r c => g (DenseMatrix.get M r c)) M M0 ->
  (forall r c, D r c -> r <> i) ->
  rewritten (fun r c => D r c \/ row_left sm i (column + n) r c)
            (fun r c => g (DenseMatrix.get M r c)) M
            (for_range column (column + n)
               (fun j M1 => DenseMatrix.set M1 i j (g (DenseMatrix.get M1 i j))) M0).
Proof.
  destruct (view_bounds M sm Hwf Hvalid) as (B1 & B2 & B3 & B4 & B5 & B6 & B7 & B8).
  intros H0 Hrow.
  apply (for_range_ind
           (fun j M1 => rewritten (fun r c => D r c \/ row_left sm i j r c)
                          (fun r c => g (DenseMatrix.get M r c)) M M1)).
  - lia.
  - eapply rewritten_weaken; [|exact H0].
    intros r c _. unfold row_left. intuition lia.
  - intros j M1 Hj H1.
    eapply rewritten_set; [exact Hwf|exact H1| | |].
    + unfold DenseMatrix.columns. lia.
    + intros r c. unfold row_left. intuition lia.
    + cbv beta. f_equal.
      eapply rewritten_untouched; [exact H1| |].
      * unfold DenseMatrix.columns. lia.
      * unfold row_left. intros [Hd|Hd]; [now apply Hrow in Hd|lia].
Qed.

(** The two nested loops of [operator=( const ElementType& )], [reset()]
    and [scale()]. *)
Lemma map_view (g : T -> T) :
  updated sm (fun r c => g (DenseMatrix.get M r c)) M
    (for_range row (row +! m) (fun i M0 =>
       for_range column (column +! n) (fun j M1 =>
         DenseMatrix.set M1 i j (g (DenseMatrix.get M1 i j))) M0) M).
Proof.
  destruct (view_bounds M sm Hwf Hvalid) as (B1 & B2 & B3 & B4 & B5 & B6 & B7 & B8).
  rewrite (add_small row m), (add_small column n) by lia.
  apply (rewritten_weaken M _ (rows_below sm (row + m))).
  { intros r c _. unfold rows_below, covers. tauto. }
  apply (for_range_ind
           (fun i M0 => rewritten (rows_below sm i)
                          (fun r c => g (DenseMatrix.get M r c)) M M0)).
  - lia.
  - apply rewritten_start. unfold rows_below. intros r c. lia.
  - intros i M0 Hi H0.
    eapply rewritten_weaken; [|apply (map_row g (rows_below sm i) i M0 H0)].
    + intros r c _. unfold rows_below, row_left. intuition lia.
    + unfold rows_below. intros r c. lia.
Qed.

End ElementLoops.

(** *** Counting loops *)

(** A counting loop [if( p(j) ) ++nonzeros;] over [lo, hi). *)
Lemma count_loop (p : Z -> bool) lo hi nz0 :
  lo <= hi -> 0 <= nz0 -> nz0 + (hi - lo) < SizeT.modulus ->
  let r := for_range lo hi (fun j nz => if p j then nz +! 1 else nz) nz0 in
  nz0 <= r <= nz0 + (hi - lo) /\
  (r = nz0 <-> forall j, lo <= j < hi -> p j = false).
Proof.
  intros Hle Hnz Hfit. cbv zeta.
  apply (for_range_ind
           (fun i r => nz0 <= r <= nz0 + (i - lo) /\
                       (r = nz0 <-> forall j, lo <= j < i -> p j = false))).
  - exact Hle.
  - split; [lia|]. split; [intros _ j Hj; lia|reflexivity].
  - intros i r Hi (Hr & Hiff). destruct (p i) eqn:Ep.
    + rewrite add_small by lia. split; [lia|]. split.
      * intros Heq. lia.
      * intros Hall. rewrite (Hall i) in Ep by lia. discriminate.
    + split; [lia|]. split.
      * intros Heq j Hj. destruct (Z.eq_dec j i) as [->|Hne]; [exact Ep|].
        apply Hiff; [exact Heq|lia].
      * intros Hall. apply Hiff. intros j Hj. apply Hall. lia.
Qed.

Lemma forallb_range (p : Z -> bool) (k : Z) :
  forallb (fun i => p (Z.of_nat i)) (seq 0 (Z.to_nat k)) = true <->
  forall i, 0 <= i < k -> p i = true.
Proof.
  rewrite forallb_forall. split.
  - intros H i Hi. replace i with (Z.of_nat (Z.to_nat i)) by lia.
    apply H. apply in_seq. lia.
  - intros H x Hx. apply in_seq in Hx. apply H. lia.
Qed.

Section ViewUtilities.
Context {T : Type} `{ET : ElementTraits T}.
Import ViewSpec Rewritten.

Variable M : DenseMatrix.t T.
Variable sm : DenseSubmatrix.t.
Hypothesis Hwf : DenseMatrix.wf M.
Hypothesis Hvalid : valid M sm.

Local Abbreviation row := (DenseSubmatrix.row_ sm).
Local Abbreviation column := (DenseSubmatrix.column_ sm).
Local Abbreviation m := (DenseSubmatrix.m_ sm).
Local Abbreviation n := (DenseSubmatrix.n_ sm).

Lemma nonZeros_row_count i :
  0 <= i < m ->
  0 <= DenseSubmatrix.nonZeros_row sm M i <= n /\
  (DenseSubmatrix.nonZeros_row sm M i = 0 <->
   forall j, 0 <= j < n ->
     isDefault (DenseMatrix.get M (row + i) (column + j)) = true).
Proof.
  destruct (view_bounds M sm Hwf Hvalid) as (B1 & B2 & B3 & B4 & B5 & B6 & B7 & B8).
  intros Hi. unfold DenseSubmatrix.nonZeros_row. cbv zeta.
  rewrite (add_small column n), (add_small row i) by lia.
  destruct (count_loop (fun j => negb (isDefault (DenseMatrix.get M (row + i) j)))
              column (column + n) 0) as [Hr Hiff]; try lia.
  cbv zeta in Hr, Hiff. split; [lia|].
  rewrite Hiff. split.
  - intros H j Hj. specialize (H (column + j)).
    apply negb_false_iff. apply H. lia.
  - intros H j Hj. apply negb_false_iff.
    replace j with (column + (j - column)) by lia. apply H. lia.
Qed.

Lemma nonZeros_count :
  m * n < SizeT.modulus ->
  0 <= DenseSubmatrix.nonZeros sm M <= m * n /\
  (DenseSubmatrix.nonZeros sm M = 0 <->
   forall i j, 0 <= i < m -> 0 <= j < n ->
     isDefault (DenseMatrix.get M (row + i) (column + j)) = true).
Proof.
  destruct (view_bounds M sm Hwf Hvalid) as (B1 & B2 & B3 & B4 & B5 & B6 & B7 & B8).
  intros Hcap. unfold DenseSubmatrix.nonZeros. cbv zeta.
  rewrite (add_small column n), (add_small row m) by lia.
  assert (Hinv :
    let r := for_range row (row + m) (fun i nonzeros =>
               for_range column (column + n) (fun j nonzeros =>
                 if negb (isDefault (DenseMatrix.get M i j))
                 then nonzeros +! 1 else nonzeros) nonzeros) 0 in
    0 <= r <= (row + m - row) * n /\
    (r = 0 <-> forall i j, row <= i < row + m -> column <= j < column + n ->
                 isDefault (DenseMatrix.get M i j) = true)).
  { cbv zeta.
    apply (for_range_ind
             (fun x r => 0 <= r <= (x - row) * n /\
                (r = 0 <-> forall i j, row <= i < x -> column <= j < column + n ->
                             isDefault (DenseMatrix.get M i j) = true))).
    - lia.
    - split; [lia|]. split; [intros _ i j Hi; lia|reflexivity].
    - intros x r Hx (Hr & Hiff).
      destruct (count_loop (fun j => negb (isDefault (DenseMatrix.get M x j)))
                  column (column + n) r) as [Hr' Hiff']; try lia; try nia.
      cbv zeta in Hr', Hiff'.
      split; [nia|]. split.
      + intros H0 i j Hi Hj.
        assert (Hr0 : r = 0) by lia.
        destruct (Z.eq_dec i x) as [->|Hne].
        * apply negb_false_iff. apply Hiff'; [lia|exact Hj].
        * apply Hiff; [exact Hr0|lia|exact Hj].
      + intros Hall.
        assert (Hr0 : r = 0).
        { apply Hiff. intros i j Hi Hj. apply Hall; lia. }
        subst r. apply Hiff'.
        intros j Hj. apply negb_false_iff. apply Hall; lia. }
  cbv zeta in Hinv. destruct Hinv as [Hr Hiff].
  split; [replace (row + m - row) with m in Hr by lia; exact Hr|].
  rewrite Hiff. split.
  - intros H i j Hi Hj. apply H; lia.
  - intros H i j Hi Hj.
    replace i with (row + (i - row)) by lia.
    replace j with (column + (j - column)) by lia. apply H; lia.
Qed.

End ViewUtilities.

(** *** Scalar assignment, scaling and reset of a view *)

Section RewrittenShape.
Context {T : Type} `{ET : ElementTraits T}.
Import ViewSpec Rewritten.

Lemma rewritten_wf D f (M M' : DenseMatrix.t T) :
  rewritten D f M M' -> DenseMatrix.wf M -> DenseMatrix.wf M'.
Proof.
  intros (Hm & Hn & Hnn & _) Hwf. unfold DenseMatrix.wf in *.
  rewrite Hm, Hn, Hnn. exact Hwf.
Qed.

Lemma rewritten_valid D f (M M' : DenseMatrix.t T) sm :
  rewritten D f M M' -> valid M sm -> valid M' sm.
Proof.
  intros (Hm & Hn & Hnn & _) Hv.
  unfold valid, DenseMatrix.rows, DenseMatrix.columns in *.
  rewrite Hm, Hn. exact Hv.
Qed.

End RewrittenShape.

(** X1: [operator=( const ElementType& rhs )] sets every element of the view
    to [rhs] and leaves the dimensions and every other element of the
    matrix as they were. *)
Theorem assign_scalar_fills {T : Type} `{ET : ElementTraits T}
        (M : DenseMatrix.t T) (sm : DenseSubmatrix.t) (rhs : T) :
  DenseMatrix.wf M -> ViewSpec.valid M sm ->
  ViewSpec.updated sm (fun _ _ => rhs) M (DenseSubmatrix.assign_scalar sm rhs M).
Proof.
  intros Hwf Hvalid. exact (map_view M sm Hwf Hvalid (fun _ => rhs)).
Qed.

Lemma assign_scalar_fills_witness :
  ViewSpec.updated view_4x4 (fun _ _ => 7) A10 (DenseSubmatrix.assign_scalar view_4x4 7 A10).
Proof.
  apply (assign_scalar_fills A10 view_4x4 7).
  - exact A10_wf.
  - unfold ViewSpec.valid. simpl. repeat split; lia.
Defined.

(** X2: [scale( scalar )] multiplies every element of the view by the scalar
    once, and leaves the dimensions and every other element of the matrix
    as they were. *)
Theorem scale_scales {T : Type} `{ET : ElementTraits T}
        (times : T -> T) (M : DenseMatrix.t T) (sm : DenseSubmatrix.t) :
  DenseMatrix.wf M -> ViewSpec.valid M sm ->
  ViewSpec.updated sm (fun r c => times (DenseMatrix.get M r c)) M
                   (DenseSubmatrix.scale times sm M).
Proof.
  intros Hwf Hvalid. exact (map_view M sm Hwf Hvalid times).
Qed.

Lemma scale_scales_witness :
  ViewSpec.updated view_4x4 (fun r c => 3 * DenseMatrix.get A10 r c) A10
                   (DenseSubmatrix.scale (fun x => 3 * x) view_4x4 A10).
Proof.
  apply (scale_scales (fun x => 3 * x) A10 view_4x4).
  - exact A10_wf.
  - unfold ViewSpec.valid. simpl. repeat split; lia.
Defined.

(** X3: [reset( i )] sets the elements of row [i] of the view to [Type()],
    leaves every other element of the matrix as it was, and afterwards
    [nonZeros( i )] is 0. *)
Theorem reset_row_resets {T : Type} `{ET : ElementTraits T} `{EL : !ElementLaws T}
        (M : DenseMatrix.t T) (sm : DenseSubmatrix.t) (i : Z) :
  DenseMatrix.wf M -> ViewSpec.valid M sm ->
  0 <= i < DenseSubmatrix.rows sm ->
  Rewritten.rewritten
    (Rewritten.row_left sm (DenseSubmatrix.row_ sm + i)
       (DenseSubmatrix.column_ sm + DenseSubmatrix.n_ sm))
    (fun _ _ => Type_default) M (DenseSubmatrix.reset_row sm i M) /\
  DenseSubmatrix.nonZeros_row sm (DenseSubmatrix.reset_row sm i M) i = 0.
Proof.
  intros Hwf Hvalid Hi. unfold DenseSubmatrix.rows in Hi.
  destruct (view_bounds M sm Hwf Hvalid) as (B1 & B2 & B3 & B4 & B5 & B6 & B7 & B8).
  assert (Hre : Rewritten.rewritten
    (Rewritten.row_left sm (DenseSubmatrix.row_ sm + i)
       (DenseSubmatrix.column_ sm + DenseSubmatrix.n_ sm))
    (fun _ _ => Type_default) M (DenseSubmatrix.reset_row sm i M)).
  { unfold DenseSubmatrix.reset_row. cbv zeta.
    rewrite (add_small (DenseSubmatrix.column_ sm)), (add_small (DenseSubmatrix.row_ sm) i) by lia.
    eapply rewritten_weaken;
      [|apply (map_row M sm Hwf Hvalid (fun _ => Type_default) (fun _ _ => False)
                 (DenseSubmatrix.row_ sm + i) M)].
    - intros r c _. tauto.
    - apply rewritten_start. tauto.
    - tauto. }
  split; [exact Hre|].
  apply (nonZeros_row_count _ sm (rewritten_wf _ _ _ _ Hre Hwf)
           (rewritten_valid _ _ _ _ sm Hre Hvalid) i Hi).
  intros j Hj. destruct Hre as (_ & _ & _ & H).
  destruct (H (DenseSubmatrix.row_ sm + i) (DenseSubmatrix.column_ sm + j)) as [H1 _].
  { unfold DenseMatrix.columns. lia. }
  rewrite H1 by (unfold Rewritten.row_left; lia).
  apply isDefault_spec. reflexivity.
Qed.

Lemma reset_row_resets_witness :
  Rewritten.rewritten
    (Rewritten.row_left view_4x4 (2 + 1) (3 + 4))
    (fun _ _ => 0) A10 (DenseSubmatrix.reset_row view_4x4 1 A10) /\
  DenseSubmatrix.nonZeros_row view_4x4 (DenseSubmatrix.reset_row view_4x4 1 A10) 1 = 0.
Proof.
  assert (Hv : ViewSpec.valid A10 view_4x4)
    by (unfold ViewSpec.valid; simpl; repeat split; lia).
  assert (Hi : 0 <= 1 < DenseSubmatrix.rows view_4x4) by (simpl; lia).
  exact (reset_row_resets A10 view_4x4 1 A10_wf Hv Hi).
Defined.

(** *** Non-zero count, default state and element access of a view *)

(** X4: [nonZeros()] lies between 0 and [capacity()]; it is 0 exactly when
    [isDefault( view )] holds, which is when every element of the view is in
    default state; and it is 0 after [reset()] and after [clear( view )]. *)
Theorem nonZeros_zero_iff_default {T : Type} `{ET : ElementTraits T} `{EL : !ElementLaws T}
        (h : heap T) (sm : DenseSubmatrix.t) :
  let M := h (DenseSubmatrix.matrix_ sm) in
  DenseMatrix.wf M -> ViewSpec.valid M sm ->
  DenseSubmatrix.rows sm * DenseSubmatrix.columns sm < SizeT.modulus ->
  0 <= DenseSubmatrix.nonZeros sm M <= DenseSubmatrix.capacity sm /\
  (DenseSubmatrix.nonZeros sm M = 0 <-> DenseSubmatrix.isDefault_view h sm = true) /\
  (DenseSubmatrix.isDefault_view h sm = true <->
   forall i j, 0 <= i < DenseSubmatrix.rows sm -> 0 <= j < DenseSubmatrix.columns sm ->
               DenseSubmatrix.get h sm i j = Type_default) /\
  DenseSubmatrix.nonZeros sm (DenseSubmatrix.reset sm M) = 0 /\
  DenseSubmatrix.nonZeros sm (DenseSubmatrix.clear sm M) = 0.
Proof.
  intros M Hwf Hvalid Hcap.
  unfold DenseSubmatrix.rows, DenseSubmatrix.columns in *.
  destruct (view_bounds M sm Hwf Hvalid) as (B1 & B2 & B3 & B4 & B5 & B6 & B7 & B8).
  destruct (nonZeros_count M sm Hwf Hvalid Hcap) as [Hrange Hzero].
  assert (Hdef : DenseSubmatrix.isDefault_view h sm = true <->
                 forall i j, 0 <= i < DenseSubmatrix.m_ sm -> 0 <= j < DenseSubmatrix.n_ sm ->
                   isDefault (DenseMatrix.get M (DenseSubmatrix.row_ sm + i)
                                              (DenseSubmatrix.column_ sm + j)) = true).
  { unfold DenseSubmatrix.isDefault_view, DenseSubmatrix.rows, DenseSubmatrix.columns.
    rewrite (forallb_range
               (fun i => forallb (fun j => isDefault (DenseSubmatrix.get h sm i (Z.of_nat j)))
                                 (seq 0 (Z.to_nat (DenseSubmatrix.n_ sm))))).
    split.
    - intros H i j Hi Hj. specialize (H i Hi).
      rewrite (forallb_range (fun j => isDefault (DenseSubmatrix.get h sm i j))) in H.
      specialize (H j Hj). unfold DenseSubmatrix.get in H.
      rewrite !add_small in H by lia. exact H.
    - intros H i Hi.
      rewrite (forallb_range (fun j => isDefault (DenseSubmatrix.get h sm i j))).
      intros j Hj. unfold DenseSubmatrix.get. rewrite !add_small by lia.
      now apply H. }
  split.
  { unfold DenseSubmatrix.capacity, DenseSubmatrix.rows, DenseSubmatrix.columns, SizeT.mul,
      SizeT.wrap. rewrite Z.mod_small by nia. exact Hrange. }
  split; [rewrite Hzero, Hdef; reflexivity|].
  split.
  { rewrite Hdef. split.
    - intros H i j Hi Hj. unfold DenseSubmatrix.get. rewrite !add_small by lia.
      apply isDefault_spec. now apply H.
    - intros H i j Hi Hj. apply isDefault_spec.
      specialize (H i j Hi Hj). unfold DenseSubmatrix.get in H.
      rewrite !add_small in H by lia. exact H. }
  assert (Hreset : DenseSubmatrix.nonZeros sm (DenseSubmatrix.reset sm M) = 0).
  { pose proof (map_view M sm Hwf Hvalid (fun _ => Type_default)) as Hre.
    change (ViewSpec.updated sm (fun _ _ => Type_default) M (DenseSubmatrix.reset sm M)) in Hre.
    apply (nonZeros_count _ sm (rewritten_wf _ _ _ _ Hre Hwf)
             (rewritten_valid _ _ _ _ sm Hre Hvalid) Hcap).
    intros i j Hi Hj. destruct Hre as (_ & _ & _ & H).
    destruct (H (DenseSubmatrix.row_ sm + i) (DenseSubmatrix.column_ sm + j)) as [H1 _].
    { unfold DenseMatrix.columns. lia. }
    rewrite H1 by (unfold ViewSpec.covers; lia).
    apply isDefault_spec. reflexivity. }
  split; [exact Hreset|exact Hreset].
Qed.

Lemma nonZeros_zero_iff_default_witness :
  0 <= DenseSubmatrix.nonZeros view_4x4 A10 <= DenseSubmatrix.capacity view_4x4 /\
  (DenseSubmatrix.nonZeros view_4x4 A10 = 0 <->
   DenseSubmatrix.isDefault_view heap_A10 view_4x4 = true) /\
  (DenseSubmatrix.isDefault_view heap_A10 view_4x4 = true <->
   forall i j, 0 <= i < DenseSubmatrix.rows view_4x4 ->
               0 <= j < DenseSubmatrix.columns view_4x4 ->
               DenseSubmatrix.get heap_A10 view_4x4 i j = 0) /\
  DenseSubmatrix.nonZeros view_4x4 (DenseSubmatrix.reset view_4x4 A10) = 0 /\
  DenseSubmatrix.nonZeros view_4x4 (DenseSubmatrix.clear view_4x4 A10) = 0.
Proof.
  assert (Hv : ViewSpec.valid A10 view_4x4)
    by (unfold ViewSpec.valid; simpl; repeat split; lia).
  assert (Hc : DenseSubmatrix.rows view_4x4 * DenseSubmatrix.columns view_4x4 < SizeT.modulus)
    by (unfold SizeT.modulus; simpl; lia).
  exact (nonZeros_zero_iff_default heap_A10 view_4x4 A10_wf Hv Hc).
Defined.

(** X5: a write through [operator()] of a view lands in the matrix at
    [(row+i, column+j)]: the view reads it back, every view of the same
    matrix sees it at the position that maps to the same matrix element and
    sees its other elements unchanged, and no other matrix changes. *)
Theorem view_write_through {T : Type} `{ET : ElementTraits T}
        (h : heap T) (sm other : DenseSubmatrix.t) (i j : Z) (x : T) :
  let M := h (DenseSubmatrix.matrix_ sm) in
  DenseMatrix.wf M -> ViewSpec.valid M sm ->
  DenseSubmatrix.matrix_ other = DenseSubmatrix.matrix_ sm ->
  ViewSpec.valid M other ->
  0 <= i < DenseSubmatrix.rows sm -> 0 <= j < DenseSubmatrix.columns sm ->
  let h' := DenseSubmatrix.set h sm i j x in
  DenseSubmatrix.get h' sm i j = x /\
  DenseMatrix.get (h' (DenseSubmatrix.matrix_ sm))
                  (DenseSubmatrix.row_ sm + i) (DenseSubmatrix.column_ sm + j) = x /\
  (forall i' j', 0 <= i' < DenseSubmatrix.rows other ->
                 0 <= j' < DenseSubmatrix.columns other ->
     DenseSubmatrix.get h' other i' j' =
       if (DenseSubmatrix.row_ other + i' =? DenseSubmatrix.row_ sm + i) &&
          (DenseSubmatrix.column_ other + j' =? DenseSubmatrix.column_ sm + j)
       then x else DenseSubmatrix.get h other i' j') /\
  (forall b, b <> DenseSubmatrix.matrix_ sm -> h' b = h b).
Proof.
  intros M Hwf Hvalid Hsame Hother Hi Hj h'.
  unfold DenseSubmatrix.rows, DenseSubmatrix.columns in *.
  destruct (view_bounds M sm Hwf Hvalid) as (B1 & B2 & B3 & B4 & B5 & B6 & B7 & B8).
  destruct (view_bounds M other Hwf Hother) as (C1 & C2 & C3 & C4 & C5 & C6 & C7 & C8).
  assert (Hh' : h' (DenseSubmatrix.matrix_ sm) =
                DenseMatrix.set M (DenseSubmatrix.row_ sm + i) (DenseSubmatrix.column_ sm + j) x).
  { unfold h', DenseSubmatrix.set, heap_upd. rewrite Nat.eqb_refl.
    rewrite !add_small by lia. reflexivity. }
  split.
  { unfold DenseSubmatrix.get. rewrite Hh', !add_small by lia. apply get_set_same. }
  split.
  { rewrite Hh'. apply get_set_same. }
  split.
  - intros i' j' Hi' Hj'. unfold DenseSubmatrix.get. rewrite Hsame, Hh'.
    rewrite !add_small by lia. fold M.
    destruct (DenseSubmatrix.row_ other + i' =? DenseSubmatrix.row_ sm + i) eqn:Er;
      [destruct (DenseSubmatrix.column_ other + j' =? DenseSubmatrix.column_ sm + j) eqn:Ec|];
      simpl.
    + apply Z.eqb_eq in Er, Ec. rewrite Er, Ec. apply get_set_same.
    + apply Z.eqb_neq in Ec. apply get_set_other; lia.
    + apply Z.eqb_neq in Er. apply get_set_other; lia.
  - intros b Hb. unfold h', DenseSubmatrix.set, heap_upd.
    apply Nat.eqb_neq in Hb. now rewrite Hb.
Qed.

Lemma view_write_through_witness :
  DenseSubmatrix.get (DenseSubmatrix.set heap_A10 view_dst 1 2 99) view_dst 1 2 = 99 /\
  DenseMatrix.get (DenseSubmatrix.set heap_A10 view_dst 1 2 99 0%nat) (0 + 1) (0 + 2) = 99 /\
  (forall i' j', 0 <= i' < DenseSubmatrix.rows view_src ->
                 0 <= j' < DenseSubmatrix.columns view_src ->
     DenseSubmatrix.get (DenseSubmatrix.set heap_A10 view_dst 1 2 99) view_src i' j' =
       if (1 + i' =? 0 + 1) && (1 + j' =? 0 + 2)
       then 99 else DenseSubmatrix.get heap_A10 view_src i' j') /\
  (forall b, b <> 0%nat -> DenseSubmatrix.set heap_A10 view_dst 1 2 99 b = heap_A10 b).
Proof.
  assert (Hd : ViewSpec.valid A10 view_dst)
    by (unfold ViewSpec.valid; simpl; repeat split; lia).
  assert (Hs : ViewSpec.valid A10 view_src)
    by (unfold ViewSpec.valid; simpl; repeat split; lia).
  assert (Hi : 0 <= 1 < DenseSubmatrix.rows view_dst) by (simpl; lia).
  assert (Hj : 0 <= 2 < DenseSubmatrix.columns view_dst) by (simpl; lia).
  exact (view_write_through heap_A10 view_dst view_src 1 2 99 A10_wf Hd eq_refl Hs Hi Hj).
Defined.

(** *** The intrinsic compound kernels of a view *)

Section CompoundVectorized.
Context {T : Type} `{ET : ElementTraits T} `{EL : !ElementLaws T}.
Import ViewSpec.

Variable op : T -> T -> T.
Variable junk : IntrinsicType T.
Variable M : DenseMatrix.t T.
Variable sm : DenseSubmatrix.t.
Variable rhs : DenseSource T.
Hypothesis Hwf : DenseMatrix.wf M.
Hypothesis Hvalid : valid M sm.
Hypothesis Hrows : src_rows rhs = DenseSubmatrix.m_ sm.
Hypothesis Hcols : src_columns rhs = DenseSubmatrix.n_ sm.
Hypothesis Hsrc : source_ok rhs.
Local Abbreviation row := (DenseSubmatrix.row_ sm).
Local Abbreviation column := (DenseSubmatrix.column_ sm).
Local Abbreviation m := (DenseSubmatrix.m_ sm).
Local Abbreviation n := (DenseSubmatrix.n_ sm).
Local Abbreviation W := (IT_size).
Local Abbreviation f := (combined op sm rhs M).

(** Lane [k] of the view's [load( i, x )] is element [(i, x+k)] of the view,
    for the lanes that lie inside the view. *)
Lemma load_lane (M1 : DenseMatrix.t T) i x k :
  0 <= i < m -> 0 <= x -> 0 <= k < W -> x + k < n ->
  DenseSubmatrix.load junk sm M1 i x k = DenseMatrix.get M1 (row + i) (column + x + k).
Proof.
  destruct (view_bounds M sm Hwf Hvalid) as (B1 & B2 & B3 & B4 & B5 & B6 & B7 & B8).
  pose proof Hvalid as (_ & _ & _ & _ & _ & _ & Hrest & Hfinal & _).
  intros Hi Hx Hk Hlt.
  unfold DenseSubmatrix.load, DenseSubmatrix.loadu.
  rewrite (add_small row i), (add_small column x) by lia.
  destruct (DenseSubmatrix.aligned_ sm || negb (x =? DenseSubmatrix.final_ sm)) eqn:E.
  - unfold DenseMatrix.loadu, DenseMatrix.get. f_equal. lia.
  - apply orb_false_iff in E. destruct E as [_ E].
    apply negb_false_iff in E. apply Z.eqb_eq in E.
    rewrite (for_range_upd 0 (DenseSubmatrix.rest_ sm)
               (fun k => DenseMatrix.get M1 (row + i) (column + x +! k))).
    replace (0 <=? k) with true by (symmetry; apply Z.leb_le; lia).
    replace (k <? DenseSubmatrix.rest_ sm) with true by (symmetry; apply Z.ltb_lt; lia).
    simpl. rewrite (add_small (column + x) k) by lia. reflexivity.
Qed.

Variable fuel : nat.
Hypothesis Hfuel : (Z.to_nat (Z.max (DenseSubmatrix.m_ sm) (DenseSubmatrix.n_ sm)) <= fuel)%nat.

(** The vector that a compound kernel stores at [(i,x)]. *)
Lemma lanes_combined i x (M1 : DenseMatrix.t T) k :
  0 <= i < m -> 0 <= x -> progress sm f M i x M1 ->
  0 <= k < W -> x + k < n ->
  DenseSubmatrix.lanewise op (DenseSubmatrix.load junk sm M1 i x) (src_load rhs i x) k =
  f (row + i) (column + x + k).
Proof.
  intros Hi Hx Hp Hk Hlt. unfold DenseSubmatrix.lanewise, combined.
  rewrite load_lane by lia. f_equal.
  - replace (column + x + k) with (column + (x + k)) by lia.
    eapply progress_untouched; eauto; lia.
  - apply (lanes_ok sm rhs Hrows Hcols Hsrc fuel Hfuel); lia.
Qed.

Lemma compound_blocks_row i M0 :
  0 <= i < m -> progress sm f M i 0 M0 ->
  exists M'',
    for_step fuel 0 (n - n mod (W * 4)) (W *! 4) (fun j M1 =>
      let M1 := DenseMatrix.storeu M1 (row +! i) (column +! j)
                  (DenseSubmatrix.lanewise op (DenseSubmatrix.load junk sm M1 i j)
                                              (src_load rhs i j)) in
      let M1 := DenseMatrix.storeu M1 (row +! i) (column +! j +! W)
                  (DenseSubmatrix.lanewise op (DenseSubmatrix.load junk sm M1 i (j +! W))
                                              (src_load rhs i (j +! W))) in
      let M1 := DenseMatrix.storeu M1 (row +! i) (column +! j +! W *! 2)
                  (DenseSubmatrix.lanewise op (DenseSubmatrix.load junk sm M1 i (j +! W *! 2))
                                              (src_load rhs i (j +! W *! 2))) in
      Some (DenseMatrix.storeu M1 (row +! i) (column +! j +! W *! 3)
                  (DenseSubmatrix.lanewise op (DenseSubmatrix.load junk sm M1 i (j +! W *! 3))
                                              (src_load rhs i (j +! W *! 3))))) M0
    = Some M'' /\
    progress sm f M i (n - n mod (W * 4)) M''.
Proof.
  destruct (view_bounds M sm Hwf Hvalid) as (B1 & B2 & B3 & B4 & B5 & B6 & B7 & B8).
  destruct (width_bounds sm fuel Hfuel) as (HW & HW4 & _).
  intros Hi Hp.
  assert (HW40 : 0 < W * 4) by lia.
  pose proof (Z.mod_pos_bound n (W * 4) HW40) as Hmod.
  pose proof (Z.mod_le n (W * 4) B4 HW40) as Hmodle.
  assert (Hjm : (n - n mod (W * 4)) mod (W * 4) = 0).
  { rewrite Zminus_mod_idemp_r. rewrite Z.sub_diag. apply Z.mod_0_l. lia. }
  assert (Hrow : row +! i = row + i) by (apply add_small; lia).
  assert (HW2 : W *! 2 = W * 2).
  { apply wrap_small. unfold SizeT.in_range, SizeT.modulus. lia. }
  assert (HW3 : W *! 3 = W * 3).
  { apply wrap_small. unfold SizeT.in_range, SizeT.modulus. lia. }
  assert (HW4' : W *! 4 = W * 4).
  { apply wrap_small. unfold SizeT.in_range, SizeT.modulus. lia. }
  rewrite Hrow, HW2, HW3, HW4'. cbv zeta.
  match goal with |- context [for_step fuel 0 ?e ?st ?body M0] =>
    destruct (for_step_rule
                (fun x M1 => 0 <= x <= n - n mod (W * 4) /\ x mod (W * 4) = 0 /\
                             progress sm f M i x M1)
                e st body) with (fuel := fuel) (j := 0) (s := M0)
      as (x' & M'' & Hrun & (Hx' & _ & Hp'') & Hge)
  end.
  - lia.
  - intros x M1 (Hx & Hxm & Hpx) Hlt.
    assert (Hstep : x + W * 4 <= n - n mod (W * 4)) by (apply multiple_step; lia).
    split; [apply add_small; lia|].
    eexists. split; [reflexivity|].
    split; [lia|]. split; [apply multiple_add; lia|].
    rewrite (add_small column x) by lia.
    rewrite (add_small (column + x) W) by lia.
    rewrite (add_small (column + x) (W * 2)) by lia.
    rewrite (add_small (column + x) (W * 3)) by lia.
    rewrite (add_small x W) by lia.
    rewrite (add_small x (W * 2)) by lia.
    rewrite (add_small x (W * 3)) by lia.
    set (M2 := DenseMatrix.storeu M1 (row + i) (column + x)
                 (DenseSubmatrix.lanewise op (DenseSubmatrix.load junk sm M1 i x)
                    (src_load rhs i x))).
    assert (Hp2 : progress sm f M i (x + W) M2).
    { apply progress_storeu; try assumption; try lia.
      intros k Hk Hlt'. apply lanes_combined; try assumption; lia. }
    set (M3 := DenseMatrix.storeu M2 (row + i) (column + x + W)
                 (DenseSubmatrix.lanewise op (DenseSubmatrix.load junk sm M2 i (x + W))
                    (src_load rhs i (x + W)))).
    assert (Hp3 : progress sm f M i (x + W + W) M3).
    { unfold M3. replace (column + x + W) with (column + (x + W)) by lia.
      apply progress_storeu; try assumption; try lia.
      intros k Hk Hlt'. apply lanes_combined; try assumption; lia. }
    set (M4 := DenseMatrix.storeu M3 (row + i) (column + x + W * 2)
                 (DenseSubmatrix.lanewise op (DenseSubmatrix.load junk sm M3 i (x + W * 2))
                    (src_load rhs i (x + W * 2)))).
    assert (Hp4 : progress sm f M i (x + W * 2 + W) M4).
    { unfold M4. replace (column + x + W * 2) with (column + (x + W * 2)) by lia.
      replace (x + W + W) with (x + W * 2) in Hp3 by lia.
      apply progress_storeu; try assumption; try lia.
      intros k Hk Hlt'. apply lanes_combined; try assumption; lia. }
    replace (x + W * 4) with (x + W * 3 + W) by lia.
    replace (column + x + W * 3) with (column + (x + W * 3)) by lia.
    replace (x + W * 2 + W) with (x + W * 3) in Hp4 by lia.
    apply progress_storeu; try assumption; try lia.
    intros k Hk Hlt'. apply lanes_combined; try assumption; lia.
  - split; [lia|]. split; [apply Z.mod_0_l; lia|exact Hp].
  - lia.
  - exists M''. split; [exact Hrun|].
    assert (x' = n - n mod (W * 4)) by lia. now subst x'.
Qed.

Lemma compound_tail_row i M0 :
  0 <= i < m ->
  progress sm f M i (n - n mod (W * 4)) M0 ->
  exists M'',
    for_step fuel (n - n mod (W * 4)) n W (fun j M1 =>
      Some (DenseSubmatrix.storeu sm M1 i j
              (DenseSubmatrix.lanewise op (DenseSubmatrix.load junk sm M1 i j)
                                          (src_load rhs i j)))) M0
    = Some M'' /\
    progress sm f M (i + 1) 0 M''.
Proof.
  destruct (view_bounds M sm Hwf Hvalid) as (B1 & B2 & B3 & B4 & B5 & B6 & B7 & B8).
  destruct (width_bounds sm fuel Hfuel) as (HW & HW4 & _).
  pose proof Hwf as (_ & _ & _ & Hpad).
  pose proof Hvalid as (_ & _ & _ & _ & _ & _ & Hrest & Hfinal & _).
  intros Hi Hp.
  assert (HW40 : 0 < W * 4) by lia.
  pose proof (Z.mod_pos_bound n (W * 4) HW40) as Hmod.
  pose proof (Z.mod_le n (W * 4) B4 HW40) as Hmodle.
  pose proof (Z.mod_pos_bound n W HW) as HmodW.
  pose proof (Z.mod_le n W B4 HW) as HmodleW.
  assert (Hjm : (n - n mod (W * 4)) mod W = 0).
  { assert (H4 : (n - n mod (W * 4)) mod (W * 4) = 0).
    { rewrite Zminus_mod_idemp_r. rewrite Z.sub_diag. apply Z.mod_0_l. lia. }
    apply Z.mod_divide in H4; [|lia]. destruct H4 as [q Hq]. rewrite Hq.
    replace (q * (W * 4)) with (q * 4 * W) by lia. apply Z.mod_mul. lia. }
  assert (Hfm : (n - n mod W) mod W = 0).
  { rewrite Zminus_mod_idemp_r. rewrite Z.sub_diag. apply Z.mod_0_l. lia. }
  match goal with |- context [for_step fuel ?j0 n W ?body M0] =>
    destruct (for_step_rule
                (fun x M1 => n - n mod (W * 4) <= x /\ x mod W = 0 /\
                             progress sm f M i x M1)
                n W body) with (fuel := fuel) (j := j0) (s := M0)
      as (x' & M'' & Hrun & (Hx' & _ & Hp'') & Hge)
  end.
  - exact HW.
  - intros x M1 (Hx & Hxm & Hpx) Hlt.
    assert (Hnn : x + W <= DenseMatrix.nn_ M) by (apply multiple_step; lia).
    assert (Hxf : x <= n - n mod W).
    { destruct (Z_le_gt_dec x (n - n mod W)) as [Hle|Hgt]; [exact Hle|].
      pose proof (multiple_step W (n - n mod W) x HW Hfm Hxm). lia. }
    split; [apply add_small; lia|].
    eexists. split; [reflexivity|].
    split; [lia|]. split; [now apply multiple_add|].
    set (value := DenseSubmatrix.lanewise op (DenseSubmatrix.load junk sm M1 i x)
                    (src_load rhs i x)).
    assert (Hval : forall k, 0 <= k < W -> x + k < n ->
                             value k = f (row + i) (column + x + k)).
    { intros k Hk Hlt'. apply lanes_combined; try assumption; lia. }
    clearbody value.
    unfold DenseSubmatrix.storeu.
    rewrite (add_small row i) by lia.
    rewrite (add_small column x) by lia.
    destruct (DenseSubmatrix.aligned_ sm) eqn:Ha; simpl.
    + destruct (aligned_store_fits M sm Hwf Hvalid fuel Hfuel x Ha ltac:(lia) Hxm)
        as [Hfit Hedge].
      apply progress_storeu; try assumption; try lia.
    + destruct (x =? DenseSubmatrix.final_ sm) eqn:Ef; simpl.
      * apply Z.eqb_eq in Ef. rewrite Hfinal, Hrest in Ef. rewrite Hrest.
        apply progress_widen with (x := x + n mod W); try assumption; try lia.
        apply (for_range_ind
                 (fun k M2 => progress sm f M i (x + k) M2)).
        -- lia.
        -- now rewrite Z.add_0_r.
        -- intros k M2 Hk Hp2.
           rewrite (add_small (column + x) k) by lia.
           rewrite Z.add_assoc.
           replace (column + x + k) with (column + (x + k)) by lia.
           apply progress_set; try assumption; try lia.
           replace (column + (x + k)) with (column + x + k) by lia.
           apply Hval; lia.
      * apply Z.eqb_neq in Ef. rewrite Hfinal, Hrest in Ef.
        assert (x + W <= n - n mod W) by (apply multiple_step; lia).
        apply progress_storeu; try assumption; try lia.
  - split; [lia|]. split; [exact Hjm|exact Hp].
  - lia.
  - exists M''. split; [exact Hrun|].
    apply progress_next_row with (x := x'); try assumption; lia.
Qed.

Lemma update_vectorized_spec :
  exists M', DenseSubmatrix.update_vectorized op junk fuel sm rhs M = Some M' /\
             updated sm f M M'.
Proof.
  destruct (view_bounds M sm Hwf Hvalid) as (B1 & B2 & B3 & B4 & B5 & B6 & B7 & B8).
  destruct (width_bounds sm fuel Hfuel) as (HW & _).
  unfold DenseSubmatrix.update_vectorized, DenseSubmatrix.update_vectorized_live.
  cbv zeta. rewrite (jend_vectorized M sm Hwf Hvalid fuel Hfuel).
  match goal with |- context [for_step fuel 0 m 1 ?body M] =>
    destruct (for_step_rule
                (fun i M0 => 0 <= i <= m /\ progress sm f M i 0 M0)
                m 1 body) with (fuel := fuel) (j := 0) (s := M)
      as (x' & M' & Hrun & (Hx' & Hp) & Hge)
  end.
  - lia.
  - intros i M0 (Hi & Hp) Hlt. split; [apply add_small; lia|].
    destruct (compound_blocks_row i M0) as (M1 & Hrun1 & Hp1); [lia|exact Hp|].
    cbv zeta in Hrun1. rewrite Hrun1.
    destruct (compound_tail_row i M1) as (M'' & Hrun & Hp''); [lia|exact Hp1|].
    exists M''. split; [exact Hrun|]. split; [lia|exact Hp''].
  - split; [lia|]. apply progress_start; assumption.
  - lia.
  - exists M'. split; [exact Hrun|].
    assert (x' = m) by lia. subst x'. now apply progress_finish.
Qed.

End CompoundVectorized.

(** *** The blocked kernels of a view *)

Section BlockedKernel.
Context {T : Type} `{ET : ElementTraits T}.
Import ViewSpec Rewritten Blocked.

Variable op : T -> T -> T.
Variable M : DenseMatrix.t T.
Variable sm : DenseSubmatrix.t.
Variable rhs : DenseSource T.
Hypothesis Hwf : DenseMatrix.wf M.
Hypothesis Hvalid : valid M sm.
Variable fuel : nat.
Hypothesis Hfuel : (Z.to_nat (Z.max (DenseSubmatrix.m_ sm) (DenseSubmatrix.n_ sm)) <= fuel)%nat.

Local Abbreviation row := (DenseSubmatrix.row_ sm).
Local Abbreviation column := (DenseSubmatrix.column_ sm).
Local Abbreviation m := (DenseSubmatrix.m_ sm).
Local Abbreviation n := (DenseSubmatrix.n_ sm).
Local Abbreviation f := (combined op sm rhs M).

Hypothesis Hm16 : m + 16 < SizeT.modulus.
Hypothesis Hn16 : n + 16 < SizeT.modulus.

Lemma blocked_row ii iend jj jend i M0 :
  0 <= ii <= i -> i < iend -> iend <= m -> 0 <= jj <= jend -> jend <= n ->
  rewritten (passed sm ii iend jj jend i jj) f M M0 ->
  exists M1,
    for_step fuel jj jend 1 (fun j M2 =>
      Some (DenseMatrix.set M2 (row +! i) (column +! j)
              (op (DenseMatrix.get M2 (row +! i) (column +! j)) (src_get rhs i j)))) M0
    = Some M1 /\
    rewritten (passed sm ii iend jj jend (i + 1) jj) f M M1.
Proof.
  destruct (view_bounds M sm Hwf Hvalid) as (B1 & B2 & B3 & B4 & B5 & B6 & B7 & B8).
  intros Hii Hi Hiend Hjj Hjend H0.
  rewrite (add_small row i) by lia.
  match goal with |- context [for_step fuel jj jend 1 ?body M0] =>
    destruct (for_step_rule
                (fun j M2 => jj <= j <= jend /\
                             rewritten (passed sm ii iend jj jend i j) f M M2)
                jend 1 body) with (fuel := fuel) (j := jj) (s := M0)
      as (x' & M1 & Hrun & (Hx' & H1) & Hge)
  end.
  - lia.
  - intros j M2 (Hj & H2) Hlt. split; [apply add_small; lia|].
    eexists. split; [reflexivity|]. split; [lia|].
    rewrite (add_small column j) by lia.
    eapply rewritten_set; [exact Hwf|exact H2| | |].
    + unfold DenseMatrix.columns. lia.
    + intros r c. unfold passed. cbv zeta. lia.
    + unfold combined, image. f_equal.
      * eapply rewritten_untouched; [exact H2| |].
        -- unfold DenseMatrix.columns. lia.
        -- unfold passed. cbv zeta. lia.
      * f_equal; lia.
  - split; [lia|exact H0].
  - lia.
  - exists M1. split; [exact Hrun|].
    assert (x' = jend) by lia. subst x'.
    eapply rewritten_weaken; [|exact H1].
    intros r c _. unfold passed. cbv zeta. lia.
Qed.

Lemma blocked_block ii iend jj jend M0 :
  0 <= ii <= iend -> iend <= m -> 0 <= jj <= jend -> jend <= n ->
  rewritten (passed sm ii iend jj jend ii jj) f M M0 ->
  exists M1,
    for_step fuel ii iend 1 (fun i M2 =>
      for_step fuel jj jend 1 (fun j M3 =>
        Some (DenseMatrix.set M3 (row +! i) (column +! j)
                (op (DenseMatrix.get M3 (row +! i) (column +! j)) (src_get rhs i j)))) M2) M0
    = Some M1 /\
    rewritten (passed sm ii iend jj jend iend jj) f M M1.
Proof.
  intros Hii Hiend Hjj Hjend H0.
  match goal with |- context [for_step fuel ii iend 1 ?body M0] =>
    destruct (for_step_rule
                (fun i M2 => ii <= i <= iend /\
                             rewritten (passed sm ii iend jj jend i jj) f M M2)
                iend 1 body) with (fuel := fuel) (j := ii) (s := M0)
      as (x' & M1 & Hrun & (Hx' & H1) & Hge)
  end.
  - lia.
  - intros i M2 (Hi & H2) Hlt. split; [apply add_small; lia|].
    destruct (blocked_row ii iend jj jend i M2) as (M3 & Hrun & H3); try lia; [exact H2|].
    exists M3. split; [exact Hrun|]. split; [lia|exact H3].
  - split; [lia|exact H0].
  - lia.
  - exists M1. split; [exact Hrun|].
    assert (x' = iend) by lia. now subst x'.
Qed.

Lemma blocked_block_row ii iend M0 :
  0 <= ii < iend -> iend <= m ->
  rewritten (passed sm ii iend 0 0 ii 0) f M M0 ->
  exists M1,
    for_step fuel 0 n 16 (fun jj M2 =>
      let jend := if n <? jj +! 16 then n else jj +! 16 in
      for_step fuel ii iend 1 (fun i M3 =>
        for_step fuel jj jend 1 (fun j M4 =>
          Some (DenseMatrix.set M4 (row +! i) (column +! j)
                  (op (DenseMatrix.get M4 (row +! i) (column +! j)) (src_get rhs i j))))
          M3) M2) M0
    = Some M1 /\
    rewritten (passed sm iend iend 0 0 iend 0) f M M1.
Proof.
  destruct (view_bounds M sm Hwf Hvalid) as (B1 & B2 & B3 & B4 & B5 & B6 & B7 & B8).
  intros Hii Hiend H0.
  match goal with |- context [for_step fuel 0 n 16 ?body M0] =>
    destruct (for_step_rule
                (fun jj M2 => 0 <= jj /\
                              rewritten (passed sm ii iend jj jj ii jj) f M M2)
                n 16 body) with (fuel := fuel) (j := 0) (s := M0)
      as (x' & M1 & Hrun & (Hx' & H1) & Hge)
  end.
  - lia.
  - intros jj M2 (Hjj & H2) Hlt. split; [apply add_small; lia|].
    cbv zeta. rewrite (add_small jj 16) by lia.
    set (jend := if n <? jj + 16 then n else jj + 16).
    assert (Hjend : jj < jend <= n /\ jend <= jj + 16 /\ (jend = n \/ jend = jj + 16)).
    { unfold jend. destruct (n <? jj + 16) eqn:E;
        [apply Z.ltb_lt in E|apply Z.ltb_ge in E]; lia. }
    clearbody jend.
    destruct (blocked_block ii iend jj jend M2) as (M3 & Hrun & H3); try lia.
    { eapply rewritten_weaken; [|exact H2].
      intros r c _. unfold passed. cbv zeta. lia. }
    exists M3. split; [exact Hrun|]. split; [lia|].
    eapply rewritten_weaken; [|exact H3].
    intros r c _. unfold passed. cbv zeta. lia.
  - split; [lia|]. exact H0.
  - lia.
  - exists M1. split; [exact Hrun|].
    eapply rewritten_weaken; [|exact H1].
    intros r c _. unfold passed. cbv zeta. lia.
Qed.

Lemma update_opposite_spec :
  exists M', DenseSubmatrix.update_opposite op fuel sm rhs M = Some M' /\
             updated sm f M M'.
Proof.
  destruct (view_bounds M sm Hwf Hvalid) as (B1 & B2 & B3 & B4 & B5 & B6 & B7 & B8).
  unfold DenseSubmatrix.update_opposite. cbv zeta.
  match goal with |- context [for_step fuel 0 m 16 ?body M] =>
    destruct (for_step_rule
                (fun ii M0 => 0 <= ii /\
                              rewritten (passed sm ii ii 0 0 ii 0) f M M0)
                m 16 body) with (fuel := fuel) (j := 0) (s := M)
      as (x' & M' & Hrun & (Hx' & H1) & Hge)
  end.
  - lia.
  - intros ii M0 (Hii & H0) Hlt. split; [apply add_small; lia|].
    rewrite (add_small ii 16) by lia.
    set (iend := if m <? ii + 16 then m else ii + 16).
    assert (Hiend : ii < iend <= m /\ iend <= ii + 16 /\ (iend = m \/ iend = ii + 16)).
    { unfold iend. destruct (m <? ii + 16) eqn:E;
        [apply Z.ltb_lt in E|apply Z.ltb_ge in E]; lia. }
    clearbody iend.
    destruct (blocked_block_row ii iend M0) as (M1 & Hrun & H1'); try lia.
    { eapply rewritten_weaken; [|exact H0].
      intros r c _. unfold passed. cbv zeta. lia. }
    exists M1. split; [exact Hrun|]. split; [lia|].
    eapply rewritten_weaken; [|exact H1'].
    intros r c _. unfold passed. cbv zeta. lia.
  - split; [lia|]. apply rewritten_start. unfold passed. cbv zeta. intros r c. lia.
  - lia.
  - exists M'. split; [exact Hrun|].
    apply (rewritten_weaken M _ (passed sm x' x' 0 0 x' 0)); [|exact H1].
    intros r c _. unfold passed, covers. cbv zeta. lia.
Qed.

End BlockedKernel.

(** *** The sparse kernels of a view *)

Lemma folded_none {T : Type} (op : T -> T -> T) (line : list (Z * T)) j old :
  (forall e, In e line -> fst e <> j) -> SparseUpdate.folded op line j old = old.
Proof.
  unfold SparseUpdate.folded. revert old.
  induction line as [|e line IH]; intros old Hno; simpl; [reflexivity|].
  replace (fst e =? j) with false.
  - apply IH. intros e' He'. apply Hno. now right.
  - symmetry. apply Z.eqb_neq. apply Hno. now left.
Qed.

Lemma folded_unique {T : Type} (op : T -> T -> T) (line : list (Z * T)) j v old :
  NoDup (map fst line) -> In (j, v) line ->
  SparseUpdate.folded op line j old = op old v.
Proof.
  unfold SparseUpdate.folded. revert old.
  induction line as [|e line IH]; intros old Hnd Hin; simpl; [contradiction|].
  simpl in Hnd. inversion Hnd as [|x l Hnotin Hnd']; subst.
  destruct Hin as [He|Hin].
  - subst e. simpl. rewrite Z.eqb_refl.
    apply (folded_none op line j (op old v)).
    intros e' He' Heq. apply Hnotin. simpl. rewrite <- Heq. now apply in_map.
  - replace (fst e =? j) with false; [now apply IH|].
    symmetry. apply Z.eqb_neq. intros Heq. apply Hnotin.
    rewrite Heq. change j with (fst (j, v)). now apply in_map.
Qed.

Section SparseCompound.
Context {T : Type} `{ET : ElementTraits T}.
Import ViewSpec Rewritten SparseUpdate.

Variable op : T -> T -> T.
Variable M : DenseMatrix.t T.
Variable sm : DenseSubmatrix.t.
Hypothesis Hwf : DenseMatrix.wf M.
Hypothesis Hvalid : valid M sm.

Local Abbreviation row := (DenseSubmatrix.row_ sm).
Local Abbreviation column := (DenseSubmatrix.column_ sm).
Local Abbreviation m := (DenseSubmatrix.m_ sm).
Local Abbreviation n := (DenseSubmatrix.n_ sm).

Lemma sparse_line_folded i (line : list (Z * T)) :
  0 <= i < m ->
  (forall e, In e line -> 0 <= fst e < n) ->
  forall M0, DenseMatrix.nn_ M0 = DenseMatrix.nn_ M ->
  let M1 := fold_left (fun M' element =>
              DenseMatrix.set M' (row + i) (column +! fst element)
                (op (DenseMatrix.get M' (row + i) (column +! fst element)) (snd element)))
              line M0 in
  DenseMatrix.m_ M1 = DenseMatrix.m_ M0 /\
  DenseMatrix.n_ M1 = DenseMatrix.n_ M0 /\
  DenseMatrix.nn_ M1 = DenseMatrix.nn_ M0 /\
  forall r c, 0 <= c < DenseMatrix.columns M ->
    DenseMatrix.get M1 r c =
      if r =? row + i then folded op line (c - column) (DenseMatrix.get M0 r c)
      else DenseMatrix.get M0 r c.
Proof.
  destruct (view_bounds M sm Hwf Hvalid) as (B1 & B2 & B3 & B4 & B5 & B6 & B7 & B8).
  pose proof Hwf as (_ & Hn_nn & _ & _).
  intros Hi. induction line as [|e line IH]; intros Hidx M0 Hnn; cbv zeta.
  - simpl. repeat (split; [reflexivity|]). intros r c Hc.
    destruct (r =? row + i); reflexivity.
  - simpl fold_left.
    assert (He : 0 <= fst e < n) by (apply Hidx; now left).
    rewrite (add_small column (fst e)) by lia.
    set (M0' := DenseMatrix.set M0 (row + i) (column + fst e)
                  (op (DenseMatrix.get M0 (row + i) (column + fst e)) (snd e))).
    destruct (IH (fun e' He' => Hidx e' (or_intror He')) M0') as (Hm & Hn' & Hnn' & Hget).
    { unfold M0'. simpl. exact Hnn. }
    cbv zeta in Hm, Hn', Hnn', Hget.
    split; [rewrite Hm; reflexivity|]. split; [rewrite Hn'; reflexivity|].
    split; [rewrite Hnn'; reflexivity|].
    intros r c Hc. rewrite (Hget r c Hc). unfold DenseMatrix.columns in Hc.
    unfold folded. simpl fold_left. fold (folded op line (c - column)).
    destruct (r =? row + i) eqn:Er.
    + apply Z.eqb_eq in Er. subst r. f_equal.
      destruct (fst e =? c - column) eqn:Ec.
      * apply Z.eqb_eq in Ec. replace c with (column + fst e) by lia.
        unfold M0'. apply get_set_same.
      * apply Z.eqb_neq in Ec. unfold M0'. apply get_set_other; lia.
    + apply Z.eqb_neq in Er. unfold M0'. apply get_set_other; lia.
Qed.

Lemma sparse_column_folded j (line : list (Z * T)) :
  0 <= j < n ->
  (forall e, In e line -> 0 <= fst e < m) ->
  forall M0, DenseMatrix.nn_ M0 = DenseMatrix.nn_ M ->
  let M1 := fold_left (fun M' element =>
              DenseMatrix.set M' (row +! fst element) (column + j)
                (op (DenseMatrix.get M' (row +! fst element) (column + j)) (snd element)))
              line M0 in
  DenseMatrix.m_ M1 = DenseMatrix.m_ M0 /\
  DenseMatrix.n_ M1 = DenseMatrix.n_ M0 /\
  DenseMatrix.nn_ M1 = DenseMatrix.nn_ M0 /\
  forall r c, 0 <= c < DenseMatrix.columns M ->
    DenseMatrix.get M1 r c =
      if c =? column + j then folded op line (r - row) (DenseMatrix.get M0 r c)
      else DenseMatrix.get M0 r c.
Proof.
  destruct (view_bounds M sm Hwf Hvalid) as (B1 & B2 & B3 & B4 & B5 & B6 & B7 & B8).
  pose proof Hwf as (_ & Hn_nn & _ & _).
  intros Hj. induction line as [|e line IH]; intros Hidx M0 Hnn; cbv zeta.
  - simpl. repeat (split; [reflexivity|]). intros r c Hc.
    destruct (c =? column + j); reflexivity.
  - simpl fold_left.
    assert (He : 0 <= fst e < m) by (apply Hidx; now left).
    rewrite (add_small row (fst e)) by lia.
    set (M0' := DenseMatrix.set M0 (row + fst e) (column + j)
                  (op (DenseMatrix.get M0 (row + fst e) (column + j)) (snd e))).
    destruct (IH (fun e' He' => Hidx e' (or_intror He')) M0') as (Hm & Hn' & Hnn' & Hget).
    { unfold M0'. simpl. exact Hnn. }
    cbv zeta in Hm, Hn', Hnn', Hget.
    split; [rewrite Hm; reflexivity|]. split; [rewrite Hn'; reflexivity|].
    split; [rewrite Hnn'; reflexivity|].
    intros r c Hc. rewrite (Hget r c Hc). unfold DenseMatrix.columns in Hc.
    unfold folded. simpl fold_left. fold (folded op line (r - row)).
    destruct (c =? column + j) eqn:Ec.
    + apply Z.eqb_eq in Ec. subst c. f_equal.
      destruct (fst e =? r - row) eqn:Er.
      * apply Z.eqb_eq in Er. replace r with (row + fst e) by lia.
        unfold M0'. apply get_set_same.
      * apply Z.eqb_neq in Er. unfold M0'. apply get_set_other; lia.
    + apply Z.eqb_neq in Ec. unfold M0'. apply get_set_other; lia.
Qed.

Variable sp : SparseMatrix T.
Hypothesis Hrows : sp_rows sp = m.
Hypothesis Hcols : sp_columns sp = n.
Variable fuel : nat.
Hypothesis Hfuel : (Z.to_nat (Z.max m n) <= fuel)%nat.

Lemma update_sparse_spec :
  SparseSpec.indices_ok sp ->
  exists M',
    DenseSubmatrix.update_sparse op fuel sm sp M = Some M' /\
    updated sm (fun r c => folded op (sp_line sp (r - row)) (c - column)
                                  (DenseMatrix.get M r c)) M M'.
Proof.
  destruct (view_bounds M sm Hwf Hvalid) as (B1 & B2 & B3 & B4 & B5 & B6 & B7 & B8).
  intros Hidx. unfold DenseSubmatrix.update_sparse.
  match goal with |- context [for_step fuel 0 m 1 ?body M] =>
    destruct (for_step_rule
                (fun i M0 => 0 <= i <= m /\
                   DenseMatrix.m_ M0 = DenseMatrix.m_ M /\
                   DenseMatrix.n_ M0 = DenseMatrix.n_ M /\
                   DenseMatrix.nn_ M0 = DenseMatrix.nn_ M /\
                   forall r c, 0 <= c < DenseMatrix.columns M ->
                     DenseMatrix.get M0 r c =
                       if (row <=? r) && (r <? row + i)
                       then folded op (sp_line sp (r - row)) (c - column)
                                   (DenseMatrix.get M r c)
                       else DenseMatrix.get M r c)
                m 1 body) with (fuel := fuel) (j := 0) (s := M)
      as (x' & M' & Hrun & (Hx' & Hm' & Hn' & Hnn' & Hget) & Hge)
  end.
  - lia.
  - intros i M0 (Hi & Hm0 & Hn0 & Hnn0 & Hget0) Hlt.
    split; [apply add_small; lia|].
    eexists. split; [reflexivity|]. rewrite (add_small row i) by lia.
    destruct (sparse_line_folded i (sp_line sp i)) with (M0 := M0)
      as (Hm1 & Hn1 & Hnn1 & Hget1); try lia.
    { intros e He. rewrite <- Hcols. apply (Hidx i e); [lia|exact He]. }
    cbv zeta in Hm1, Hn1, Hnn1, Hget1.
    split; [lia|]. split; [congruence|]. split; [congruence|]. split; [congruence|].
    intros r c Hc. rewrite (Hget1 r c Hc), (Hget0 r c Hc).
    destruct (r =? row + i) eqn:Er.
    + apply Z.eqb_eq in Er. subst r.
      replace (row <=? row + i) with true by (symmetry; apply Z.leb_le; lia).
      replace (row + i <? row + i) with false by (symmetry; apply Z.ltb_ge; lia).
      replace (row + i <? row + (i + 1)) with true by (symmetry; apply Z.ltb_lt; lia).
      simpl. replace (row + i - row) with i by lia. reflexivity.
    + apply Z.eqb_neq in Er.
      destruct (row <=? r) eqn:E1; simpl; [|reflexivity].
      destruct (r <? row + i) eqn:E2, (r <? row + (i + 1)) eqn:E3; try reflexivity; lia.
  - split; [lia|]. repeat (split; [reflexivity|]). intros r c Hc.
    destruct (row <=? r) eqn:E1, (r <? row + 0) eqn:E2; simpl; try reflexivity; lia.
  - lia.
  - exists M'. split; [exact Hrun|]. assert (x' = m) by lia. subst x'.
    repeat (split; [assumption|]). intros r c Hc. rewrite (Hget r c Hc).
    unfold covers. unfold DenseMatrix.columns in Hc. split.
    + intros Hd.
      replace (row <=? r) with true by (symmetry; apply Z.leb_le; lia).
      replace (r <? row + m) with true by (symmetry; apply Z.ltb_lt; lia).
      reflexivity.
    + intros Hd. destruct (row <=? r) eqn:E1; simpl; [|reflexivity].
      destruct (r <? row + m) eqn:E2; [|reflexivity].
      apply Z.leb_le in E1. apply Z.ltb_lt in E2.
      apply folded_none. intros e He Heq.
      assert (0 <= fst e < n).
      { rewrite <- Hcols. apply (Hidx (r - row) e); [lia|exact He]. }
      lia.
Qed.

Lemma update_sparse_opposite_spec :
  indices_ok_opposite sp ->
  exists M',
    DenseSubmatrix.update_sparse_opposite op fuel sm sp M = Some M' /\
    updated sm (fun r c => folded op (sp_line sp (c - column)) (r - row)
                                  (DenseMatrix.get M r c)) M M'.
Proof.
  destruct (view_bounds M sm Hwf Hvalid) as (B1 & B2 & B3 & B4 & B5 & B6 & B7 & B8).
  intros Hidx. unfold DenseSubmatrix.update_sparse_opposite.
  match goal with |- context [for_step fuel 0 n 1 ?body M] =>
    destruct (for_step_rule
                (fun j M0 => 0 <= j <= n /\
                   DenseMatrix.m_ M0 = DenseMatrix.m_ M /\
                   DenseMatrix.n_ M0 = DenseMatrix.n_ M /\
                   DenseMatrix.nn_ M0 = DenseMatrix.nn_ M /\
                   forall r c, 0 <= c < DenseMatrix.columns M ->
                     DenseMatrix.get M0 r c =
                       if (column <=? c) && (c <? column + j)
                       then folded op (sp_line sp (c - column)) (r - row)
                                   (DenseMatrix.get M r c)
                       else DenseMatrix.get M r c)
                n 1 body) with (fuel := fuel) (j := 0) (s := M)
      as (x' & M' & Hrun & (Hx' & Hm' & Hn' & Hnn' & Hget) & Hge)
  end.
  - lia.
  - intros j M0 (Hj & Hm0 & Hn0 & Hnn0 & Hget0) Hlt.
    split; [apply add_small; lia|].
    eexists. split; [reflexivity|]. rewrite (add_small column j) by lia.
    destruct (sparse_column_folded j (sp_line sp j)) with (M0 := M0)
      as (Hm1 & Hn1 & Hnn1 & Hget1); try lia.
    { intros e He. rewrite <- Hrows. apply (Hidx j e); [lia|exact He]. }
    cbv zeta in Hm1, Hn1, Hnn1, Hget1.
    split; [lia|]. split; [congruence|]. split; [congruence|]. split; [congruence|].
    intros r c Hc. rewrite (Hget1 r c Hc), (Hget0 r c Hc).
    destruct (c =? column + j) eqn:Ec.
    + apply Z.eqb_eq in Ec. subst c.
      replace (column <=? column + j) with true by (symmetry; apply Z.leb_le; lia).
      replace (column + j <? column + j) with false by (symmetry; apply Z.ltb_ge; lia).
      replace (column + j <? column + (j + 1)) with true by (symmetry; apply Z.ltb_lt; lia).
      simpl. replace (column + j - column) with j by lia. reflexivity.
    + apply Z.eqb_neq in Ec.
      destruct (column <=? c) eqn:E1; simpl; [|reflexivity].
      destruct (c <? column + j) eqn:E2, (c <? column + (j + 1)) eqn:E3; try reflexivity; lia.
  - split; [lia|]. repeat (split; [reflexivity|]). intros r c Hc.
    destruct (column <=? c) eqn:E1, (c <? column + 0) eqn:E2; simpl; try reflexivity; lia.
  - lia.
  - exists M'. split; [exact Hrun|]. assert (x' = n) by lia. subst x'.
    repeat (split; [assumption|]). intros r c Hc. rewrite (Hget r c Hc).
    unfold covers. unfold DenseMatrix.columns in Hc. split.
    + intros Hd.
      replace (column <=? c) with true by (symmetry; apply Z.leb_le; lia).
      replace (c <? column + n) with true by (symmetry; apply Z.ltb_lt; lia).
      reflexivity.
    + intros Hd. destruct (column <=? c) eqn:E1; simpl; [|reflexivity].
      destruct (c <? column + n) eqn:E2; [|reflexivity].
      apply Z.leb_le in E1. apply Z.ltb_lt in E2.
      apply folded_none. intros e He Heq.
      assert (0 <= fst e < m).
      { rewrite <- Hrows. apply (Hidx (c - column) e); [lia|exact He]. }
      lia.
Qed.

End SparseCompound.

(** *** The kernels of a view, on arbitrary operands *)

Lemma updated_ext {T : Type} `{ET : ElementTraits T}
      (sm : DenseSubmatrix.t) (f g : Z -> Z -> T) (M M' : DenseMatrix.t T) :
  ViewSpec.updated sm f M M' ->
  (forall r c, ViewSpec.covers sm r c -> f r c = g r c) ->
  ViewSpec.updated sm g M M'.
Proof.
  intros (Hm & Hn & Hnn & H) Hfg. repeat (split; [assumption|]).
  intros r c Hc. destruct (H r c Hc) as [H1 H2]. split; [|exact H2].
  intros Hd. rewrite <- Hfg by assumption. now apply H1.
Qed.

Lemma view_edge_C36_fuel :
  (Z.to_nat (Z.max (DenseSubmatrix.m_ view_edge) (DenseSubmatrix.n_ view_edge)) <= 6)%nat.
Proof. simpl. lia. Qed.

(** X6: on a shape-matched dense operand of the same storage order the
    intrinsic and the default kernel of [addAssign] both finish and leave
    [old + rhs(i,j)] in element [(i,j)] of the view and every other element
    of the matrix unchanged; the same holds for [subAssign] with [-]. *)
Theorem compound_kernels_agree {T : Type} `{ET : ElementTraits T} `{EL : !ElementLaws T}
        (junk : IntrinsicType T) (M : DenseMatrix.t T) (sm : DenseSubmatrix.t)
        (rhs : DenseSource T) (fuel : nat) :
  DenseMatrix.wf M ->
  ViewSpec.valid M sm ->
  src_rows rhs = DenseSubmatrix.rows sm ->
  src_columns rhs = DenseSubmatrix.columns sm ->
  ViewSpec.source_ok rhs ->
  (Z.to_nat (Z.max (DenseSubmatrix.rows sm) (DenseSubmatrix.columns sm)) <= fuel)%nat ->
  (exists Mv Md,
     DenseSubmatrix.addAssign_vectorized junk fuel sm rhs M = Some Mv /\
     DenseSubmatrix.addAssign_default fuel sm rhs M = Some Md /\
     ViewSpec.updated sm (ViewSpec.combined elem_add sm rhs M) M Mv /\
     ViewSpec.updated sm (ViewSpec.combined elem_add sm rhs M) M Md) /\
  (exists Mv Md,
     DenseSubmatrix.subAssign_vectorized junk fuel sm rhs M = Some Mv /\
     DenseSubmatrix.subAssign_default fuel sm rhs M = Some Md /\
     ViewSpec.updated sm (ViewSpec.combined elem_sub sm rhs M) M Mv /\
     ViewSpec.updated sm (ViewSpec.combined elem_sub sm rhs M) M Md).
Proof.
  intros Hwf Hvalid Hrows Hcols Hsrc Hfuel.
  split.
  - destruct (update_vectorized_spec elem_add junk M sm rhs Hwf Hvalid Hrows Hcols Hsrc
                fuel Hfuel) as (Mv & Hv & Huv).
    destruct (update_default_spec elem_add M sm rhs Hwf Hvalid fuel Hfuel)
      as (Md & Hd & Hud).
    exists Mv, Md. split; [exact Hv|]. split; [exact Hd|]. split; [exact Huv|exact Hud].
  - destruct (update_vectorized_spec elem_sub junk M sm rhs Hwf Hvalid Hrows Hcols Hsrc
                fuel Hfuel) as (Mv & Hv & Huv).
    destruct (update_default_spec elem_sub M sm rhs Hwf Hvalid fuel Hfuel)
      as (Md & Hd & Hud).
    exists Mv, Md. split; [exact Hv|]. split; [exact Hd|]. split; [exact Huv|exact Hud].
Qed.

Lemma compound_kernels_agree_witness :
  (exists Mv Md,
     DenseSubmatrix.addAssign_vectorized junk0 6 view_edge
       (DenseMatrix.as_source None C36) A10 = Some Mv /\
     DenseSubmatrix.addAssign_default 6 view_edge (DenseMatrix.as_source None C36) A10
       = Some Md /\
     ViewSpec.updated view_edge
       (ViewSpec.combined elem_add view_edge (DenseMatrix.as_source None C36) A10) A10 Mv /\
     ViewSpec.updated view_edge
       (ViewSpec.combined elem_add view_edge (DenseMatrix.as_source None C36) A10) A10 Md) /\
  (exists Mv Md,
     DenseSubmatrix.subAssign_vectorized junk0 6 view_edge
       (DenseMatrix.as_source None C36) A10 = Some Mv /\
     DenseSubmatrix.subAssign_default 6 view_edge (DenseMatrix.as_source None C36) A10
       = Some Md /\
     ViewSpec.updated view_edge
       (ViewSpec.combined elem_sub view_edge (DenseMatrix.as_source None C36) A10) A10 Mv /\
     ViewSpec.updated view_edge
       (ViewSpec.combined elem_sub view_edge (DenseMatrix.as_source None C36) A10) A10 Md).
Proof.
  exact (compound_kernels_agree junk0 A10 view_edge (DenseMatrix.as_source None C36) 6
           A10_wf view_edge_valid eq_refl eq_refl (as_source_ok None C36)
           view_edge_C36_fuel).
Defined.

(** X7: the blocked kernels for a dense operand of the opposite storage
    order ([assign], [addAssign], [subAssign]) finish and combine element
    [(i,j)] of the operand into element [(i,j)] of the view, each element
    once; every other element of the matrix is unchanged. The view is not
    within one block of the largest [size_t]. *)
Theorem blocked_kernel_updates {T : Type} `{ET : ElementTraits T}
        (op : T -> T -> T) (M : DenseMatrix.t T) (sm : DenseSubmatrix.t)
        (rhs : DenseSource T) (fuel : nat) :
  DenseMatrix.wf M ->
  ViewSpec.valid M sm ->
  (Z.to_nat (Z.max (DenseSubmatrix.rows sm) (DenseSubmatrix.columns sm)) <= fuel)%nat ->
  DenseSubmatrix.rows sm + 16 < SizeT.modulus ->
  DenseSubmatrix.columns sm + 16 < SizeT.modulus ->
  exists M',
    DenseSubmatrix.update_opposite op fuel sm rhs M = Some M' /\
    ViewSpec.updated sm (ViewSpec.combined op sm rhs M) M M'.
Proof.
  intros Hwf Hvalid Hfuel Hm Hn.
  exact (update_opposite_spec op M sm rhs Hwf Hvalid fuel Hfuel Hm Hn).
Qed.

Lemma blocked_kernel_updates_witness :
  exists M',
    DenseSubmatrix.update_opposite Z.add 6 view_edge (DenseMatrix.as_source None C36) A10
      = Some M' /\
    ViewSpec.updated view_edge
      (ViewSpec.combined Z.add view_edge (DenseMatrix.as_source None C36) A10) A10 M'.
Proof.
  assert (Hm : DenseSubmatrix.rows view_edge + 16 < SizeT.modulus)
    by (unfold SizeT.modulus; simpl; lia).
  assert (Hn : DenseSubmatrix.columns view_edge + 16 < SizeT.modulus)
    by (unfold SizeT.modulus; simpl; lia).
  exact (blocked_kernel_updates Z.add A10 view_edge (DenseMatrix.as_source None C36) 6
           A10_wf view_edge_valid view_edge_C36_fuel Hm Hn).
Defined.

(** X8: the kernels for a sparse operand of the same storage order combine
    every explicit element [(i, index, value)] into element [(i,index)] of
    the view, in the order of the line; an element hit by one explicit
    element of its line becomes [op old value], an element hit by none and
    every element outside the view keep their values. *)
Theorem sparse_kernel_updates {T : Type} `{ET : ElementTraits T}
        (op : T -> T -> T) (M : DenseMatrix.t T) (sm : DenseSubmatrix.t)
        (sp : SparseMatrix T) (fuel : nat) :
  DenseMatrix.wf M ->
  ViewSpec.valid M sm ->
  sp_rows sp = DenseSubmatrix.rows sm ->
  sp_columns sp = DenseSubmatrix.columns sm ->
  SparseSpec.indices_ok sp ->
  (Z.to_nat (Z.max (DenseSubmatrix.rows sm) (DenseSubmatrix.columns sm)) <= fuel)%nat ->
  exists M',
    DenseSubmatrix.update_sparse op fuel sm sp M = Some M' /\
    ViewSpec.updated sm
      (fun r c => SparseUpdate.folded op (sp_line sp (r - DenseSubmatrix.row_ sm))
                    (c - DenseSubmatrix.column_ sm) (DenseMatrix.get M r c)) M M' /\
    forall i j, 0 <= i < DenseSubmatrix.rows sm -> 0 <= j < DenseSubmatrix.columns sm ->
      let r := DenseSubmatrix.row_ sm + i in
      let c := DenseSubmatrix.column_ sm + j in
      (forall v, NoDup (map fst (sp_line sp i)) -> In (j, v) (sp_line sp i) ->
                 DenseMatrix.get M' r c = op (DenseMatrix.get M r c) v) /\
      ((forall v, ~ In (j, v) (sp_line sp i)) ->
       DenseMatrix.get M' r c = DenseMatrix.get M r c).
Proof.
  intros Hwf Hvalid Hrows Hcols Hidx Hfuel.
  unfold DenseSubmatrix.rows, DenseSubmatrix.columns in *.
  destruct (view_bounds M sm Hwf Hvalid) as (B1 & B2 & B3 & B4 & B5 & B6 & B7 & B8).
  destruct (update_sparse_spec op M sm Hwf Hvalid sp Hrows Hcols fuel Hfuel Hidx)
    as (M' & Hrun & Hup).
  exists M'. split; [exact Hrun|]. split; [exact Hup|].
  intros i j Hi Hj. destruct Hup as (_ & _ & _ & H).
  destruct (H (DenseSubmatrix.row_ sm + i) (DenseSubmatrix.column_ sm + j)) as [Hin _];
    [unfold DenseMatrix.columns; lia|].
  rewrite Hin by (unfold ViewSpec.covers; lia).
  replace (DenseSubmatrix.row_ sm + i - DenseSubmatrix.row_ sm) with i by lia.
  replace (DenseSubmatrix.column_ sm + j - DenseSubmatrix.column_ sm) with j by lia.
  split.
  - intros v Hnd Hv. now apply folded_unique.
  - intros Hno. apply folded_none. intros e He Heq. apply (Hno (snd e)).
    rewrite <- Heq. now destruct e.
Qed.

Lemma S3_indices_ok : SparseSpec.indices_ok S3.
Proof.
  intros i e Hi He. simpl in *.
  destruct (i =? 0); [|destruct (i =? 2)]; simpl in He;
    repeat (destruct He as [He|He]; [subst e; simpl; lia|]); destruct He.
Qed.

Lemma view_4x4_valid : ViewSpec.valid A10 view_4x4.
Proof. unfold ViewSpec.valid. simpl. repeat split; lia. Qed.

Lemma view_4x4_fuel :
  (Z.to_nat (Z.max (DenseSubmatrix.rows view_4x4) (DenseSubmatrix.columns view_4x4)) <= 4)%nat.
Proof. simpl. lia. Qed.

Lemma sparse_kernel_updates_witness :
  exists M',
    DenseSubmatrix.update_sparse Z.add 4 view_4x4 S3 A10 = Some M' /\
    ViewSpec.updated view_4x4
      (fun r c => SparseUpdate.folded Z.add (sp_line S3 (r - 2)) (c - 3)
                    (DenseMatrix.get A10 r c)) A10 M' /\
    forall i j, 0 <= i < DenseSubmatrix.rows view_4x4 ->
                0 <= j < DenseSubmatrix.columns view_4x4 ->
      (forall v, NoDup (map fst (sp_line S3 i)) -> In (j, v) (sp_line S3 i) ->
                 DenseMatrix.get M' (2 + i) (3 + j) = DenseMatrix.get A10 (2 + i) (3 + j) + v) /\
      ((forall v, ~ In (j, v) (sp_line S3 i)) ->
       DenseMatrix.get M' (2 + i) (3 + j) = DenseMatrix.get A10 (2 + i) (3 + j)).
Proof.
  exact (sparse_kernel_updates Z.add A10 view_4x4 S3 4 A10_wf view_4x4_valid
           eq_refl eq_refl S3_indices_ok view_4x4_fuel).
Defined.

(** X9: the kernels for a sparse operand of the opposite storage order
    combine every explicit element [(index, j, value)] of column [j] into
    element [(index,j)] of the view; an element hit by one explicit element
    of its column becomes [op old value], an element hit by none and every
    element outside the view keep their values. *)
Theorem sparse_opposite_kernel_updates {T : Type} `{ET : ElementTraits T}
        (op : T -> T -> T) (M : DenseMatrix.t T) (sm : DenseSubmatrix.t)
        (sp : SparseMatrix T) (fuel : nat) :
  DenseMatrix.wf M ->
  ViewSpec.valid M sm ->
  sp_rows sp = DenseSubmatrix.rows sm ->
  sp_columns sp = DenseSubmatrix.columns sm ->
  SparseUpdate.indices_ok_opposite sp ->
  (Z.to_nat (Z.max (DenseSubmatrix.rows sm) (DenseSubmatrix.columns sm)) <= fuel)%nat ->
  exists M',
    DenseSubmatrix.update_sparse_opposite op fuel sm sp M = Some M' /\
    ViewSpec.updated sm
      (fun r c => SparseUpdate.folded op (sp_line sp (c - DenseSubmatrix.column_ sm))
                    (r - DenseSubmatrix.row_ sm) (DenseMatrix.get M r c)) M M' /\
    forall i j, 0 <= i < DenseSubmatrix.rows sm -> 0 <= j < DenseSubmatrix.columns sm ->
      let r := DenseSubmatrix.row_ sm + i in
      let c := DenseSubmatrix.column_ sm + j in
      (forall v, NoDup (map fst (sp_line sp j)) -> In (i, v) (sp_line sp j) ->
                 DenseMatrix.get M' r c = op (DenseMatrix.get M r c) v) /\
      ((forall v, ~ In (i, v) (sp_line sp j)) ->
       DenseMatrix.get M' r c = DenseMatrix.get M r c).
Proof.
  intros Hwf Hvalid Hrows Hcols Hidx Hfuel.
  unfold DenseSubmatrix.rows, DenseSubmatrix.columns in *.
  destruct (view_bounds M sm Hwf Hvalid) as (B1 & B2 & B3 & B4 & B5 & B6 & B7 & B8).
  destruct (update_sparse_opposite_spec op M sm Hwf Hvalid sp Hrows Hcols fuel Hfuel Hidx)
    as (M' & Hrun & Hup).
  exists M'. split; [exact Hrun|]. split; [exact Hup|].
  intros i j Hi Hj. destruct Hup as (_ & _ & _ & H).
  destruct (H (DenseSubmatrix.row_ sm + i) (DenseSubmatrix.column_ sm + j)) as [Hin _];
    [unfold DenseMatrix.columns; lia|].
  rewrite Hin by (unfold ViewSpec.covers; lia).
  replace (DenseSubmatrix.row_ sm + i - DenseSubmatrix.row_ sm) with i by lia.
  replace (DenseSubmatrix.column_ sm + j - DenseSubmatrix.column_ sm) with j by lia.
  split.
  - intros v Hnd Hv. now apply folded_unique.
  - intros Hno. apply folded_none. intros e He Heq. apply (Hno (snd e)).
    rewrite <- Heq. now destruct e.
Qed.

Lemma S3_indices_ok_opposite : SparseUpdate.indices_ok_opposite S3_opposite.
Proof.
  intros i e Hi He. unfold S3_opposite in *. simpl in *.
  destruct (i =? 0); [|destruct (i =? 2)]; simpl in He;
    repeat (destruct He as [He|He]; [subst e; simpl; lia|]); destruct He.
Qed.

Lemma sparse_opposite_kernel_updates_witness :
  exists M',
    DenseSubmatrix.update_sparse_opposite Z.add 4 view_4x4 S3_opposite A10 = Some M' /\
    ViewSpec.updated view_4x4
      (fun r c => SparseUpdate.folded Z.add (sp_line S3_opposite (c - 3)) (r - 2)
                    (DenseMatrix.get A10 r c)) A10 M' /\
    forall i j, 0 <= i < DenseSubmatrix.rows view_4x4 ->
                0 <= j < DenseSubmatrix.columns view_4x4 ->
      (forall v, NoDup (map fst (sp_line S3_opposite j)) -> In (i, v) (sp_line S3_opposite j) ->
                 DenseMatrix.get M' (2 + i) (3 + j) = DenseMatrix.get A10 (2 + i) (3 + j) + v) /\
      ((forall v, ~ In (i, v) (sp_line S3_opposite j)) ->
       DenseMatrix.get M' (2 + i) (3 + j) = DenseMatrix.get A10 (2 + i) (3 + j)).
Proof.
  exact (sparse_opposite_kernel_updates Z.add A10 view_4x4 S3_opposite 4 A10_wf
           view_4x4_valid eq_refl eq_refl S3_indices_ok_opposite view_4x4_fuel).
Defined.

(** *** The compound assignment operators of a view *)

Section CompoundOperators.
Context {T : Type} `{ET : ElementTraits T} `{EL : !ElementLaws T}.
Import ViewSpec.

(** The dense dispatch of [blaze::addAssign] and [blaze::subAssign]:
    whichever kernel the traits pick finishes and combines the operand. *)
Lemma compound_dense_spec (op : T -> T -> T) (b : bool) junk fuel
      (M : DenseMatrix.t T) sm rhs :
  DenseMatrix.wf M -> valid M sm ->
  src_rows rhs = DenseSubmatrix.rows sm ->
  src_columns rhs = DenseSubmatrix.columns sm ->
  source_ok rhs ->
  (Z.to_nat (Z.max (DenseSubmatrix.rows sm) (DenseSubmatrix.columns sm)) <= fuel)%nat ->
  exists M',
    (if b then DenseSubmatrix.update_vectorized op junk fuel sm rhs M
     else DenseSubmatrix.update_default op fuel sm rhs M) = Some M' /\
    updated sm (combined op sm rhs M) M M'.
Proof.
  intros Hwf Hvalid Hrows Hcols Hsrc Hfuel. destruct b.
  - exact (update_vectorized_spec op junk M sm rhs Hwf Hvalid Hrows Hcols Hsrc fuel Hfuel).
  - exact (update_default_spec op M sm rhs Hwf Hvalid fuel Hfuel).
Qed.

End CompoundOperators.

(** X10: [operator+=] and [operator-=] with another view of the same matrix,
    overlapping or not, return normally and leave in element [(i,j)] of the
    destination its old value combined with the old value of element
    [(i,j)] of the source; every other element of the matrix and every
    other matrix are unchanged. *)
Theorem compound_assignment_aliased
        {T : Type} `{ET : ElementTraits T} `{EL : !ElementLaws T}
        (junk : IntrinsicType T) (fuel : nat) (h : heap T)
        (dst src : DenseSubmatrix.t) :
  DenseSubmatrix.matrix_ src = DenseSubmatrix.matrix_ dst ->
  DenseMatrix.wf (h (DenseSubmatrix.matrix_ dst)) ->
  ViewSpec.valid (h (DenseSubmatrix.matrix_ dst)) dst ->
  ViewSpec.valid (h (DenseSubmatrix.matrix_ dst)) src ->
  DenseSubmatrix.rows dst = DenseSubmatrix.rows src ->
  DenseSubmatrix.columns dst = DenseSubmatrix.columns src ->
  (Z.to_nat (Z.max (DenseSubmatrix.rows dst) (DenseSubmatrix.columns dst)) <= fuel)%nat ->
  let a := DenseSubmatrix.matrix_ dst in
  let M := h a in
  let from_src r c :=
    DenseMatrix.get M (DenseSubmatrix.row_ src + (r - DenseSubmatrix.row_ dst))
                      (DenseSubmatrix.column_ src + (c - DenseSubmatrix.column_ dst)) in
  (exists M',
     DenseSubmatrix.add_assign_op junk fuel dst (DenseSubmatrix.OfSubmatrix src) h
       = (heap_upd h a M', Returns tt) /\
     ViewSpec.updated dst (fun r c => elem_add (DenseMatrix.get M r c) (from_src r c)) M M') /\
  (exists M',
     DenseSubmatrix.sub_assign_op junk fuel dst (DenseSubmatrix.OfSubmatrix src) h
       = (heap_upd h a M', Returns tt) /\
     ViewSpec.updated dst (fun r c => elem_sub (DenseMatrix.get M r c) (from_src r c)) M M').
Proof.
  intros Hsame Hwf Hdst Hsrc Hrows Hcols Hfuel a M from_src. subst a.
  assert (Halias : DenseSubmatrix.canAlias src (DenseSubmatrix.matrix_ dst) = true).
  { unfold DenseSubmatrix.canAlias. rewrite Hsame. apply Nat.eqb_refl. }
  assert (Hshape :
    negb (DenseSubmatrix.rows dst =? DenseSubmatrix.rows src) ||
    negb (DenseSubmatrix.columns dst =? DenseSubmatrix.columns src) = false).
  { rewrite Hrows, Hcols, !Z.eqb_refl. reflexivity. }
  set (tmp := DenseMatrix.as_source None
                (DenseMatrix.temporary (DenseSubmatrix.as_source junk src M))).
  assert (Hkernel : forall (op : T -> T -> T) (b : bool), exists M',
    (if b then DenseSubmatrix.update_vectorized op junk fuel dst tmp M
     else DenseSubmatrix.update_default op fuel dst tmp M) = Some M' /\
    ViewSpec.updated dst (fun r c => op (DenseMatrix.get M r c) (from_src r c)) M M').
  { intros op b.
    destruct (compound_dense_spec op b junk fuel M dst tmp) as (M' & Hrun & Hup);
      try assumption.
    - simpl. symmetry. exact Hrows.
    - simpl. symmetry. exact Hcols.
    - apply as_source_ok.
    - exists M'. split; [exact Hrun|].
      eapply updated_ext; [exact Hup|].
      intros r c Hcov. unfold ViewSpec.combined. f_equal.
      unfold tmp, M.
      rewrite (temporary_image junk fuel h dst src Hsame Hwf Hsrc Hrows Hcols Hfuel r c Hcov).
      reflexivity. }
  split.
  - destruct (Hkernel elem_add (IsVectorizable && IsVectorizable && IT_addition))
      as (M' & Hrun & Hup).
    exists M'. split; [|exact Hup].
    unfold DenseSubmatrix.add_assign_op.
    cbn [DenseSubmatrix.rhs_rows DenseSubmatrix.rhs_columns DenseSubmatrix.rhs_canAlias].
    rewrite Hshape, Halias.
    unfold DenseSubmatrix.rhs_temporary. rewrite Hsame. fold M. fold tmp.
    unfold DenseSubmatrix.addAssign, DenseSubmatrix.addAssign_dense.
    change (src_vectorizable tmp) with IsVectorizable.
    unfold DenseSubmatrix.update_vectorized, DenseSubmatrix.update_default in Hrun.
    rewrite Hrun. reflexivity.
  - destruct (Hkernel elem_sub (IsVectorizable && IsVectorizable && IT_subtraction))
      as (M' & Hrun & Hup).
    exists M'. split; [|exact Hup].
    unfold DenseSubmatrix.sub_assign_op.
    cbn [DenseSubmatrix.rhs_rows DenseSubmatrix.rhs_columns DenseSubmatrix.rhs_canAlias].
    rewrite Hshape, Halias.
    unfold DenseSubmatrix.rhs_temporary. rewrite Hsame. fold M. fold tmp.
    unfold DenseSubmatrix.subAssign, DenseSubmatrix.subAssign_dense.
    change (src_vectorizable tmp) with IsVectorizable.
    unfold DenseSubmatrix.update_vectorized, DenseSubmatrix.update_default in Hrun.
    rewrite Hrun. reflexivity.
Qed.

(** [submatrix(A,0,0,4,4) += submatrix(A,1,1,4,4)] and the same with [-=]
    on the 10x10 matrix. *)
Lemma compound_assignment_aliased_witness :
  (exists M',
     DenseSubmatrix.add_assign_op junk0 4 view_dst (DenseSubmatrix.OfSubmatrix view_src) heap_A10
       = (heap_upd heap_A10 0%nat M', Returns tt) /\
     ViewSpec.updated view_dst
       (fun r c => DenseMatrix.get A10 r c + DenseMatrix.get A10 (1 + (r - 0)) (1 + (c - 0)))
       A10 M') /\
  (exists M',
     DenseSubmatrix.sub_assign_op junk0 4 view_dst (DenseSubmatrix.OfSubmatrix view_src) heap_A10
       = (heap_upd heap_A10 0%nat M', Returns tt) /\
     ViewSpec.updated view_dst
       (fun r c => DenseMatrix.get A10 r c - DenseMatrix.get A10 (1 + (r - 0)) (1 + (c - 0)))
       A10 M').
Proof.
  exact (compound_assignment_aliased junk0 4 heap_A10 view_dst view_src eq_refl A10_wf
           view_dst_valid view_src_valid eq_refl eq_refl view_dst_fuel).
Defined.

(** Why the temporary is needed: run on the source view itself,
    [submatrix(A,1,1,4,4) += submatrix(A,0,0,4,4)] adds row 0 of the source
    to row 1 of the matrix and then reads row 1 of the source from there;
    element [(2,3)] of the matrix becomes [23 + (12 + 1)] and not the
    [23 + 12] that the operator leaves there. *)
Lemma addAssign_in_place_differs :
  (exists M',
     DenseSubmatrix.addAssign junk0 4 view_src
       (DenseSubmatrix.rhs_operand junk0 heap_A10 0%nat (DenseSubmatrix.OfSubmatrix view_dst))
       A10 = Some M' /\
     DenseMatrix.get M' 2 3 = 36) /\
  snd (DenseSubmatrix.add_assign_op junk0 4 view_src
         (DenseSubmatrix.OfSubmatrix view_dst) heap_A10) = Returns tt /\
  DenseMatrix.get
    (fst (DenseSubmatrix.add_assign_op junk0 4 view_src
            (DenseSubmatrix.OfSubmatrix view_dst) heap_A10) 0%nat) 2 3 = 35.
Proof.
  split; [eexists; split; [reflexivity|vm_compute; reflexivity]|].
  split; vm_compute; reflexivity.
Qed.

(** X11: [operator=], [operator+=] and [operator-=] with a dense matrix
    object other than the one the view borrows, of the shape of the view:
    each returns normally, leaves [B(i,j)], [old + B(i,j)], [old - B(i,j)]
    in element [(i,j)] of the view, and changes nothing else: not the rest
    of the borrowed matrix, not [B], not any other matrix. *)
Theorem distinct_matrix_operand
        {T : Type} `{ET : ElementTraits T} `{EL : !ElementLaws T}
        (cacheSize : Z) (junk : IntrinsicType T) (fuel : nat) (h : heap T)
        (this : DenseSubmatrix.t) (b : addr) :
  b <> DenseSubmatrix.matrix_ this ->
  DenseMatrix.wf (h (DenseSubmatrix.matrix_ this)) ->
  ViewSpec.valid (h (DenseSubmatrix.matrix_ this)) this ->
  DenseMatrix.rows (h b) = DenseSubmatrix.rows this ->
  DenseMatrix.columns (h b) = DenseSubmatrix.columns this ->
  (Z.to_nat (Z.max (DenseSubmatrix.rows this) (DenseSubmatrix.columns this)) <= fuel)%nat ->
  let a := DenseSubmatrix.matrix_ this in
  let M := h a in
  let B r c := ViewSpec.image this (DenseMatrix.get (h b)) r c in
  (exists M',
     DenseSubmatrix.assign_op cacheSize junk fuel this (DenseSubmatrix.OfMatrix b) h
       = (heap_upd h a M', Returns tt) /\
     ViewSpec.updated this B M M') /\
  (exists M',
     DenseSubmatrix.add_assign_op junk fuel this (DenseSubmatrix.OfMatrix b) h
       = (heap_upd h a M', Returns tt) /\
     ViewSpec.updated this (fun r c => elem_add (DenseMatrix.get M r c) (B r c)) M M') /\
  (exists M',
     DenseSubmatrix.sub_assign_op junk fuel this (DenseSubmatrix.OfMatrix b) h
       = (heap_upd h a M', Returns tt) /\
     ViewSpec.updated this (fun r c => elem_sub (DenseMatrix.get M r c) (B r c)) M M') /\
  (forall M', heap_upd h a M' b = h b).
Proof.
  intros Hb Hwf Hvalid Hrows Hcols Hfuel a M B. subst a.
  assert (Halias : Nat.eqb b (DenseSubmatrix.matrix_ this) = false)
    by (now apply Nat.eqb_neq).
  assert (Hshape :
    negb (DenseSubmatrix.rows this =? DenseMatrix.rows (h b)) ||
    negb (DenseSubmatrix.columns this =? DenseMatrix.columns (h b)) = false).
  { rewrite Hrows, Hcols, !Z.eqb_refl. reflexivity. }
  set (src := DenseMatrix.as_source (Some b) (h b)).
  assert (Hoperand : DenseSubmatrix.rhs_operand junk h (DenseSubmatrix.matrix_ this)
                       (DenseSubmatrix.OfMatrix b)
                     = DenseSubmatrix.InPlace (fun _ => src)).
  { unfold DenseSubmatrix.rhs_operand, heap_upd. rewrite Halias. reflexivity. }
  split; [|split; [|split]].
  - destruct (assign_dense_spec cacheSize fuel M this src) as (M' & Hrun & Hup);
      try assumption; [apply as_source_ok|].
    exists M'. split; [|exact Hup].
    unfold DenseSubmatrix.assign_op.
    cbn [DenseSubmatrix.rhs_rows DenseSubmatrix.rhs_columns DenseSubmatrix.rhs_canAlias
         DenseSubmatrix.rhs_IsSparseMatrix].
    rewrite Hshape, Halias, Hoperand. fold M.
    change (DenseSubmatrix.assign cacheSize fuel this (DenseSubmatrix.InPlace (fun _ => src)) M)
      with (DenseSubmatrix.assign cacheSize fuel this (DenseSubmatrix.Apart (Dense src)) M).
    rewrite Hrun. reflexivity.
  - destruct (compound_dense_spec elem_add (IsVectorizable && IsVectorizable && IT_addition)
                junk fuel M this src) as (M' & Hrun & Hup);
      try assumption; [apply as_source_ok|].
    exists M'. split; [|exact Hup].
    unfold DenseSubmatrix.add_assign_op.
    cbn [DenseSubmatrix.rhs_rows DenseSubmatrix.rhs_columns DenseSubmatrix.rhs_canAlias].
    rewrite Hshape, Halias, Hoperand. fold M.
    unfold DenseSubmatrix.addAssign, DenseSubmatrix.addAssign_dense.
    change (src_vectorizable src) with IsVectorizable.
    unfold DenseSubmatrix.update_vectorized, DenseSubmatrix.update_default in Hrun.
    rewrite Hrun. reflexivity.
  - destruct (compound_dense_spec elem_sub (IsVectorizable && IsVectorizable && IT_subtraction)
                junk fuel M this src) as (M' & Hrun & Hup);
      try assumption; [apply as_source_ok|].
    exists M'. split; [|exact Hup].
    unfold DenseSubmatrix.sub_assign_op.
    cbn [DenseSubmatrix.rhs_rows DenseSubmatrix.rhs_columns DenseSubmatrix.rhs_canAlias].
    rewrite Hshape, Halias, Hoperand. fold M.
    unfold DenseSubmatrix.subAssign, DenseSubmatrix.subAssign_dense.
    change (src_vectorizable src) with IsVectorizable.
    unfold DenseSubmatrix.update_vectorized, DenseSubmatrix.update_default in Hrun.
    rewrite Hrun. reflexivity.
  - intros M'. unfold heap_upd. now rewrite Halias.
Qed.

(** *** The copy assignment of a view *)

Lemma distinct_matrix_operand_witness :
  (exists M',
     DenseSubmatrix.assign_op cacheSize_default junk0 4 view_4x4
       (DenseSubmatrix.OfMatrix 1%nat) heap_A10_B44
       = (heap_upd heap_A10_B44 0%nat M', Returns tt) /\
     ViewSpec.updated view_4x4 (ViewSpec.image view_4x4 (DenseMatrix.get B44)) A10 M') /\
  (exists M',
     DenseSubmatrix.add_assign_op junk0 4 view_4x4 (DenseSubmatrix.OfMatrix 1%nat) heap_A10_B44
       = (heap_upd heap_A10_B44 0%nat M', Returns tt) /\
     ViewSpec.updated view_4x4
       (fun r c => DenseMatrix.get A10 r c + ViewSpec.image view_4x4 (DenseMatrix.get B44) r c)
       A10 M') /\
  (exists M',
     DenseSubmatrix.sub_assign_op junk0 4 view_4x4 (DenseSubmatrix.OfMatrix 1%nat) heap_A10_B44
       = (heap_upd heap_A10_B44 0%nat M', Returns tt) /\
     ViewSpec.updated view_4x4
       (fun r c => DenseMatrix.get A10 r c - ViewSpec.image view_4x4 (DenseMatrix.get B44) r c)
       A10 M') /\
  (forall M', heap_upd heap_A10_B44 0%nat M' 1%nat = B44).
Proof.
  assert (Hb : 1%nat <> DenseSubmatrix.matrix_ view_4x4) by discriminate.
  exact (distinct_matrix_operand cacheSize_default junk0 4 heap_A10_B44 view_4x4 1%nat
           Hb A10_wf view_4x4_valid eq_refl eq_refl view_4x4_fuel).
Defined.

(** X12: the copy assignment [operator=( const DenseSubmatrix& )] returns
    without writing when both views start at the same element of the same
    matrix, whatever their shapes; otherwise it throws "Submatrix sizes do
    not match" with the heap untouched exactly when the shapes differ. *)
Theorem copy_assign_outcome {T : Type} `{ET : ElementTraits T}
        (cacheSize : Z) (junk : IntrinsicType T) (fuel : nat)
        (this rhs : DenseSubmatrix.t) (h : heap T) :
  let same_origin :=
    DenseSubmatrix.matrix_ this = DenseSubmatrix.matrix_ rhs /\
    DenseSubmatrix.row_ this = DenseSubmatrix.row_ rhs /\
    DenseSubmatrix.column_ this = DenseSubmatrix.column_ rhs in
  let mismatch :=
    DenseSubmatrix.rows this <> DenseSubmatrix.rows rhs \/
    DenseSubmatrix.columns this <> DenseSubmatrix.columns rhs in
  let result := DenseSubmatrix.copy_assign cacheSize junk fuel this rhs h in
  (same_origin -> result = (h, Returns tt)) /\
  (~ same_origin -> mismatch -> result = (h, Throws "Submatrix sizes do not match")) /\
  (~ same_origin -> ~ mismatch -> forall what, snd result <> Throws what) /\
  (forall what, snd result = Throws what -> fst result = h).
Proof.
  intros same_origin mismatch result.
  assert (Horigin :
    Nat.eqb (DenseSubmatrix.matrix_ this) (DenseSubmatrix.matrix_ rhs) &&
    (DenseSubmatrix.row_ this =? DenseSubmatrix.row_ rhs) &&
    (DenseSubmatrix.column_ this =? DenseSubmatrix.column_ rhs) = true <-> same_origin).
  { unfold same_origin. rewrite !andb_true_iff, Nat.eqb_eq, !Z.eqb_eq. tauto. }
  assert (Hshape :
    negb (DenseSubmatrix.rows this =? DenseSubmatrix.rows rhs) ||
    negb (DenseSubmatrix.columns this =? DenseSubmatrix.columns rhs) = true <-> mismatch).
  { unfold mismatch. rewrite orb_true_iff, !negb_true_iff, !Z.eqb_neq. tauto. }
  unfold result, DenseSubmatrix.copy_assign.
  destruct (Nat.eqb (DenseSubmatrix.matrix_ this) (DenseSubmatrix.matrix_ rhs) &&
            (DenseSubmatrix.row_ this =? DenseSubmatrix.row_ rhs) &&
            (DenseSubmatrix.column_ this =? DenseSubmatrix.column_ rhs)) eqn:Eo.
  - assert (Hso : same_origin) by (now apply Horigin).
    split; [reflexivity|]. split; [tauto|]. split; [tauto|]. reflexivity.
  - assert (Hso : ~ same_origin) by (intros Hs; apply Horigin in Hs; discriminate).
    split; [tauto|].
    destruct (negb (DenseSubmatrix.rows this =? DenseSubmatrix.rows rhs) ||
              negb (DenseSubmatrix.columns this =? DenseSubmatrix.columns rhs)) eqn:Es.
    + assert (Hmis : mismatch) by (now apply Hshape).
      split; [reflexivity|]. split; [tauto|]. reflexivity.
    + assert (Hmis : ~ mismatch) by (intros Hs; apply Hshape in Hs; discriminate).
      split; [tauto|]. split.
      * intros _ _ what.
        destruct (DenseSubmatrix.canAlias rhs (DenseSubmatrix.matrix_ this));
          apply finish_never_throws.
      * intros what Hthrow. exfalso. revert Hthrow.
        destruct (DenseSubmatrix.canAlias rhs (DenseSubmatrix.matrix_ this));
          apply finish_never_throws.
Qed.

(** *** Intrinsic access through a view *)

Section IntrinsicAccess.
Context {T : Type} `{ET : ElementTraits T} `{EL : !ElementLaws T}.
Import ViewSpec Rewritten.

Variable junk : IntrinsicType T.
Variable M : DenseMatrix.t T.
Variable sm : DenseSubmatrix.t.
Hypothesis Hwf : DenseMatrix.wf M.
Hypothesis Hvalid : valid M sm.

Local Abbreviation row := (DenseSubmatrix.row_ sm).
Local Abbreviation column := (DenseSubmatrix.column_ sm).
Local Abbreviation m := (DenseSubmatrix.m_ sm).
Local Abbreviation n := (DenseSubmatrix.n_ sm).
Local Abbreviation W := (IT_size).

Lemma storeu_rewritten i j value :
  0 <= i < m -> 0 <= j < n -> j mod W = 0 ->
  rewritten (stored sm i j) (fun r c => value (c - (column + j))) M
            (DenseSubmatrix.storeu sm M i j value).
Proof.
  destruct (view_bounds M sm Hwf Hvalid) as (B1 & B2 & B3 & B4 & B5 & B6 & B7 & B8).
  pose proof width_pos as HW.
  pose proof Hwf as (_ & Hn_nn & _ & Hpad).
  pose proof Hvalid as (_ & _ & _ & _ & _ & Hcol & Hrest & Hfinal & _).
  unfold DenseMatrix.columns in Hcol.
  pose proof (Z.mod_pos_bound n W HW) as HmodW.
  assert (Hfm : (n - n mod W) mod W = 0).
  { rewrite Zminus_mod_idemp_r. rewrite Z.sub_diag. apply Z.mod_0_l. lia. }
  intros Hi Hj Hjm.
  assert (Hjf : j <= n - n mod W).
  { destruct (Z_le_gt_dec j (n - n mod W)) as [Hle|Hgt]; [exact Hle|].
    pose proof (multiple_step W (n - n mod W) j HW Hfm Hjm). lia. }
  unfold DenseSubmatrix.storeu.
  rewrite (add_small row i), (add_small column j) by lia.
  assert (Hfull : column + j + W <= DenseMatrix.nn_ M ->
                  (j + W <= n \/ column + n = DenseMatrix.n_ M) ->
                  rewritten (stored sm i j) (fun r c => value (c - (column + j))) M
                    (DenseMatrix.storeu M (row + i) (column + j) value)).
  { intros Hfit Hedge. repeat (split; [reflexivity|]).
    intros r c Hc. unfold DenseMatrix.columns in Hc. unfold Rewritten.stored. split.
    - intros (Hr & Hc1 & Hc2). subst r.
      replace c with (column + j + (c - (column + j))) at 1 by lia.
      apply get_storeu_lane. lia.
    - intros Hd. apply get_storeu_other; try lia. }
  destruct (DenseSubmatrix.aligned_ sm) eqn:Ha; simpl.
  - destruct (aligned_facts M sm Hvalid Ha) as [Hc [He|He]].
    + apply Hfull; [|right; exact He].
      assert (Hcj : (column + j) mod W = 0).
      { rewrite Z.add_mod, Hc, Hjm by lia. reflexivity. }
      pose proof (multiple_step W (column + j) (DenseMatrix.nn_ M) HW Hcj Hpad). lia.
    + assert (j + W <= n) by (apply multiple_step; lia).
      apply Hfull; [lia|now left].
  - destruct (j =? DenseSubmatrix.final_ sm) eqn:Ef; simpl.
    + apply Z.eqb_eq in Ef. rewrite Hfinal, Hrest in Ef. rewrite Hrest.
      apply (rewritten_weaken M _ (fun r c => r = row + i /\ column + j <= c < column + j + n mod W)).
      { intros r c _. unfold Rewritten.stored. lia. }
      apply (for_range_ind
               (fun k M2 => rewritten (fun r c => r = row + i /\ column + j <= c < column + j + k)
                              (fun r c => value (c - (column + j))) M M2)).
      * lia.
      * apply rewritten_start. intros r c. cbv beta. lia.
      * intros k M2 Hk H2. rewrite (add_small (column + j) k) by lia.
        eapply rewritten_set; [exact Hwf|exact H2| | |].
        -- unfold DenseMatrix.columns. lia.
        -- intros r c. cbv beta. lia.
        -- cbv beta. f_equal. lia.
    + apply Z.eqb_neq in Ef. rewrite Hfinal, Hrest in Ef.
      assert (j + W <= n - n mod W) by (apply multiple_step; lia).
      apply Hfull; [lia|left; lia].
Qed.

End IntrinsicAccess.

(** X13: [storeu( i, j, value )] of a view writes the lanes of [value] that
    lie inside the view and no other element of the matrix, in particular
    none outside the view; [loadu( i, j )] and [load( i, j )] then read
    these lanes back, and [store] and [stream] do what [storeu] does. *)
Theorem storeu_loadu_round_trip {T : Type} `{ET : ElementTraits T} `{EL : !ElementLaws T}
        (junk : IntrinsicType T) (M : DenseMatrix.t T) (sm : DenseSubmatrix.t)
        (i j : Z) (value : IntrinsicType T) :
  DenseMatrix.wf M -> ViewSpec.valid M sm ->
  0 <= i < DenseSubmatrix.rows sm -> 0 <= j < DenseSubmatrix.columns sm ->
  j mod IT_size = 0 ->
  let M' := DenseSubmatrix.storeu sm M i j value in
  (forall k, 0 <= k < IT_size -> j + k < DenseSubmatrix.columns sm ->
     DenseSubmatrix.loadu junk sm M' i j k = value k /\
     DenseSubmatrix.load junk sm M' i j k = value k /\
     DenseMatrix.get M' (DenseSubmatrix.row_ sm + i) (DenseSubmatrix.column_ sm + j + k)
       = value k) /\
  (forall r c, 0 <= c < DenseMatrix.columns M ->
     r <> DenseSubmatrix.row_ sm + i \/ c < DenseSubmatrix.column_ sm + j \/
     DenseSubmatrix.column_ sm + j + IT_size <= c \/ ~ ViewSpec.covers sm r c ->
     DenseMatrix.get M' r c = DenseMatrix.get M r c) /\
  DenseSubmatrix.store sm M i j value = M' /\
  DenseSubmatrix.stream sm M i j value = M'.
Proof.
  intros Hwf Hvalid Hi Hj Hjm M'.
  unfold DenseSubmatrix.rows, DenseSubmatrix.columns in *.
  destruct (view_bounds M sm Hwf Hvalid) as (B1 & B2 & B3 & B4 & B5 & B6 & B7 & B8).
  pose proof (storeu_rewritten M sm Hwf Hvalid i j value Hi Hj Hjm) as Hre.
  fold M' in Hre.
  assert (Hget : forall k, 0 <= k < IT_size -> j + k < DenseSubmatrix.n_ sm ->
            DenseMatrix.get M' (DenseSubmatrix.row_ sm + i) (DenseSubmatrix.column_ sm + j + k)
            = value k).
  { intros k Hk Hlt. destruct Hre as (_ & _ & _ & H).
    destruct (H (DenseSubmatrix.row_ sm + i) (DenseSubmatrix.column_ sm + j + k)) as [H1 _].
    { unfold DenseMatrix.columns. lia. }
    rewrite H1 by (unfold Rewritten.stored; lia). f_equal. lia. }
  assert (Hload : forall k, 0 <= k < IT_size -> j + k < DenseSubmatrix.n_ sm ->
            DenseSubmatrix.load junk sm M' i j k = value k).
  { intros k Hk Hlt.
    rewrite (load_lane junk M sm Hwf Hvalid M' i j k) by lia. now apply Hget. }
  split; [|split; [|split; reflexivity]].
  - intros k Hk Hlt. split; [exact (Hload k Hk Hlt)|]. split; [exact (Hload k Hk Hlt)|].
    now apply Hget.
  - intros r c Hc Hout.
    eapply rewritten_untouched; [exact Hre|exact Hc|].
    unfold Rewritten.stored, ViewSpec.covers in *. lia.
Qed.

(** An unaligned view with a remainder: the store at its last vector. *)
Lemma storeu_loadu_round_trip_witness :
  (forall k, 0 <= k < 4 -> 0 + k < DenseSubmatrix.columns view_3x3 ->
     DenseSubmatrix.loadu junk0 view_3x3
       (DenseSubmatrix.storeu view_3x3 A10 1 0 (fun k => 70 + k)) 1 0 k = 70 + k /\
     DenseSubmatrix.load junk0 view_3x3
       (DenseSubmatrix.storeu view_3x3 A10 1 0 (fun k => 70 + k)) 1 0 k = 70 + k /\
     DenseMatrix.get (DenseSubmatrix.storeu view_3x3 A10 1 0 (fun k => 70 + k))
       (0 + 1) (0 + 0 + k) = 70 + k) /\
  (forall r c, 0 <= c < DenseMatrix.columns A10 ->
     r <> 0 + 1 \/ c < 0 + 0 \/ 0 + 0 + 4 <= c \/ ~ ViewSpec.covers view_3x3 r c ->
     DenseMatrix.get (DenseSubmatrix.storeu view_3x3 A10 1 0 (fun k => 70 + k)) r c
       = DenseMatrix.get A10 r c) /\
  DenseSubmatrix.store view_3x3 A10 1 0 (fun k => 70 + k)
    = DenseSubmatrix.storeu view_3x3 A10 1 0 (fun k => 70 + k) /\
  DenseSubmatrix.stream view_3x3 A10 1 0 (fun k => 70 + k)
    = DenseSubmatrix.storeu view_3x3 A10 1 0 (fun k => 70 + k).
Proof.
  assert (Hv : ViewSpec.valid A10 view_3x3)
    by (unfold ViewSpec.valid; simpl; repeat split; lia).
  assert (Hi : 0 <= 1 < DenseSubmatrix.rows view_3x3) by (simpl; lia).
  assert (Hj : 0 <= 0 < DenseSubmatrix.columns view_3x3) by (simpl; lia).
  exact (storeu_loadu_round_trip junk0 A10 view_3x3 1 0 (fun k => 70 + k)
           A10_wf Hv Hi Hj eq_refl).
Defined.

(** *** Views of views; the capacity of a vector *)

(** X14: a view of a view reads the outer view: for a window that lies inside
    the outer view, element [(i,j)] of [submatrix( V, row, column, m, n )]
    is element [(row+i, column+j)] of [V]. *)
Theorem view_of_view_reads_outer {T : Type} `{ET : ElementTraits T}
        (h : heap T) (V : DenseSubmatrix.t) (row column m n : Z) :
  DenseMatrix.wf (h (DenseSubmatrix.matrix_ V)) ->
  ViewSpec.valid (h (DenseSubmatrix.matrix_ V)) V ->
  0 <= row -> 0 <= column -> 0 <= m -> 0 <= n ->
  row + m <= DenseSubmatrix.rows V -> column + n <= DenseSubmatrix.columns V ->
  exists sm,
    DenseSubmatrix.submatrix_of_view h V row column m n = Returns sm /\
    DenseSubmatrix.rows sm = m /\ DenseSubmatrix.columns sm = n /\
    forall i j, 0 <= i < m -> 0 <= j < n ->
      DenseSubmatrix.get h sm i j = DenseSubmatrix.get h V (row + i) (column + j).
Proof.
  intros Hwf Hvalid H1 H2 H3 H4 H5 H6.
  unfold DenseSubmatrix.rows, DenseSubmatrix.columns in *.
  destruct (view_bounds _ V Hwf Hvalid) as (B1 & B2 & B3 & B4 & B5 & B6 & B7 & B8).
  pose proof Hwf as (Hrm & Hn_nn & _ & _).
  pose proof Hvalid as (_ & _ & _ & _ & Hvr & Hvc & _).
  unfold DenseMatrix.rows, DenseMatrix.columns in Hvr, Hvc.
  unfold DenseSubmatrix.submatrix_of_view.
  rewrite (add_small (DenseSubmatrix.row_ V) row) by lia.
  rewrite (add_small (DenseSubmatrix.column_ V) column) by lia.
  destruct (ctor_in_bounds h (DenseSubmatrix.matrix_ V)
              (DenseSubmatrix.row_ V + row) (DenseSubmatrix.column_ V + column) m n)
    as (sm & Hsm & Ha & Hrow & Hcol & Hm & Hn & _);
    try (unfold DenseMatrix.rows, DenseMatrix.columns, SizeT.in_range in *; lia).
  exists sm. split; [exact Hsm|]. split; [exact Hm|]. split; [exact Hn|].
  intros i j Hi Hj. unfold DenseSubmatrix.get. rewrite Ha, Hrow, Hcol.
  rewrite !add_small by lia. f_equal; lia.
Qed.

Lemma view_of_view_reads_outer_witness :
  exists sm,
    DenseSubmatrix.submatrix_of_view heap_A10 view_4x4 1 2 3 2 = Returns sm /\
    DenseSubmatrix.rows sm = 3 /\ DenseSubmatrix.columns sm = 2 /\
    forall i j, 0 <= i < 3 -> 0 <= j < 2 ->
      DenseSubmatrix.get heap_A10 sm i j = DenseSubmatrix.get heap_A10 view_4x4 (1 + i) (2 + j).
Proof.
  apply (view_of_view_reads_outer heap_A10 view_4x4 1 2 3 2 A10_wf view_4x4_valid);
    simpl; lia.
Defined.

Section VectorCapacity.
Context {T : Type} `{ET : ElementTraits T}.
Import DynamicVector VectorSpec.

Hypothesis width : 0 < IT_size < SizeT.modulus.
Hypothesis Hnum : IsNumeric = true.

Lemma adjustCapacity_multiple n :
  SizeT.in_range n -> fits n -> adjustCapacity n mod IT_size = 0.
Proof.
  intros Hn Hf. rewrite (adjustCapacity_fits width n Hnum Hn Hf).
  apply (round_up_smallest width n).
Qed.

Lemma resize_aligned fresh n preserve v :
  SizeT.in_range n -> fits n -> aligned v -> aligned (resize fresh n preserve v).
Proof.
  intros Hn Hf (Hs & Hfs & Hc). unfold resize, aligned. rewrite Hnum.
  destruct (capacity_ v <? n); [|destruct (true && (n <? size_ v))]; simpl;
    repeat split; try assumption; try apply Hn.
  now apply adjustCapacity_multiple.
Qed.

Lemma reachable_aligned v : reachable true v -> aligned v.
Proof.
  intros Hreach.
  induction Hreach as
    [ null | fresh n [Hn Hf] | fresh n init [Hn Hf]
    | fresh n preserve v Hv IH [Hn Hf] | fresh n v Hv IH [Hn Hf]
    | fresh n preserve v Hv IH Hn [Hn' Hf] | fresh v Hv IH | v Hv IH
    | v index x Hv IH Hi | v w Hv IHv Hw' IHw | v w Hv IHv Hw' IHw ].
  - unfold aligned. simpl. split; [unfold SizeT.in_range, SizeT.modulus; lia|].
    split; [apply fits_zero; lia|]. apply Z.mod_0_l. lia.
  - unfold aligned. simpl. split; [exact Hn|]. split; [auto|].
    apply adjustCapacity_multiple; auto.
  - unfold aligned. simpl. split; [exact Hn|]. split; [auto|].
    apply adjustCapacity_multiple; auto.
  - apply resize_aligned; auto.
  - destruct IH as (Hs & Hfs & Hc). unfold reserve, aligned.
    destruct (capacity_ v <? n); simpl; repeat split; try assumption; try apply Hs.
    apply adjustCapacity_multiple; auto.
  - apply resize_aligned; auto.
  - apply resize_aligned; auto.
    + unfold SizeT.in_range, SizeT.modulus. lia.
    + apply fits_zero. lia.
  - exact IH.
  - exact IH.
  - exact IHw.
  - exact IHv.
Qed.

Lemma reachable_padded v : reachable true v -> invariant v.
Proof.
  intros Hreach.
  induction Hreach as
    [ null | fresh n [Hn Hf] | fresh n init [Hn Hf]
    | fresh n preserve v Hv IH [Hn Hf] | fresh n v Hv IH [Hn Hf]
    | fresh n preserve v Hv IH Hn [Hn' Hf] | fresh v Hv IH | v Hv IH
    | v index x Hv IH Hi | v w Hv IHv Hw' IHw | v w Hv IHv Hw' IHw ].
  - apply ctor_default_invariant.
  - apply ctor_size_invariant; auto.
  - apply ctor_init_invariant; auto.
  - apply resize_invariant; auto.
  - apply reserve_invariant; auto.
  - apply resize_invariant; auto.
  - apply resize_invariant; auto.
    + unfold SizeT.in_range, SizeT.modulus. lia.
    + intros _. apply fits_zero. lia.
  - apply reset_invariant; auto.
  - apply set_invariant; auto.
  - exact IHw.
  - exact IHv.
Qed.

Lemma ctor_copy_spec fresh v :
  reachable true v ->
  capacity (ctor_copy fresh v) <= capacity v /\
  capacity v mod IT_size = 0 /\
  size (ctor_copy fresh v) = size v /\
  (forall i, 0 <= i < size v -> get (ctor_copy fresh v) i = get v i) /\
  invariant (ctor_copy fresh v).
Proof.
  intros Hreach.
  destruct (reachable_aligned v Hreach) as (Hs & Hfs & Hc).
  destruct (reachable_padded v Hreach) as [Hcap Hpad].
  pose proof (adjustCapacity_geq width (size_ v) Hnum Hs Hfs) as Hge.
  assert (Hle : adjustCapacity (size_ v) <= capacity_ v).
  { rewrite (adjustCapacity_fits width (size_ v) Hnum Hs Hfs).
    apply (round_up_smallest width (size_ v)); assumption. }
  assert (Hcopy : forall i, 0 <= i < adjustCapacity (size_ v) ->
                            v_ (ctor_copy fresh v) i = v_ v i).
  { intros i Hi. unfold ctor_copy. simpl.
    rewrite (for_range_upd 0 (adjustCapacity (size_ v)) (v_ v)).
    replace (0 <=? i) with true by (symmetry; apply Z.leb_le; lia).
    replace (i <? adjustCapacity (size_ v)) with true by (symmetry; apply Z.ltb_lt; lia).
    reflexivity. }
  unfold capacity, size, get.
  split; [exact Hle|]. split; [exact Hc|]. split; [reflexivity|]. split.
  - intros i Hi. apply Hcopy. lia.
  - split; [exact Hge|].
    intros i Hi. change (size_ (ctor_copy fresh v)) with (size_ v) in Hi.
    change (capacity_ (ctor_copy fresh v)) with (adjustCapacity (size_ v)) in Hi.
    destruct Hs as [Hs0 _].
    rewrite Hcopy by lia. apply Hpad. lia.
Qed.

End VectorCapacity.

(** *** Copying, reserving and resizing a vector *)

Lemma int_width : 0 < IT_size (T := Z) < SizeT.modulus.
Proof. unfold SizeT.modulus. simpl. lia. Qed.

Lemma size_ok_small (n : Z) :
  0 <= n < 1000 -> DynamicVector.size_ok (T := Z) true n.
Proof.
  intros Hn. split.
  - unfold SizeT.in_range, SizeT.modulus. lia.
  - intros _. unfold DynamicVector.fits, SizeT.modulus.
    change (IT_size (T := Z)) with 4.
    pose proof (Z.mod_pos_bound (4 - n mod 4) 4). lia.
Qed.

Lemma v53_reachable : DynamicVector.reachable true v53.
Proof.
  apply DynamicVector.reach_resize.
  - apply DynamicVector.reach_set.
    + apply DynamicVector.reach_size. apply size_ok_small. lia.
    + simpl. lia.
  - apply size_ok_small. lia.
Qed.

(** X15: the copy constructor of a numeric vector that was built with sizes
    whose aligned capacity fits: the capacity of the source is a multiple
    of the vector width, so the capacity of the copy does not exceed it
    (the constructor's internal assertion), and the copy has the size and
    the elements of the source, capacity >= size and a padding of
    [Type()]. *)
Theorem ctor_copy_copies {T : Type} `{ET : ElementTraits T}
        (fresh : array T) (v : DynamicVector.t T) :
  0 < IT_size < SizeT.modulus ->
  IsNumeric = true ->
  DynamicVector.reachable true v ->
  DynamicVector.capacity (DynamicVector.ctor_copy fresh v) <= DynamicVector.capacity v /\
  DynamicVector.capacity v mod IT_size = 0 /\
  DynamicVector.size (DynamicVector.ctor_copy fresh v) = DynamicVector.size v /\
  (forall i, 0 <= i < DynamicVector.size v ->
     DynamicVector.get (DynamicVector.ctor_copy fresh v) i = DynamicVector.get v i) /\
  DynamicVector.invariant (DynamicVector.ctor_copy fresh v).
Proof. intros Hw Hnum Hreach. now apply ctor_copy_spec. Qed.

Lemma ctor_copy_copies_witness :
  DynamicVector.capacity (DynamicVector.ctor_copy (fun _ => 5) v53) <= DynamicVector.capacity v53 /\
  DynamicVector.capacity v53 mod 4 = 0 /\
  DynamicVector.size (DynamicVector.ctor_copy (fun _ => 5) v53) = DynamicVector.size v53 /\
  (forall i, 0 <= i < DynamicVector.size v53 ->
     DynamicVector.get (DynamicVector.ctor_copy (fun _ => 5) v53) i = DynamicVector.get v53 i) /\
  DynamicVector.invariant (DynamicVector.ctor_copy (fun _ => 5) v53).
Proof.
  exact (ctor_copy_copies (fun _ => 5) v53 int_width eq_refl v53_reachable).
Defined.

(** X16: provided that, for a numeric element type, the aligned capacity
    for [n] fits in [size_t] whenever the capacity is below [n] (the case
    in which [reserve] reallocates), [reserve( n )] keeps the size and the
    elements; afterwards the capacity is at least [n] and at least what it
    was; and when the capacity already suffices the vector is not
    touched. *)
Theorem reserve_keeps_elements {T : Type} `{ET : ElementTraits T}
        (fresh : array T) (n : Z) (v : DynamicVector.t T) :
  0 < IT_size < SizeT.modulus ->
  SizeT.in_range n ->
  0 <= DynamicVector.size v ->
  (IsNumeric = true -> DynamicVector.capacity v < n -> DynamicVector.fits n) ->
  let w := DynamicVector.reserve fresh n v in
  DynamicVector.size w = DynamicVector.size v /\
  (forall i, 0 <= i < DynamicVector.size v -> DynamicVector.get w i = DynamicVector.get v i) /\
  n <= DynamicVector.capacity w /\
  DynamicVector.capacity v <= DynamicVector.capacity w /\
  (n <= DynamicVector.capacity v -> w = v).
Proof.
  intros Hw Hn Hs Hf w. unfold w, DynamicVector.size, DynamicVector.capacity,
    DynamicVector.get, DynamicVector.reserve in *.
  destruct (DynamicVector.capacity_ v <? n) eqn:E.
  - apply Z.ltb_lt in E. simpl.
    assert (Hge : n <= DynamicVector.adjustCapacity n).
    { destruct IsNumeric eqn:Enum.
      - apply (adjustCapacity_geq Hw n Enum Hn). now apply Hf.
      - unfold DynamicVector.adjustCapacity. rewrite Enum. lia. }
    split; [reflexivity|]. split; [|split; [exact Hge|split; lia]].
    intros i Hi.
    assert (Hcopy : DynamicVector.std_copy (DynamicVector.v_ v) (DynamicVector.size_ v) fresh i
                    = DynamicVector.v_ v i).
    { rewrite std_copy_spec.
      replace (0 <=? i) with true by (symmetry; apply Z.leb_le; lia).
      replace (i <? DynamicVector.size_ v) with true by (symmetry; apply Z.ltb_lt; lia).
      reflexivity. }
    destruct IsNumeric; [|exact Hcopy].
    rewrite fill_default_outside by lia. exact Hcopy.
  - apply Z.ltb_ge in E. split; [reflexivity|]. split; [reflexivity|].
    split; [lia|]. split; [lia|reflexivity].
Qed.

Lemma reserve_keeps_elements_witness :
  DynamicVector.size (DynamicVector.reserve (fun _ => 5) 100 v53) = DynamicVector.size v53 /\
  (forall i, 0 <= i < DynamicVector.size v53 ->
     DynamicVector.get (DynamicVector.reserve (fun _ => 5) 100 v53) i = DynamicVector.get v53 i) /\
  100 <= DynamicVector.capacity (DynamicVector.reserve (fun _ => 5) 100 v53) /\
  DynamicVector.capacity v53 <= DynamicVector.capacity (DynamicVector.reserve (fun _ => 5) 100 v53) /\
  (100 <= DynamicVector.capacity v53 -> DynamicVector.reserve (fun _ => 5) 100 v53 = v53).
Proof.
  assert (Hn : SizeT.in_range 100) by (unfold SizeT.in_range, SizeT.modulus; lia).
  assert (Hs : 0 <= DynamicVector.size v53) by (simpl; lia).
  assert (Hf : IsNumeric (T := Z) = true -> DynamicVector.capacity v53 < 100 ->
               DynamicVector.fits (T := Z) 100).
  { intros _ _. apply (size_ok_small 100); [lia|reflexivity]. }
  exact (reserve_keeps_elements (fun _ => 5) 100 v53 int_width Hn Hs Hf).
Defined.

Lemma resize_preserve_spec {T : Type} `{ET : ElementTraits T}
        (fresh : array T) (n : Z) (v : DynamicVector.t T) :
  0 < IT_size < SizeT.modulus ->
  SizeT.in_range n ->
  0 <= DynamicVector.size v ->
  (IsNumeric = true -> DynamicVector.capacity v < n -> DynamicVector.fits n) ->
  let w := DynamicVector.resize fresh n true v in
  DynamicVector.size w = n /\
  (forall i, 0 <= i < Z.min n (DynamicVector.size v) ->
     DynamicVector.get w i = DynamicVector.get v i) /\
  n <= DynamicVector.capacity w /\
  (IsNumeric = true -> DynamicVector.invariant v ->
   forall i, DynamicVector.size v <= i < n -> DynamicVector.get w i = Type_default).
Proof.
  intros Hw Hn Hs Hf w. unfold w, DynamicVector.size, DynamicVector.capacity,
    DynamicVector.get, DynamicVector.resize in *.
  destruct (DynamicVector.capacity_ v <? n) eqn:E.
  - apply Z.ltb_lt in E. simpl.
    assert (Hge : n <= DynamicVector.adjustCapacity n).
    { destruct IsNumeric eqn:Enum.
      - apply (adjustCapacity_geq Hw n Enum Hn). now apply Hf.
      - unfold DynamicVector.adjustCapacity. rewrite Enum. lia. }
    split; [reflexivity|]. split; [|split; [exact Hge|]].
    + intros i Hi.
      assert (Hcopy : DynamicVector.std_copy (DynamicVector.v_ v) (DynamicVector.size_ v) fresh i
                      = DynamicVector.v_ v i).
      { rewrite std_copy_spec.
        replace (0 <=? i) with true by (symmetry; apply Z.leb_le; lia).
        replace (i <? DynamicVector.size_ v) with true by (symmetry; apply Z.ltb_lt; lia).
        reflexivity. }
      destruct IsNumeric; [|exact Hcopy].
      rewrite fill_default_outside by lia. exact Hcopy.
    + intros Hnum _ i Hi. rewrite Hnum. apply fill_default_inside. lia.
  - apply Z.ltb_ge in E.
    destruct (IsNumeric && (n <? DynamicVector.size_ v)) eqn:Eshrink; simpl.
    + apply andb_true_iff in Eshrink. destruct Eshrink as [_ Elt]. apply Z.ltb_lt in Elt.
      split; [reflexivity|]. split; [|split; [exact E|]].
      * intros i Hi. apply fill_default_outside. lia.
      * intros _ _ i Hi. lia.
    + split; [reflexivity|]. split; [reflexivity|]. split; [exact E|].
      intros Hnum [Hcap Hpad] i Hi. apply Hpad. lia.
Qed.

(** X17: provided that, for a numeric element type, the aligned capacity
    for [n] fits in [size_t] whenever the capacity is below [n] (the case
    in which [resize] reallocates), [resize( n, true )] sets the size to
    [n] and keeps the elements below the old and the new size, whether or
    not it reallocates; the capacity is at least [n]; and for a numeric
    vector with a default padding the elements from the old size up to [n]
    are [Type()]. *)
Theorem resize_preserves {T : Type} `{ET : ElementTraits T}
        (fresh : array T) (n : Z) (v : DynamicVector.t T) :
  0 < IT_size < SizeT.modulus ->
  SizeT.in_range n ->
  0 <= DynamicVector.size v ->
  (IsNumeric = true -> DynamicVector.capacity v < n -> DynamicVector.fits n) ->
  let w := DynamicVector.resize fresh n true v in
  DynamicVector.size w = n /\
  (forall i, 0 <= i < Z.min n (DynamicVector.size v) ->
     DynamicVector.get w i = DynamicVector.get v i) /\
  n <= DynamicVector.capacity w /\
  (IsNumeric = true -> DynamicVector.invariant v ->
   forall i, DynamicVector.size v <= i < n -> DynamicVector.get w i = Type_default).
Proof. intros Hw Hn Hs Hf. now apply resize_preserve_spec. Qed.

Lemma resize_preserves_witness :
  DynamicVector.size (DynamicVector.resize (fun _ => 5) 9 true v53) = 9 /\
  (forall i, 0 <= i < Z.min 9 (DynamicVector.size v53) ->
     DynamicVector.get (DynamicVector.resize (fun _ => 5) 9 true v53) i = DynamicVector.get v53 i) /\
  9 <= DynamicVector.capacity (DynamicVector.resize (fun _ => 5) 9 true v53) /\
  (IsNumeric (T := Z) = true -> DynamicVector.invariant v53 ->
   forall i, DynamicVector.size v53 <= i < 9 ->
     DynamicVector.get (DynamicVector.resize (fun _ => 5) 9 true v53) i = 0).
Proof.
  assert (Hn : SizeT.in_range 9) by (unfold SizeT.in_range, SizeT.modulus; lia).
  assert (Hs : 0 <= DynamicVector.size v53) by (simpl; lia).
  assert (Hf : IsNumeric (T := Z) = true -> DynamicVector.capacity v53 < 9 ->
               DynamicVector.fits (T := Z) 9).
  { intros _ _. apply (size_ok_small 9); [lia|reflexivity]. }
  exact (resize_preserves (fun _ => 5) 9 v53 int_width Hn Hs Hf).
Defined.

(** X18: provided that [size + n] is a [size_t] and that, for a numeric
    element type, its aligned capacity fits in [size_t] whenever the
    capacity is below [size + n] (the case in which [extend] reallocates),
    [extend( n, true )] makes the size [size + n], keeps every element and
    leaves a capacity of at least [size + n]. *)
Theorem extend_grows {T : Type} `{ET : ElementTraits T}
        (fresh : array T) (n : Z) (v : DynamicVector.t T) :
  0 < IT_size < SizeT.modulus ->
  0 <= n -> 0 <= DynamicVector.size v ->
  DynamicVector.size v + n < SizeT.modulus ->
  (IsNumeric = true -> DynamicVector.capacity v < DynamicVector.size v + n ->
   DynamicVector.fits (DynamicVector.size v + n)) ->
  let w := DynamicVector.extend fresh n true v in
  DynamicVector.size w = DynamicVector.size v + n /\
  (forall i, 0 <= i < DynamicVector.size v -> DynamicVector.get w i = DynamicVector.get v i) /\
  DynamicVector.size v + n <= DynamicVector.capacity w.
Proof.
  intros Hw Hn Hs Hsum Hf w. unfold w, DynamicVector.extend.
  unfold DynamicVector.size in *.
  rewrite (add_small (DynamicVector.size_ v) n) by lia.
  assert (Hin : SizeT.in_range (DynamicVector.size_ v + n)) by (unfold SizeT.in_range; lia).
  destruct (resize_preserve_spec fresh (DynamicVector.size_ v + n) v Hw Hin Hs Hf)
    as (H1 & H2 & H3 & _).
  split; [exact H1|]. split; [|exact H3].
  intros i Hi. apply H2. unfold DynamicVector.size. lia.
Qed.

Lemma extend_grows_witness :
  DynamicVector.size (DynamicVector.extend (fun _ => 5) 6 true v53) = DynamicVector.size v53 + 6 /\
  (forall i, 0 <= i < DynamicVector.size v53 ->
     DynamicVector.get (DynamicVector.extend (fun _ => 5) 6 true v53) i = DynamicVector.get v53 i) /\
  DynamicVector.size v53 + 6 <= DynamicVector.capacity (DynamicVector.extend (fun _ => 5) 6 true v53).
Proof.
  assert (Hn : 0 <= 6) by lia.
  assert (Hs : 0 <= DynamicVector.size v53) by (simpl; lia).
  assert (Hsum : DynamicVector.size v53 + 6 < SizeT.modulus) by (unfold SizeT.modulus; simpl; lia).
  assert (Hf : IsNumeric (T := Z) = true ->
               DynamicVector.capacity v53 < DynamicVector.size v53 + 6 ->
               DynamicVector.fits (T := Z) (DynamicVector.size v53 + 6)).
  { intros _ _. apply (size_ok_small 9); [lia|reflexivity]. }
  exact (extend_grows (fun _ => 5) 6 v53 int_width Hn Hs Hsum Hf).
Defined.

(** Without the proviso on the aligned capacity the three operations end
    with a capacity below the size they were asked for: on an empty vector
    of [int], [reserve( SIZE_MAX )], [resize( SIZE_MAX, true )] and
    [extend( SIZE_MAX - 1, true )] compute the capacity 0. *)
Lemma growth_wraps_without_fit (null fresh : array Z) :
  let empty := DynamicVector.ctor_default null in
  DynamicVector.capacity (DynamicVector.reserve fresh SIZE_MAX empty) = 0 /\
  DynamicVector.size (DynamicVector.resize fresh SIZE_MAX true empty) = SIZE_MAX /\
  DynamicVector.capacity (DynamicVector.resize fresh SIZE_MAX true empty) = 0 /\
  DynamicVector.size (DynamicVector.extend fresh (SIZE_MAX - 1) true empty) = SIZE_MAX - 1 /\
  DynamicVector.capacity (DynamicVector.extend fresh (SIZE_MAX - 1) true empty) = 0 /\
  ~ DynamicVector.fits (T := Z) SIZE_MAX /\
  ~ DynamicVector.fits (T := Z) (SIZE_MAX - 1).
Proof.
  cbv zeta. repeat split; try (vm_compute; reflexivity);
    unfold DynamicVector.fits; vm_compute; intros H; discriminate H.
Qed.

(** X19: [clear()] makes the size 0 and keeps the capacity; for a numeric
    vector with a default padding a following [resize( n )] within the
    capacity does not reallocate and yields [n] elements of [Type()]. *)
Theorem clear_then_resize {T : Type} `{ET : ElementTraits T}
        (f1 f2 : array T) (n : Z) (preserve : bool) (v : DynamicVector.t T) :
  IsNumeric = true ->
  DynamicVector.invariant v ->
  0 <= DynamicVector.size v ->
  0 <= n <= DynamicVector.capacity v ->
  let c := DynamicVector.clear f1 v in
  let w := DynamicVector.resize f2 n preserve c in
  DynamicVector.size c = 0 /\
  DynamicVector.capacity c = DynamicVector.capacity v /\
  DynamicVector.size w = n /\
  DynamicVector.capacity w = DynamicVector.capacity v /\
  forall i, 0 <= i < n -> DynamicVector.get w i = Type_default.
Proof.
  intros Hnum [Hcap Hpad] Hs Hn c w.
  unfold DynamicVector.size, DynamicVector.capacity, DynamicVector.get in *.
  assert (Hc : c = DynamicVector.mk 0 (DynamicVector.capacity_ v)
                 (if 0 <? DynamicVector.size_ v
                  then DynamicVector.fill_default 0 (DynamicVector.size_ v) (DynamicVector.v_ v)
                  else DynamicVector.v_ v)).
  { unfold c, DynamicVector.clear, DynamicVector.resize. rewrite Hnum.
    replace (DynamicVector.capacity_ v <? 0) with false by (symmetry; apply Z.ltb_ge; lia).
    simpl. destruct (0 <? DynamicVector.size_ v); reflexivity. }
  assert (Hcv : forall i, 0 <= i < DynamicVector.capacity_ v ->
                          DynamicVector.v_ c i = Type_default).
  { intros i Hi. rewrite Hc. simpl.
    destruct (0 <? DynamicVector.size_ v) eqn:E.
    - destruct (Z.lt_ge_cases i (DynamicVector.size_ v)).
      + apply fill_default_inside. lia.
      + rewrite fill_default_outside by lia. apply Hpad. lia.
    - apply Z.ltb_ge in E. apply Hpad. lia. }
  assert (Hw : w = DynamicVector.mk n (DynamicVector.capacity_ v) (DynamicVector.v_ c)).
  { unfold w, DynamicVector.resize. rewrite Hc. simpl.
    replace (DynamicVector.capacity_ v <? n) with false by (symmetry; apply Z.ltb_ge; lia).
    replace (n <? 0) with false by (symmetry; apply Z.ltb_ge; lia).
    rewrite andb_false_r. reflexivity. }
  split; [rewrite Hc; reflexivity|]. split; [rewrite Hc; reflexivity|].
  split; [rewrite Hw; reflexivity|]. split; [rewrite Hw; reflexivity|].
  intros i Hi. rewrite Hw. simpl. apply Hcv. lia.
Qed.

Lemma v53_invariant : DynamicVector.invariant v53.
Proof. exact (reachable_padded int_width eq_refl v53 v53_reachable). Qed.

Lemma clear_then_resize_witness :
  DynamicVector.size (DynamicVector.clear (fun _ => 1) v53) = 0 /\
  DynamicVector.capacity (DynamicVector.clear (fun _ => 1) v53) = DynamicVector.capacity v53 /\
  DynamicVector.size (DynamicVector.resize (fun _ => 2) 6 true (DynamicVector.clear (fun _ => 1) v53)) = 6 /\
  DynamicVector.capacity (DynamicVector.resize (fun _ => 2) 6 true (DynamicVector.clear (fun _ => 1) v53))
    = DynamicVector.capacity v53 /\
  forall i, 0 <= i < 6 ->
    DynamicVector.get (DynamicVector.resize (fun _ => 2) 6 true (DynamicVector.clear (fun _ => 1) v53)) i = 0.
Proof.
  assert (Hs : 0 <= DynamicVector.size v53) by (simpl; lia).
  assert (Hn : 0 <= 6 <= DynamicVector.capacity v53) by (vm_compute; split; discriminate).
  exact (clear_then_resize (fun _ => 1) (fun _ => 2) 6 true v53 eq_refl v53_invariant Hs Hn).
Defined.

(** *** Construction, assignment and utilities of a vector *)

Lemma for_range_upd_inside {T : Type} lo hi (g : Z -> T) (a : array T) k :
  lo <= k < hi -> for_range lo hi (fun i b => upd b i (g i)) a k = g k.
Proof.
  intros H. rewrite for_range_upd.
  replace (lo <=? k) with true by (symmetry; apply Z.leb_le; lia).
  replace (k <? hi) with true by (symmetry; apply Z.ltb_lt; lia).
  reflexivity.
Qed.

Lemma for_range_upd_outside {T : Type} lo hi (g : Z -> T) (a : array T) k :
  k < lo \/ hi <= k -> for_range lo hi (fun i b => upd b i (g i)) a k = a k.
Proof.
  intros H. rewrite for_range_upd.
  destruct (lo <=? k) eqn:E1, (k <? hi) eqn:E2; simpl; try reflexivity; lia.
Qed.

(** A loop [v[i] = g( v[i] )] over [lo, hi). *)
Lemma for_range_map {T : Type} lo hi (g : T -> T) (a : array T) k :
  for_range lo hi (fun i b => upd b i (g (b i))) a k =
  if (lo <=? k) && (k <? hi) then g (a k) else a k.
Proof.
  destruct (Z.le_gt_cases lo hi) as [Hle|Hgt].
  - apply (for_range_ind
             (fun i b => (forall j, i <= j -> b j = a j) /\
                         b k = if (lo <=? k) && (k <? i) then g (a k) else a k)).
    + exact Hle.
    + split; [reflexivity|].
      destruct (lo <=? k) eqn:E1, (k <? lo) eqn:E2; simpl; try reflexivity; lia.
    + intros i b Hi (Hrest & Hk). split.
      * intros j Hj. unfold upd.
        destruct (j =? i) eqn:E; [apply Z.eqb_eq in E; lia|]. apply Hrest. lia.
      * unfold upd. destruct (k =? i) eqn:E.
        -- apply Z.eqb_eq in E. subst k. rewrite Hrest by lia.
           replace (lo <=? i) with true by (symmetry; apply Z.leb_le; lia).
           replace (i <? i + 1) with true by (symmetry; apply Z.ltb_lt; lia).
           reflexivity.
        -- rewrite Hk. apply Z.eqb_neq in E.
           destruct (lo <=? k); simpl; [|reflexivity].
           destruct (k <? i) eqn:E3, (k <? i + 1) eqn:E4; try reflexivity; lia.
  - rewrite for_range_empty by lia.
    destruct (lo <=? k) eqn:E1, (k <? hi) eqn:E2; simpl; try reflexivity; lia.
Qed.

(** X20: [DynamicVector( n, init )] has size [n] and every element equal to
    [init]; for a numeric type whose aligned capacity for [n] fits, its
    capacity is at least [n] and its padding holds [Type()]. *)
Theorem ctor_init_fills {T : Type} `{ET : ElementTraits T}
        (fresh : array T) (n : Z) (init : T) :
  0 < IT_size < SizeT.modulus ->
  SizeT.in_range n ->
  let v := DynamicVector.ctor_init fresh n init in
  DynamicVector.size v = n /\
  (forall i, 0 <= i < n -> DynamicVector.get v i = init) /\
  (IsNumeric = true -> DynamicVector.fits n -> DynamicVector.invariant v).
Proof.
  intros Hw Hn v. split; [reflexivity|]. split.
  - intros i Hi. unfold v, DynamicVector.get, DynamicVector.ctor_init. simpl.
    assert (Hinit : for_range 0 n (fun i a => upd a i init) fresh i = init)
      by (apply (for_range_upd_inside 0 n (fun _ => init)); lia).
    destruct IsNumeric; [|exact Hinit].
    rewrite fill_default_outside by lia. exact Hinit.
  - intros Hnum Hf. now apply ctor_init_invariant.
Qed.

Lemma ctor_init_fills_witness :
  DynamicVector.size (DynamicVector.ctor_init (fun _ => 9) 6 (-3)) = 6 /\
  (forall i, 0 <= i < 6 -> DynamicVector.get (DynamicVector.ctor_init (fun _ => 9) 6 (-3)) i = -3) /\
  (IsNumeric (T := Z) = true -> DynamicVector.fits (T := Z) 6 ->
   DynamicVector.invariant (DynamicVector.ctor_init (fun _ => 9) 6 (-3))).
Proof.
  assert (Hn : SizeT.in_range 6) by (unfold SizeT.in_range, SizeT.modulus; lia).
  exact (ctor_init_fills (fun _ => 9) 6 (-3) int_width Hn).
Defined.

(** X21: the array constructor and the array assignment give the vector the
    length of the array and its elements, in order, whatever the vector
    held before; for a numeric type the constructed vector has capacity >=
    size and a padding of [Type()]. *)
Theorem array_initialization {T : Type} `{ET : ElementTraits T}
        (fresh : array T) (rhs : list T) (v : DynamicVector.t T) :
  0 < IT_size < SizeT.modulus ->
  Z.of_nat (List.length rhs) < SizeT.modulus ->
  let N := Z.of_nat (List.length rhs) in
  let c := DynamicVector.ctor_array fresh rhs in
  let w := DynamicVector.assign_array fresh rhs v in
  DynamicVector.size c = N /\ DynamicVector.size w = N /\
  (forall k, (k < List.length rhs)%nat ->
     DynamicVector.get c (Z.of_nat k) = nth k rhs Type_default /\
     DynamicVector.get w (Z.of_nat k) = nth k rhs Type_default) /\
  (IsNumeric = true -> DynamicVector.fits N -> DynamicVector.invariant c).
Proof.
  intros Hw HN N c w.
  assert (HinN : SizeT.in_range N) by (unfold SizeT.in_range, N; lia).
  split; [reflexivity|]. split.
  { unfold w, DynamicVector.assign_array, DynamicVector.size, DynamicVector.resize. simpl.
    destruct (DynamicVector.capacity_ v <? Z.of_nat (List.length rhs));
      [|destruct (IsNumeric && _)]; reflexivity. }
  split.
  - intros k Hk.
    assert (Hk' : 0 <= Z.of_nat k < N) by (unfold N; lia).
    assert (Hat : DynamicVector.array_at rhs (Z.of_nat k) = nth k rhs Type_default).
    { unfold DynamicVector.array_at. now rewrite Nat2Z.id. }
    split.
    + unfold c, DynamicVector.get, DynamicVector.ctor_array. simpl. fold N.
      assert (Hset : for_range 0 N (fun i a => upd a i (DynamicVector.array_at rhs i)) fresh
                       (Z.of_nat k) = DynamicVector.array_at rhs (Z.of_nat k))
        by (apply (for_range_upd_inside 0 N (DynamicVector.array_at rhs)); lia).
      rewrite <- Hat. destruct IsNumeric; [|exact Hset].
      rewrite fill_default_outside by lia. exact Hset.
    + unfold w, DynamicVector.get, DynamicVector.assign_array. simpl. fold N.
      rewrite <- Hat.
      apply (for_range_upd_inside 0 N (DynamicVector.array_at rhs)). lia.
  - intros Hnum Hf. unfold c, DynamicVector.ctor_array. fold N. split; simpl.
    + now apply adjustCapacity_geq.
    + intros i Hi. simpl in Hi |- *. rewrite Hnum. now apply fill_default_inside.
Qed.

Lemma array_initialization_witness :
  DynamicVector.size (DynamicVector.ctor_array (fun _ => 9) [1; 2; 3]) = 3 /\
  DynamicVector.size (DynamicVector.assign_array (fun _ => 9) [1; 2; 3] v53) = 3 /\
  (forall k, (k < 3)%nat ->
     DynamicVector.get (DynamicVector.ctor_array (fun _ => 9) [1; 2; 3]) (Z.of_nat k)
       = nth k [1; 2; 3] 0 /\
     DynamicVector.get (DynamicVector.assign_array (fun _ => 9) [1; 2; 3] v53) (Z.of_nat k)
       = nth k [1; 2; 3] 0) /\
  (IsNumeric (T := Z) = true -> DynamicVector.fits (T := Z) 3 ->
   DynamicVector.invariant (DynamicVector.ctor_array (fun _ => 9) [1; 2; 3])).
Proof.
  assert (HN : Z.of_nat (List.length [1; 2; 3]) < SizeT.modulus)
    by (unfold SizeT.modulus; simpl; lia).
  exact (array_initialization (fun _ => 9) [1; 2; 3] v53 int_width HN).
Defined.

(** X22: [operator=( const Type& rhs )] of a vector sets the elements below
    the size to [rhs]; size, capacity and the padding stay as they were. *)
Theorem vector_assign_scalar {T : Type} `{ET : ElementTraits T}
        (rhs : T) (v : DynamicVector.t T) :
  let w := DynamicVector.assign_scalar rhs v in
  DynamicVector.size w = DynamicVector.size v /\
  DynamicVector.capacity w = DynamicVector.capacity v /\
  (forall i, 0 <= i < DynamicVector.size v -> DynamicVector.get w i = rhs) /\
  (forall i, DynamicVector.size v <= i -> DynamicVector.get w i = DynamicVector.get v i) /\
  (DynamicVector.invariant v -> DynamicVector.invariant w).
Proof.
  intros w. unfold w, DynamicVector.size, DynamicVector.capacity, DynamicVector.get,
    DynamicVector.assign_scalar. simpl.
  split; [reflexivity|]. split; [reflexivity|]. split; [|split].
  - intros i Hi. apply (for_range_upd_inside 0 _ (fun _ => rhs)). lia.
  - intros i Hi. apply (for_range_upd_outside 0 _ (fun _ => rhs)). lia.
  - intros [Hcap Hpad]. split; simpl; [exact Hcap|].
    intros i Hi. simpl in Hi |- *.
    rewrite (for_range_upd_outside 0 _ (fun _ => rhs)) by lia. now apply Hpad.
Qed.

(** X23: the copy assignment [a = b] of vectors gives [a] the size and the
    elements of [b]; for a numeric type [a] keeps capacity >= size and a
    default padding; the self-assignment changes nothing. *)
Theorem vector_copy_assign {T : Type} `{ET : ElementTraits T}
        (fresh : array T) (rhs this : DynamicVector.t T) :
  0 < IT_size < SizeT.modulus ->
  SizeT.in_range (DynamicVector.size rhs) ->
  (IsNumeric = true -> DynamicVector.capacity this < DynamicVector.size rhs ->
   DynamicVector.fits (DynamicVector.size rhs)) ->
  let w := DynamicVector.copy_assign fresh false rhs this in
  DynamicVector.size w = DynamicVector.size rhs /\
  (forall i, 0 <= i < DynamicVector.size rhs -> DynamicVector.get w i = DynamicVector.get rhs i) /\
  DynamicVector.size rhs <= DynamicVector.capacity w /\
  (IsNumeric = true -> DynamicVector.invariant this -> DynamicVector.invariant w) /\
  DynamicVector.copy_assign fresh true this this = this.
Proof.
  intros Hw Hn Hf w.
  unfold DynamicVector.size, DynamicVector.capacity, DynamicVector.get in *.
  set (r := DynamicVector.resize fresh (DynamicVector.size_ rhs) false this).
  assert (Hsize : DynamicVector.size_ r = DynamicVector.size_ rhs).
  { unfold r, DynamicVector.resize.
    destruct (DynamicVector.capacity_ this <? DynamicVector.size_ rhs);
      [|destruct (IsNumeric && _)]; reflexivity. }
  assert (Hwv : w = DynamicVector.mk (DynamicVector.size_ r) (DynamicVector.capacity_ r)
                      (for_range 0 (DynamicVector.size_ r)
                         (fun i a => upd a i (DynamicVector.v_ rhs i)) (DynamicVector.v_ r)))
    by reflexivity.
  assert (Hcap : DynamicVector.size_ rhs <= DynamicVector.capacity_ r).
  { unfold r, DynamicVector.resize.
    destruct (DynamicVector.capacity_ this <? DynamicVector.size_ rhs) eqn:E.
    - apply Z.ltb_lt in E. simpl. destruct IsNumeric eqn:Enum.
      + apply (adjustCapacity_geq Hw _ Enum Hn). now apply Hf.
      + unfold DynamicVector.adjustCapacity. rewrite Enum. lia.
    - apply Z.ltb_ge in E. destruct (IsNumeric && _); simpl; exact E. }
  rewrite Hwv. simpl. rewrite Hsize.
  split; [reflexivity|]. split; [|split; [exact Hcap|split; [|reflexivity]]].
  - intros i Hi. apply (for_range_upd_inside 0 _ (DynamicVector.v_ rhs)). lia.
  - intros Hnum Hinv.
    assert (Hr : DynamicVector.invariant r).
    { unfold r. apply resize_invariant; auto. }
    destruct Hr as [Hrc Hrp]. split; simpl; [lia|].
    intros i Hi. simpl in Hi |- *.
    rewrite (for_range_upd_outside 0 _ (DynamicVector.v_ rhs)) by lia.
    apply Hrp. lia.
Qed.

Lemma vector_copy_assign_witness :
  DynamicVector.size (DynamicVector.copy_assign (fun _ => 5) false
                        (DynamicVector.ctor_init (fun _ => 9) 6 (-3)) v53) = 6 /\
  (forall i, 0 <= i < 6 ->
     DynamicVector.get (DynamicVector.copy_assign (fun _ => 5) false
                          (DynamicVector.ctor_init (fun _ => 9) 6 (-3)) v53) i
     = DynamicVector.get (DynamicVector.ctor_init (fun _ => 9) 6 (-3)) i) /\
  6 <= DynamicVector.capacity (DynamicVector.copy_assign (fun _ => 5) false
                                 (DynamicVector.ctor_init (fun _ => 9) 6 (-3)) v53) /\
  (IsNumeric (T := Z) = true -> DynamicVector.invariant v53 ->
   DynamicVector.invariant (DynamicVector.copy_assign (fun _ => 5) false
                              (DynamicVector.ctor_init (fun _ => 9) 6 (-3)) v53)) /\
  DynamicVector.copy_assign (fun _ => 5) true v53 v53 = v53.
Proof.
  assert (Hn : SizeT.in_range (DynamicVector.size (DynamicVector.ctor_init (T := Z) (fun _ => 9) 6 (-3))))
    by (unfold SizeT.in_range, SizeT.modulus; simpl; lia).
  assert (Hf : IsNumeric (T := Z) = true ->
               DynamicVector.capacity v53 <
                 DynamicVector.size (DynamicVector.ctor_init (T := Z) (fun _ => 9) 6 (-3)) ->
               DynamicVector.fits (T := Z)
                 (DynamicVector.size (DynamicVector.ctor_init (T := Z) (fun _ => 9) 6 (-3)))).
  { intros _ _. apply (size_ok_small 6); [lia|reflexivity]. }
  exact (vector_copy_assign (fun _ => 5) (DynamicVector.ctor_init (fun _ => 9) 6 (-3)) v53
           int_width Hn Hf).
Defined.

(** X24: [nonZeros()] of a vector lies between 0 and the size; it is 0
    exactly when [isDefault( v )] holds, which is when every element below
    the size is in default state; after [reset()] it is 0 and the size and
    the capacity are unchanged. *)
Theorem vector_nonZeros {T : Type} `{ET : ElementTraits T} `{EL : !ElementLaws T}
        (v : DynamicVector.t T) :
  SizeT.in_range (DynamicVector.size v) ->
  0 <= DynamicVector.nonZeros v <= DynamicVector.size v /\
  (DynamicVector.nonZeros v = 0 <-> DynamicVector.isDefault_vector v = true) /\
  (DynamicVector.isDefault_vector v = true <->
   forall i, 0 <= i < DynamicVector.size v -> DynamicVector.get v i = Type_default) /\
  DynamicVector.nonZeros (DynamicVector.reset v) = 0 /\
  DynamicVector.size (DynamicVector.reset v) = DynamicVector.size v /\
  DynamicVector.capacity (DynamicVector.reset v) = DynamicVector.capacity v.
Proof.
  intros [Hs0 Hs]. unfold DynamicVector.size, DynamicVector.capacity in *.
  assert (Hcount : forall u : DynamicVector.t T,
    DynamicVector.size_ u = DynamicVector.size_ v ->
    0 <= DynamicVector.nonZeros u <= DynamicVector.size_ v /\
    (DynamicVector.nonZeros u = 0 <->
     forall i, 0 <= i < DynamicVector.size_ v -> isDefault (DynamicVector.v_ u i) = true)).
  { intros u Hu. unfold DynamicVector.nonZeros. rewrite Hu.
    destruct (count_loop (fun i => negb (isDefault (DynamicVector.v_ u i)))
                0 (DynamicVector.size_ v) 0) as [Hr Hiff]; try lia.
    cbv zeta in Hr, Hiff. split; [lia|]. rewrite Hiff.
    split; intros H i Hi; specialize (H i Hi).
    - now apply negb_false_iff.
    - now apply negb_false_iff. }
  destruct (Hcount v eq_refl) as [Hrange Hzero].
  assert (Hdef : DynamicVector.isDefault_vector v = true <->
                 forall i, 0 <= i < DynamicVector.size_ v ->
                           isDefault (DynamicVector.v_ v i) = true).
  { unfold DynamicVector.isDefault_vector, DynamicVector.size, DynamicVector.get.
    apply (forallb_range (fun i => isDefault (DynamicVector.v_ v i))). }
  split; [exact Hrange|]. split; [rewrite Hzero, Hdef; reflexivity|]. split.
  { rewrite Hdef. unfold DynamicVector.get.
    split; intros H i Hi; apply isDefault_spec; now apply H. }
  split; [|split; reflexivity].
  apply (Hcount (DynamicVector.reset v) eq_refl).
  intros i Hi. unfold DynamicVector.reset. simpl.
  rewrite fill_default_inside by lia. apply isDefault_spec. reflexivity.
Qed.

Lemma vector_nonZeros_witness :
  0 <= DynamicVector.nonZeros v53 <= DynamicVector.size v53 /\
  (DynamicVector.nonZeros v53 = 0 <-> DynamicVector.isDefault_vector v53 = true) /\
  (DynamicVector.isDefault_vector v53 = true <->
   forall i, 0 <= i < DynamicVector.size v53 -> DynamicVector.get v53 i = 0) /\
  DynamicVector.nonZeros (DynamicVector.reset v53) = 0 /\
  DynamicVector.size (DynamicVector.reset v53) = DynamicVector.size v53 /\
  DynamicVector.capacity (DynamicVector.reset v53) = DynamicVector.capacity v53.
Proof.
  assert (Hs : SizeT.in_range (DynamicVector.size v53))
    by (unfold SizeT.in_range, SizeT.modulus; simpl; lia).
  exact (vector_nonZeros v53 Hs).
Defined.

(** X25: [scale( scalar )] of a vector multiplies every element below the
    size by the scalar once and leaves size, capacity and the padding as
    they were. *)
Theorem vector_scale {T : Type} `{ET : ElementTraits T}
        (times : T -> T) (v : DynamicVector.t T) :
  let w := DynamicVector.scale times v in
  DynamicVector.size w = DynamicVector.size v /\
  DynamicVector.capacity w = DynamicVector.capacity v /\
  (forall i, 0 <= i < DynamicVector.size v ->
     DynamicVector.get w i = times (DynamicVector.get v i)) /\
  (forall i, DynamicVector.size v <= i -> DynamicVector.get w i = DynamicVector.get v i).
Proof.
  intros w. unfold w, DynamicVector.size, DynamicVector.capacity, DynamicVector.get,
    DynamicVector.scale. simpl.
  split; [reflexivity|]. split; [reflexivity|]. split.
  - intros i Hi. rewrite for_range_map.
    replace (0 <=? i) with true by (symmetry; apply Z.leb_le; lia).
    replace (i <? DynamicVector.size_ v) with true by (symmetry; apply Z.ltb_lt; lia).
    reflexivity.
  - intros i Hi. rewrite for_range_map.
    destruct (0 <=? i) eqn:E1, (i <? DynamicVector.size_ v) eqn:E2; simpl; try reflexivity; lia.
Qed.

(** *** The default kernels of a vector *)

Section VectorKernels.
Context {T : Type} `{ET : ElementTraits T}.
Import VectorSpec.

Variable op : T -> T -> T.
Variable rhs : DenseVector T.
Variable v : DynamicVector.t T.
Hypothesis Hsize : vec_size rhs = DynamicVector.size v.
Hypothesis Hrange : SizeT.in_range (DynamicVector.size v).
Variable fuel : nat.
Hypothesis Hfuel : (Z.to_nat (DynamicVector.size v) <= fuel)%nat.

Local Abbreviation n := (DynamicVector.size_ v).
Local Abbreviation a0 := (DynamicVector.v_ v).

Lemma combined_upto_upd i (a : array T) :
  0 <= i -> combined_upto op rhs a0 i i a ->
  combined_upto op rhs a0 (i + 1) (i + 1) (upd a i (op (a i) (vec_get rhs i))).
Proof.
  intros Hi [Hlow Hhigh]. split.
  - intros k Hk. unfold upd. destruct (k =? i) eqn:E.
    + apply Z.eqb_eq in E. subst k. rewrite (Hhigh i) by lia. reflexivity.
    + apply Z.eqb_neq in E. apply Hlow. lia.
  - intros k Hk. unfold upd. destruct (k =? i) eqn:E.
    + apply Z.eqb_eq in E. lia.
    + apply Hhigh. lia.
Qed.

Lemma vector_update_default_spec :
  exists w,
    DynamicVectorExpr.update_default op fuel rhs v = Some w /\
    DynamicVector.size_ w = n /\
    DynamicVector.capacity_ w = DynamicVector.capacity_ v /\
    combined_upto op rhs a0 n n (DynamicVector.v_ w).
Proof.
  unfold DynamicVector.size in *. destruct Hrange as [Hn0 Hn].
  pose proof (Z.mod_pos_bound n 2 ltac:(lia)) as Hmod.
  pose proof (Z.mod_le n 2 Hn0 ltac:(lia)) as Hmodle.
  assert (Hjm : (n - n mod 2) mod 2 = 0).
  { rewrite Zminus_mod_idemp_r. rewrite Z.sub_diag. reflexivity. }
  unfold DynamicVectorExpr.update_default. cbv zeta. rewrite Hsize.
  replace (SizeT.and n (SizeT.neg 2)) with (n - n mod 2).
  2:{ symmetry. change 2 with (2 ^ 1) at 1. apply land_neg_pow2; [|lia].
      unfold SizeT.in_range. lia. }
  match goal with |- context [for_step fuel 0 ?e 2 ?body a0] =>
    destruct (for_step_rule
                (fun i a => 0 <= i <= n - n mod 2 /\ i mod 2 = 0 /\
                            combined_upto op rhs a0 i i a)
                e 2 body) with (fuel := fuel) (j := 0) (s := a0)
      as (x' & a & Hrun & (Hx' & _ & Ha) & Hge)
  end.
  - lia.
  - intros i a (Hi & Hi2 & Ha) Hlt.
    assert (Hstep : i + 2 <= n - n mod 2) by (apply multiple_step; lia).
    split; [apply add_small; lia|].
    eexists. split; [reflexivity|]. split; [lia|]. split; [now apply multiple_add|].
    rewrite (add_small i 1) by lia.
    replace (i + 2) with (i + 1 + 1) by lia.
    apply combined_upto_upd; [lia|]. now apply combined_upto_upd.
  - split; [lia|]. split; [reflexivity|]. split; [intros k Hk; lia|reflexivity].
  - lia.
  - rewrite Hrun. assert (x' = n - n mod 2) by lia. subst x'.
    eexists. split; [reflexivity|]. split; [reflexivity|]. split; [reflexivity|].
    simpl. destruct (n - n mod 2 <? n) eqn:E.
    + apply Z.ltb_lt in E.
      pose proof (combined_upto_upd (n - n mod 2) a ltac:(lia) Ha) as Hfin.
      replace (n - n mod 2 + 1) with n in Hfin by lia. exact Hfin.
    + apply Z.ltb_ge in E. replace (n - n mod 2) with n in Ha by lia. exact Ha.
Qed.

End VectorKernels.

(** *** The intrinsic kernels of a vector *)

Section VectorIntrinsicKernels.
Context {T : Type} `{ET : ElementTraits T} `{EL : !ElementLaws T}.
Import VectorSpec.

Variable op : T -> T -> T.
Variable rhs : DenseVector T.
Variable v : DynamicVector.t T.
Hypothesis Hsize : vec_size rhs = DynamicVector.size v.
Hypothesis Hsrc : source_ok rhs.
Hypothesis Hn0 : 0 <= DynamicVector.size v.
Hypothesis Hcap : DynamicVector.size v <= DynamicVector.capacity v.
Hypothesis Hcapm : DynamicVector.capacity v mod IT_size = 0.
Hypothesis Hcapr : DynamicVector.capacity v < SizeT.modulus.

Local Abbreviation n := (DynamicVector.size_ v).
Local Abbreviation cap := (DynamicVector.capacity_ v).
Local Abbreviation a0 := (DynamicVector.v_ v).
Local Abbreviation W := (IT_size).

Lemma store_at_spec (a : array T) i value k :
  DynamicVectorExpr.store_at a i value k =
  if (0 <=? k - i) && (k - i <? W) then value (k - i) else a k.
Proof. unfold DynamicVectorExpr.store_at. apply (for_range_upd_at i 0 W value a k). Qed.

(** One intrinsic store of a compound kernel at [i]. *)
Lemma vector_store_step i (a : array T) :
  0 <= i < n ->
  combined_upto op rhs a0 (Z.min i n) i a ->
  combined_upto op rhs a0 (Z.min (i + W) n) (i + W)
    (DynamicVectorExpr.store_at a i
       (DynamicVectorExpr.lanewise op (DynamicVectorExpr.load_at a i) (vec_load rhs i))).
Proof.
  pose proof width_pos as HW. unfold DynamicVector.size in *.
  intros Hi [Hlow Hhigh]. split.
  - intros k Hk. rewrite store_at_spec.
    destruct (0 <=? k - i) eqn:E1; simpl.
    + apply Z.leb_le in E1.
      replace (k - i <? W) with true by (symmetry; apply Z.ltb_lt; lia).
      unfold DynamicVectorExpr.lanewise, DynamicVectorExpr.load_at.
      replace (i + (k - i)) with k by lia.
      rewrite (Hhigh k) by lia. f_equal.
      rewrite Hsrc by lia. f_equal. lia.
    + apply Z.leb_gt in E1. apply Hlow. lia.
  - intros k Hk. rewrite store_at_spec.
    destruct (0 <=? k - i) eqn:E1, (k - i <? W) eqn:E2; simpl; try (apply Hhigh; lia).
    apply Z.leb_le in E1. apply Z.ltb_lt in E2. lia.
Qed.

Variable fuel : nat.
Hypothesis Hfuel : (Z.to_nat (DynamicVector.size v) <= fuel)%nat.

Lemma vector_width : 0 < W /\ W * 4 < 2147483648 /\ exists k, 0 <= k < 29 /\ W = 2 ^ k.
Proof.
  destruct IT_size_pow2 as (k & Hk & HW).
  split; [rewrite HW; apply Z.pow_pos_nonneg; lia|]. split; [|now exists k].
  rewrite HW. change 2147483648 with (2 ^ 29 * 4).
  apply Z.mul_lt_mono_pos_r; [lia|]. apply Z.pow_lt_mono_r; lia.
Qed.

Lemma vector_iend :
  SizeT.and n (SizeT.neg (W * 4)) = n - n mod (W * 4).
Proof.
  unfold DynamicVector.size, DynamicVector.capacity in *.
  destruct vector_width as (_ & _ & k & Hk & HW).
  rewrite HW. replace (2 ^ k * 4) with (2 ^ (k + 2)).
  2:{ rewrite Z.pow_add_r by lia. reflexivity. }
  apply land_neg_pow2; [|lia]. unfold SizeT.in_range. lia.
Qed.

(** The loop [for( i=lo; i<size_; i+=IT::size ) store( v_+i, ... )]. *)
Lemma vector_tail_loop lo (a : array T) :
  0 <= lo <= n -> lo mod W = 0 ->
  combined_upto op rhs a0 lo lo a ->
  exists a',
    for_step fuel lo n W (fun i b =>
      Some (DynamicVectorExpr.store_at b i
              (DynamicVectorExpr.lanewise op (DynamicVectorExpr.load_at b i)
                 (vec_load rhs i)))) a = Some a' /\
    combined_upto op rhs a0 n cap a'.
Proof.
  unfold DynamicVector.size, DynamicVector.capacity in *.
  destruct vector_width as (HW & _).
  intros Hlo Hlom Ha.
  match goal with |- context [for_step fuel lo n W ?body a] =>
    destruct (for_step_rule
                (fun i b => lo <= i <= cap /\ i mod W = 0 /\
                            combined_upto op rhs a0 (Z.min i n) i b)
                n W body) with (fuel := fuel) (j := lo) (s := a)
      as (x' & a' & Hrun & (Hx' & _ & Ha') & Hge)
  end.
  - exact HW.
  - intros i b (Hi & Him & Hb) Hlt.
    assert (Hstep : i + W <= cap) by (apply multiple_step; lia).
    split; [apply add_small; lia|].
    eexists. split; [reflexivity|]. split; [lia|]. split; [now apply multiple_add|].
    apply vector_store_step; [lia|exact Hb].
  - split; [lia|]. split; [exact Hlom|]. now rewrite Z.min_l by lia.
  - lia.
  - exists a'. split; [exact Hrun|].
    rewrite Z.min_r in Ha' by lia. destruct Ha' as [Hlow Hhigh].
    split; [exact Hlow|]. intros k Hk. apply Hhigh. lia.
Qed.

Lemma vector_blocks_loop :
  exists a',
    for_step fuel 0 (n - n mod (W * 4)) (W *! 4) (fun i a =>
      let a := DynamicVectorExpr.store_at a i
                 (DynamicVectorExpr.lanewise op (DynamicVectorExpr.load_at a i)
                    (vec_load rhs i)) in
      let a := DynamicVectorExpr.store_at a (i + W)
                 (DynamicVectorExpr.lanewise op (DynamicVectorExpr.load_at a (i + W))
                    (vec_load rhs (i +! W))) in
      let a := DynamicVectorExpr.store_at a (i + W *! 2)
                 (DynamicVectorExpr.lanewise op (DynamicVectorExpr.load_at a (i + W *! 2))
                    (vec_load rhs (i +! W *! 2))) in
      Some (DynamicVectorExpr.store_at a (i + W *! 3)
              (DynamicVectorExpr.lanewise op (DynamicVectorExpr.load_at a (i + W *! 3))
                 (vec_load rhs (i +! W *! 3))))) a0 = Some a' /\
    combined_upto op rhs a0 (n - n mod (W * 4)) (n - n mod (W * 4)) a'.
Proof.
  unfold DynamicVector.size, DynamicVector.capacity in *.
  destruct vector_width as (HW & HW4 & _).
  assert (HW40 : 0 < W * 4) by lia.
  pose proof (Z.mod_pos_bound n (W * 4) HW40) as Hmod.
  pose proof (Z.mod_le n (W * 4) Hn0 HW40) as Hmodle.
  assert (Hjm : (n - n mod (W * 4)) mod (W * 4) = 0).
  { rewrite Zminus_mod_idemp_r. rewrite Z.sub_diag. apply Z.mod_0_l. lia. }
  assert (HW2 : W *! 2 = W * 2).
  { apply wrap_small. unfold SizeT.in_range, SizeT.modulus. lia. }
  assert (HW3 : W *! 3 = W * 3).
  { apply wrap_small. unfold SizeT.in_range, SizeT.modulus. lia. }
  assert (HW4' : W *! 4 = W * 4).
  { apply wrap_small. unfold SizeT.in_range, SizeT.modulus. lia. }
  rewrite HW2, HW3, HW4'. cbv zeta.
  match goal with |- context [for_step fuel 0 ?e ?st ?body a0] =>
    destruct (for_step_rule
                (fun i a => 0 <= i <= n - n mod (W * 4) /\ i mod (W * 4) = 0 /\
                            combined_upto op rhs a0 i i a)
                e st body) with (fuel := fuel) (j := 0) (s := a0)
      as (x' & a' & Hrun & (Hx' & _ & Ha') & Hge)
  end.
  - lia.
  - intros i a (Hi & Him & Ha) Hlt.
    assert (Hstep : i + W * 4 <= n - n mod (W * 4)) by (apply multiple_step; lia).
    split; [apply add_small; lia|].
    eexists. split; [reflexivity|]. split; [lia|]. split; [apply multiple_add; lia|].
    rewrite (add_small i W), (add_small i (W * 2)), (add_small i (W * 3)) by lia.
    assert (Hmin : forall x, 0 <= x <= i + W * 4 ->
                     combined_upto op rhs a0 (Z.min x n) x = combined_upto op rhs a0 x x).
    { intros x Hx. now rewrite Z.min_l by lia. }
    rewrite <- (Hmin i) in Ha by lia.
    assert (Hb0 : 0 <= i < n) by lia.
    assert (Hb1 : 0 <= i + W < n) by lia.
    assert (Hb2 : 0 <= i + W + W < n) by lia.
    assert (Hb3 : 0 <= i + W + W + W < n) by lia.
    pose proof (vector_store_step i a Hb0 Ha) as H1.
    pose proof (vector_store_step (i + W) _ Hb1 H1) as H2.
    pose proof (vector_store_step (i + W + W) _ Hb2 H2) as H3.
    pose proof (vector_store_step (i + W + W + W) _ Hb3 H3) as H4.
    replace (i + W + W + W + W) with (i + W * 4) in H4 by lia.
    replace (i + W + W + W) with (i + W * 3) in H4 by lia.
    replace (i + W + W) with (i + W * 2) in H4 by lia.
    rewrite (Hmin (i + W * 4)) in H4 by lia. exact H4.
  - split; [lia|]. split; [apply Z.mod_0_l; lia|].
    split; [intros k Hk; lia|reflexivity].
  - lia.
  - exists a'. split; [exact Hrun|].
    assert (x' = n - n mod (W * 4)) by lia. now subst x'.
Qed.

Lemma vector_update_vectorized_spec :
  exists w,
    DynamicVectorExpr.update_vectorized op fuel rhs v = Some w /\
    DynamicVector.size_ w = n /\ DynamicVector.capacity_ w = cap /\
    combined_upto op rhs a0 n cap (DynamicVector.v_ w).
Proof.
  unfold DynamicVector.size, DynamicVector.capacity in *.
  destruct vector_width as (HW & HW4 & _).
  assert (HW40 : 0 < W * 4) by lia.
  pose proof (Z.mod_pos_bound n (W * 4) HW40) as Hmod.
  pose proof (Z.mod_le n (W * 4) Hn0 HW40) as Hmodle.
  unfold DynamicVectorExpr.update_vectorized. cbv zeta. rewrite vector_iend.
  destruct vector_blocks_loop as (a1 & Hrun1 & Ha1).
  cbv zeta in Hrun1. rewrite Hrun1.
  destruct (vector_tail_loop (n - n mod (W * 4)) a1) as (a2 & Hrun2 & Ha2).
  - lia.
  - assert (H4 : (n - n mod (W * 4)) mod (W * 4) = 0).
    { rewrite Zminus_mod_idemp_r. rewrite Z.sub_diag. apply Z.mod_0_l. lia. }
    apply Z.mod_divide in H4; [|lia]. destruct H4 as [q Hq]. rewrite Hq.
    replace (q * (W * 4)) with (q * 4 * W) by lia. apply Z.mod_mul. lia.
  - exact Ha1.
  - rewrite Hrun2. eexists. split; [reflexivity|]. split; [reflexivity|].
    split; [reflexivity|]. exact Ha2.
Qed.

End VectorIntrinsicKernels.

(** *** The dense kernels of a vector, on arbitrary operands *)

(** X26: the default kernels of a vector for a dense operand of its size
    ([assign], [addAssign], [subAssign], [multAssign]) finish and combine
    element [i] of the operand into element [i] of the vector, for every
    [i] below the size; nothing else changes. *)
Theorem vector_default_kernel {T : Type} `{ET : ElementTraits T}
        (op : T -> T -> T) (rhs : DenseVector T) (v : DynamicVector.t T) (fuel : nat) :
  vec_size rhs = DynamicVector.size v ->
  SizeT.in_range (DynamicVector.size v) ->
  (Z.to_nat (DynamicVector.size v) <= fuel)%nat ->
  exists w,
    DynamicVectorExpr.update_default op fuel rhs v = Some w /\
    DynamicVector.size w = DynamicVector.size v /\
    DynamicVector.capacity w = DynamicVector.capacity v /\
    (forall k, 0 <= k < DynamicVector.size v ->
       DynamicVector.get w k = op (DynamicVector.get v k) (vec_get rhs k)) /\
    (forall k, k < 0 \/ DynamicVector.size v <= k ->
       DynamicVector.get w k = DynamicVector.get v k).
Proof.
  intros Hsize Hrange Hfuel.
  destruct (vector_update_default_spec op rhs v Hsize Hrange fuel Hfuel)
    as (w & Hrun & Hs & Hc & Hlow & Hhigh).
  exists w. split; [exact Hrun|]. split; [exact Hs|]. split; [exact Hc|].
  split; [exact Hlow|exact Hhigh].
Qed.

Lemma v3_size : vec_size v53_source = DynamicVector.size v3.
Proof. reflexivity. Qed.

Lemma v3_range : SizeT.in_range (DynamicVector.size v3).
Proof. unfold SizeT.in_range, SizeT.modulus. simpl. lia. Qed.

Lemma v3_fuel : (Z.to_nat (DynamicVector.size v3) <= 3)%nat.
Proof. simpl. lia. Qed.

Lemma vector_default_kernel_witness :
  exists w,
    DynamicVectorExpr.update_default Z.add 3 v53_source v3 = Some w /\
    DynamicVector.size w = DynamicVector.size v3 /\
    DynamicVector.capacity w = DynamicVector.capacity v3 /\
    (forall k, 0 <= k < DynamicVector.size v3 ->
       DynamicVector.get w k = DynamicVector.get v3 k + vec_get v53_source k) /\
    (forall k, k < 0 \/ DynamicVector.size v3 <= k ->
       DynamicVector.get w k = DynamicVector.get v3 k).
Proof.
  exact (vector_default_kernel Z.add v53_source v3 3 v3_size v3_range v3_fuel).
Defined.

(** X27: the intrinsic kernels of a vector for a dense operand of its size
    (both branches of [assign]; [addAssign], [subAssign], [multAssign])
    finish, combine element [i] of the operand into element [i] of the
    vector for every [i] below the size, which is what the default kernels
    leave there, and write nothing at or beyond the capacity, given that
    the capacity is a multiple of the vector width that is at least the
    size. *)
Theorem vector_intrinsic_kernel {T : Type} `{ET : ElementTraits T} `{EL : !ElementLaws T}
        (cacheSize : Z) (op : T -> T -> T) (rhs : DenseVector T)
        (v : DynamicVector.t T) (fuel : nat) :
  vec_size rhs = DynamicVector.size v ->
  VectorSpec.source_ok rhs ->
  0 <= DynamicVector.size v ->
  DynamicVector.size v <= DynamicVector.capacity v ->
  DynamicVector.capacity v mod IT_size = 0 ->
  DynamicVector.capacity v < SizeT.modulus ->
  (Z.to_nat (DynamicVector.size v) <= fuel)%nat ->
  (exists w,
     DynamicVectorExpr.update_vectorized op fuel rhs v = Some w /\
     DynamicVector.size w = DynamicVector.size v /\
     DynamicVector.capacity w = DynamicVector.capacity v /\
     (forall k, 0 <= k < DynamicVector.size v ->
        DynamicVector.get w k = op (DynamicVector.get v k) (vec_get rhs k)) /\
     (forall k, k < 0 \/ DynamicVector.capacity v <= k ->
        DynamicVector.get w k = DynamicVector.get v k)) /\
  (exists w,
     DynamicVectorExpr.assign_vectorized cacheSize fuel rhs v = Some w /\
     DynamicVector.size w = DynamicVector.size v /\
     DynamicVector.capacity w = DynamicVector.capacity v /\
     (forall k, 0 <= k < DynamicVector.size v -> DynamicVector.get w k = vec_get rhs k) /\
     (forall k, k < 0 \/ DynamicVector.capacity v <= k ->
        DynamicVector.get w k = DynamicVector.get v k)).
Proof.
  intros Hsize Hsrc Hn0 Hcap Hcapm Hcapr Hfuel.
  split.
  - destruct (vector_update_vectorized_spec op rhs v Hsize Hsrc Hn0 Hcap Hcapm Hcapr
                fuel Hfuel) as (w & Hrun & Hs & Hc & Hlow & Hhigh).
    exists w. split; [exact Hrun|]. split; [exact Hs|]. split; [exact Hc|].
    split; [exact Hlow|exact Hhigh].
  - unfold DynamicVectorExpr.assign_vectorized. cbv zeta.
    destruct ((SizeT.div cacheSize (sizeof_Type *! 3) <? DynamicVector.size_ v) &&
              negb (vec_isAliased rhs)).
    + destruct (vector_tail_loop (fun _ x => x) rhs v Hsize Hsrc Hcap Hcapm Hcapr
                  fuel Hfuel 0 (DynamicVector.v_ v)) as (a' & Hrun & Hlow & Hhigh).
      * unfold DynamicVector.size in Hn0. lia.
      * apply Z.mod_0_l. pose proof (width_pos (T := T)). lia.
      * split; [intros k Hk; lia|reflexivity].
      * change (for_step fuel 0 (DynamicVector.size_ v) IT_size
                  (fun i b => Some (DynamicVectorExpr.store_at b i (vec_load rhs i)))
                  (DynamicVector.v_ v) = Some a') in Hrun.
        rewrite Hrun. eexists. split; [reflexivity|]. split; [reflexivity|].
        split; [reflexivity|]. split; [exact Hlow|exact Hhigh].
    + destruct (vector_update_vectorized_spec (fun _ x => x) rhs v Hsize Hsrc Hn0 Hcap
                  Hcapm Hcapr fuel Hfuel) as (w & Hrun & Hs & Hc & Hlow & Hhigh).
      exists w. split; [exact Hrun|]. split; [exact Hs|]. split; [exact Hc|].
      split; [exact Hlow|exact Hhigh].
Qed.

(** *** The sparse kernels and the compound operators of a vector *)

Lemma v53_source_ok : VectorSpec.source_ok v53_source.
Proof. intros i k _ _ _. reflexivity. Qed.

Lemma v3_capacity :
  0 <= DynamicVector.size v3 /\
  DynamicVector.size v3 <= DynamicVector.capacity v3 /\
  DynamicVector.capacity v3 mod IT_size = 0 /\
  DynamicVector.capacity v3 < SizeT.modulus.
Proof. vm_compute. repeat split; discriminate. Qed.

Lemma vector_intrinsic_kernel_witness :
  (exists w,
     DynamicVectorExpr.update_vectorized Z.add 3 v53_source v3 = Some w /\
     DynamicVector.size w = DynamicVector.size v3 /\
     DynamicVector.capacity w = DynamicVector.capacity v3 /\
     (forall k, 0 <= k < DynamicVector.size v3 ->
        DynamicVector.get w k = DynamicVector.get v3 k + vec_get v53_source k) /\
     (forall k, k < 0 \/ DynamicVector.capacity v3 <= k ->
        DynamicVector.get w k = DynamicVector.get v3 k)) /\
  (exists w,
     DynamicVectorExpr.assign_vectorized cacheSize_default 3 v53_source v3 = Some w /\
     DynamicVector.size w = DynamicVector.size v3 /\
     DynamicVector.capacity w = DynamicVector.capacity v3 /\
     (forall k, 0 <= k < DynamicVector.size v3 -> DynamicVector.get w k = vec_get v53_source k) /\
     (forall k, k < 0 \/ DynamicVector.capacity v3 <= k ->
        DynamicVector.get w k = DynamicVector.get v3 k)).
Proof.
  exact (vector_intrinsic_kernel cacheSize_default Z.add v53_source v3 3 v3_size
           v53_source_ok (proj1 v3_capacity) (proj1 (proj2 v3_capacity))
           (proj1 (proj2 (proj2 v3_capacity))) (proj2 (proj2 (proj2 v3_capacity))) v3_fuel).
Defined.

Lemma fold_upd_folded {T : Type} (op : T -> T -> T) (l : list (Z * T)) (a : array T) k :
  fold_left (fun a e => upd a (fst e) (op (a (fst e)) (snd e))) l a k =
  SparseUpdate.folded op l k (a k).
Proof.
  unfold SparseUpdate.folded. revert a.
  induction l as [|x l IH]; intros a; simpl; [reflexivity|].
  rewrite IH. f_equal. unfold upd. rewrite Z.eqb_sym.
  destruct (fst x =? k) eqn:E; [|reflexivity].
  apply Z.eqb_eq in E. now rewrite E.
Qed.

Lemma fold_upd_last {T : Type} (g : Z * T -> T) (l : list (Z * T)) (a : array T) k :
  fold_left (fun a e => upd a (fst e) (g e)) l a k =
  match SparseSpec.last_at l k with Some e => g e | None => a k end.
Proof.
  unfold SparseSpec.last_at. revert a.
  induction l as [|x l IH]; intros a; simpl; [reflexivity|].
  rewrite IH, find_snoc.
  destruct (find (fun e => fst e =? k) (rev l)); [reflexivity|].
  unfold upd. rewrite Z.eqb_sym. destruct (fst x =? k); reflexivity.
Qed.

(** X28: the sparse kernels of a vector combine every explicit element
    [(index, value)] into element [index], in the order of the operand, and
    touch no other element; [multAssign] with a sparse operand leaves
    [old * value] in the elements the operand names and [Type()] in every
    other element below the size. *)
Theorem vector_sparse_kernels {T : Type} `{ET : ElementTraits T}
        (op mul : T -> T -> T) (fresh : array T) (rhs : SparseVector T)
        (v : DynamicVector.t T) :
  0 < IT_size < SizeT.modulus ->
  SizeT.in_range (DynamicVector.size v) ->
  (IsNumeric = true -> DynamicVector.fits (DynamicVector.size v)) ->
  (forall e, In e (spv_elements rhs) -> 0 <= fst e < DynamicVector.size v) ->
  let w := DynamicVectorExpr.update_sparse op rhs v in
  let p := DynamicVectorExpr.multAssign_sparse mul fresh rhs v in
  DynamicVector.size w = DynamicVector.size v /\
  DynamicVector.capacity w = DynamicVector.capacity v /\
  (forall k, DynamicVector.get w k =
             SparseUpdate.folded op (spv_elements rhs) k (DynamicVector.get v k)) /\
  (forall k, 0 <= k < DynamicVector.size v ->
     DynamicVector.get p k =
       match SparseSpec.last_at (spv_elements rhs) k with
       | Some e => mul (DynamicVector.get v k) (snd e)
       | None => Type_default
       end) /\
  (forall k, k < 0 \/ DynamicVector.size v <= k ->
     DynamicVector.get p k = DynamicVector.get v k).
Proof.
  intros Hw [Hn0 Hn] Hf Hidx w p.
  unfold DynamicVector.size, DynamicVector.capacity, DynamicVector.get in *.
  split; [reflexivity|]. split; [reflexivity|]. split.
  { intros k. unfold w, DynamicVectorExpr.update_sparse. simpl. apply fold_upd_folded. }
  assert (Hge : DynamicVector.size_ v <= DynamicVector.adjustCapacity (DynamicVector.size_ v)).
  { destruct IsNumeric eqn:Enum.
    - apply (adjustCapacity_geq Hw _ Enum); [split; assumption|now apply Hf].
    - unfold DynamicVector.adjustCapacity. rewrite Enum. lia. }
  assert (Htmp : forall i, 0 <= i < DynamicVector.size_ v ->
                   DynamicVector.v_ (DynamicVector.ctor_copy fresh v) i = DynamicVector.v_ v i).
  { intros i Hi. unfold DynamicVector.ctor_copy. simpl.
    apply (for_range_upd_inside 0 _ (DynamicVector.v_ v)). lia. }
  assert (Hp : forall k, DynamicVector.v_ p k =
                 match SparseSpec.last_at (spv_elements rhs) k with
                 | Some e => mul (DynamicVector.v_ (DynamicVector.ctor_copy fresh v) (fst e)) (snd e)
                 | None => DynamicVector.fill_default 0 (DynamicVector.size_ v)
                             (DynamicVector.v_ v) k
                 end).
  { intros k. unfold p, DynamicVectorExpr.multAssign_sparse. simpl.
    apply (fold_upd_last
             (fun e => mul (DynamicVector.get (DynamicVector.ctor_copy fresh v) (fst e)) (snd e))). }
  assert (Hfound : forall k e, SparseSpec.last_at (spv_elements rhs) k = Some e ->
                               In e (spv_elements rhs) /\ fst e = k).
  { intros k e He. unfold SparseSpec.last_at in He. apply find_some in He.
    destruct He as [Hin Heq]. apply in_rev in Hin. apply Z.eqb_eq in Heq. now split. }
  split.
  - intros k Hk. rewrite Hp.
    destruct (SparseSpec.last_at (spv_elements rhs) k) as [e|] eqn:E.
    + destruct (Hfound k e E) as [Hin Heq]. rewrite Heq. now rewrite Htmp.
    + apply fill_default_inside. lia.
  - intros k Hk. rewrite Hp.
    destruct (SparseSpec.last_at (spv_elements rhs) k) as [e|] eqn:E.
    + destruct (Hfound k e E) as [Hin Heq]. specialize (Hidx e Hin). lia.
    + apply fill_default_outside. lia.
Qed.

Lemma vector_sparse_kernels_witness :
  DynamicVector.size (DynamicVectorExpr.update_sparse Z.add sv3 v3) = DynamicVector.size v3 /\
  DynamicVector.capacity (DynamicVectorExpr.update_sparse Z.add sv3 v3) = DynamicVector.capacity v3 /\
  (forall k, DynamicVector.get (DynamicVectorExpr.update_sparse Z.add sv3 v3) k =
             SparseUpdate.folded Z.add (spv_elements sv3) k (DynamicVector.get v3 k)) /\
  (forall k, 0 <= k < DynamicVector.size v3 ->
     DynamicVector.get (DynamicVectorExpr.multAssign_sparse Z.mul (fun _ => 1) sv3 v3) k =
       match SparseSpec.last_at (spv_elements sv3) k with
       | Some e => DynamicVector.get v3 k * snd e
       | None => 0
       end) /\
  (forall k, k < 0 \/ DynamicVector.size v3 <= k ->
     DynamicVector.get (DynamicVectorExpr.multAssign_sparse Z.mul (fun _ => 1) sv3 v3) k
     = DynamicVector.get v3 k).
Proof.
  assert (Hf : IsNumeric (T := Z) = true -> DynamicVector.fits (T := Z) (DynamicVector.size v3)).
  { intros _. apply (size_ok_small 3); [lia|reflexivity]. }
  assert (Hidx : forall e, In e (spv_elements sv3) -> 0 <= fst e < DynamicVector.size v3).
  { intros e He. simpl in He.
    repeat (destruct He as [He|He]; [subst e; simpl; lia|]). destruct He. }
  exact (vector_sparse_kernels Z.add Z.mul (fun _ => 1) sv3 v3 int_width v3_range Hf Hidx).
Defined.

(** X29: [operator+=] and [operator-=] of a vector with a dense operand:
    when the sizes differ they throw "Vector sizes do not match" and leave
    the vector as it was; when they match they return normally, whether or
    not the operand is evaluated into a temporary first and whichever
    kernel the traits select, and element [i] is [old + rhs[i]] or
    [old - rhs[i]] for every [i] below the size, with nothing written at or
    beyond the capacity. *)
Theorem vector_compound_operators {T : Type} `{ET : ElementTraits T} `{EL : !ElementLaws T}
        (rhs : DenseVector T) (v : DynamicVector.t T) (fuel : nat) :
  VectorSpec.source_ok rhs ->
  0 <= DynamicVector.size v ->
  DynamicVector.size v <= DynamicVector.capacity v ->
  DynamicVector.capacity v mod IT_size = 0 ->
  DynamicVector.capacity v < SizeT.modulus ->
  (Z.to_nat (DynamicVector.size v) <= fuel)%nat ->
  (vec_size rhs <> DynamicVector.size v ->
   DynamicVectorExpr.add_assign_op fuel (DynamicVectorExpr.Dense rhs) v
     = (v, Throws "Vector sizes do not match") /\
   DynamicVectorExpr.sub_assign_op fuel (DynamicVectorExpr.Dense rhs) v
     = (v, Throws "Vector sizes do not match")) /\
  (vec_size rhs = DynamicVector.size v ->
   (exists w,
      DynamicVectorExpr.add_assign_op fuel (DynamicVectorExpr.Dense rhs) v = (w, Returns tt) /\
      DynamicVector.size w = DynamicVector.size v /\
      (forall k, 0 <= k < DynamicVector.size v ->
         DynamicVector.get w k = elem_add (DynamicVector.get v k) (vec_get rhs k)) /\
      (forall k, k < 0 \/ DynamicVector.capacity v <= k ->
         DynamicVector.get w k = DynamicVector.get v k)) /\
   (exists w,
      DynamicVectorExpr.sub_assign_op fuel (DynamicVectorExpr.Dense rhs) v = (w, Returns tt) /\
      DynamicVector.size w = DynamicVector.size v /\
      (forall k, 0 <= k < DynamicVector.size v ->
         DynamicVector.get w k = elem_sub (DynamicVector.get v k) (vec_get rhs k)) /\
      (forall k, k < 0 \/ DynamicVector.capacity v <= k ->
         DynamicVector.get w k = DynamicVector.get v k))).
Proof.
  intros Hsrc Hn0 Hcap Hcapm Hcapr Hfuel. split.
  - intros Hne. unfold DynamicVectorExpr.add_assign_op, DynamicVectorExpr.sub_assign_op.
    cbn [DynamicVectorExpr.operand_size].
    replace (vec_size rhs =? DynamicVector.size_ v) with false
      by (symmetry; apply Z.eqb_neq; exact Hne).
    split; reflexivity.
  - intros Hsize.
    assert (Hrange : SizeT.in_range (DynamicVector.size v)).
    { unfold SizeT.in_range. lia. }
    assert (Hkernel : forall (op : T -> T -> T) (b : bool) (d : DenseVector T),
      vec_size d = vec_size rhs -> vec_get d = vec_get rhs -> vec_load d = vec_load rhs ->
      exists w,
        (if b then DynamicVectorExpr.update_vectorized op fuel d v
         else DynamicVectorExpr.update_default op fuel d v) = Some w /\
        DynamicVector.size w = DynamicVector.size v /\
        (forall k, 0 <= k < DynamicVector.size v ->
           DynamicVector.get w k = op (DynamicVector.get v k) (vec_get rhs k)) /\
        (forall k, k < 0 \/ DynamicVector.capacity v <= k ->
           DynamicVector.get w k = DynamicVector.get v k)).
    { intros op b d Hd1 Hd2 Hd3.
      assert (Hdsize : vec_size d = DynamicVector.size v) by congruence.
      assert (Hdsrc : VectorSpec.source_ok d).
      { intros i k Hi Hk Hlt. rewrite Hd2, Hd3. apply Hsrc; congruence. }
      destruct b.
      - destruct (vector_update_vectorized_spec op d v Hdsize Hdsrc Hn0 Hcap Hcapm Hcapr
                    fuel Hfuel) as (w & Hrun & Hs & Hc & Hlow & Hhigh).
        exists w. split; [exact Hrun|]. split; [exact Hs|].
        rewrite <- Hd2. split; [exact Hlow|exact Hhigh].
      - destruct (vector_update_default_spec op d v Hdsize Hrange fuel Hfuel)
          as (w & Hrun & Hs & Hc & Hlow & Hhigh).
        exists w. split; [exact Hrun|]. split; [exact Hs|].
        rewrite <- Hd2. split; [exact Hlow|].
        intros k Hk. apply Hhigh. unfold DynamicVector.size, DynamicVector.capacity in *. lia. }
    assert (Hcheck : negb (vec_size rhs =? DynamicVector.size_ v) = false).
    { rewrite Hsize. unfold DynamicVector.size. now rewrite Z.eqb_refl. }
    split.
    + unfold DynamicVectorExpr.add_assign_op.
      cbn [DynamicVectorExpr.operand_size DynamicVectorExpr.operand_canAlias].
      rewrite Hcheck.
      destruct (vec_canAlias rhs);
        cbn [DynamicVectorExpr.temporary DynamicVectorExpr.addAssign
             vec_vectorizable vec_size vec_get vec_load];
        match goal with |- context [if ?b then DynamicVectorExpr.addAssign_vectorized _ ?d _
                                    else _] =>
          destruct (Hkernel elem_add b d eq_refl eq_refl eq_refl) as (w & Hrun & Hs & Hl & Hh)
        end;
        unfold DynamicVectorExpr.addAssign_vectorized, DynamicVectorExpr.addAssign_default;
        rewrite Hrun; exists w; (split; [reflexivity|]); (split; [exact Hs|]);
        (split; [exact Hl|exact Hh]).
    + unfold DynamicVectorExpr.sub_assign_op.
      cbn [DynamicVectorExpr.operand_size DynamicVectorExpr.operand_canAlias].
      rewrite Hcheck.
      destruct (vec_canAlias rhs);
        cbn [DynamicVectorExpr.temporary DynamicVectorExpr.subAssign
             vec_vectorizable vec_size vec_get vec_load];
        match goal with |- context [if ?b then DynamicVectorExpr.subAssign_vectorized _ ?d _
                                    else _] =>
          destruct (Hkernel elem_sub b d eq_refl eq_refl eq_refl) as (w & Hrun & Hs & Hl & Hh)
        end;
        unfold DynamicVectorExpr.subAssign_vectorized, DynamicVectorExpr.subAssign_default;
        rewrite Hrun; exists w; (split; [reflexivity|]); (split; [exact Hs|]);
        (split; [exact Hl|exact Hh]).
Qed.

Lemma vector_compound_operators_witness :
  (vec_size v53_source <> DynamicVector.size v3 ->
   DynamicVectorExpr.add_assign_op 3 (DynamicVectorExpr.Dense v53_source) v3
     = (v3, Throws "Vector sizes do not match") /\
   DynamicVectorExpr.sub_assign_op 3 (DynamicVectorExpr.Dense v53_source) v3
     = (v3, Throws "Vector sizes do not match")) /\
  (vec_size v53_source = DynamicVector.size v3 ->
   (exists w,
      DynamicVectorExpr.add_assign_op 3 (DynamicVectorExpr.Dense v53_source) v3 = (w, Returns tt) /\
      DynamicVector.size w = DynamicVector.size v3 /\
      (forall k, 0 <= k < DynamicVector.size v3 ->
         DynamicVector.get w k = DynamicVector.get v3 k + vec_get v53_source k) /\
      (forall k, k < 0 \/ DynamicVector.capacity v3 <= k ->
         DynamicVector.get w k = DynamicVector.get v3 k)) /\
   (exists w,
      DynamicVectorExpr.sub_assign_op 3 (DynamicVectorExpr.Dense v53_source) v3 = (w, Returns tt) /\
      DynamicVector.size w = DynamicVector.size v3 /\
      (forall k, 0 <= k < DynamicVector.size v3 ->
         DynamicVector.get w k = DynamicVector.get v3 k - vec_get v53_source k) /\
      (forall k, k < 0 \/ DynamicVector.capacity v3 <= k ->
         DynamicVector.get w k = DynamicVector.get v3 k))).
Proof.
  exact (vector_compound_operators v53_source v3 3 v53_source_ok
           (proj1 v3_capacity) (proj1 (proj2 v3_capacity))
           (proj1 (proj2 (proj2 v3_capacity))) (proj2 (proj2 (proj2 v3_capacity))) v3_fuel).
Defined.
